(** * The OPF plotting API: layout and figure assembly

    A shallow embedding of [src/gurobi_optimods/opf/graphics.py]:
    the orchestrator [violation_plot], the layout engine
    ([_coords_from_sfdp], [_coords_circle], [_get_coords]) and the figure
    post-processor ([_restyle_annotations], [_tune_traces]), with the part
    of [solution_plot] that can be read as written.

    Python floats are binary64 numbers, modelled by Rocq's primitive floats
    (same format, same rounding).  Python ints are [Z].  A Python [str] is
    a sequence of Unicode code points ([str]); the built-ins on text follow
    CPython 3.11 (Unicode 14, at most 4300 digits in a conversion between
    [int] and [str]).  A [dict] is an association list in insertion order,
    as Python keeps it.  A call that may raise returns a [result]; code
    that also acts on the outside world (starting the layout tool) runs in
    the monad [M], which threads the log of such actions. *)

From Stdlib Require Import ZArith NArith List String Ascii Bool Lia Floats.
From Stdlib Require Import Permutation Sorted.
From Stdlib Require Uint63 DecimalPos.
Import ListNotations.

#[local] Set Warnings "-inexact-float,-register-all".
#[local] Open Scope Z_scope.

(** ** Exceptions and results *)

Inductive exn : Type :=
| FileNotFoundError
| CalledProcessError (returncode : Z)
| ValueError
| KeyError
| TypeError
| OverflowError
| OtherError (name : string).

Inductive result (A : Type) : Type :=
| Ok (a : A)
| Raise (e : exn).
Arguments Ok {A} a.
Arguments Raise {A} e.

Definition rbind {A B} (r : result A) (k : A -> result B) : result B :=
  match r with
  | Ok a => k a
  | Raise e => Raise e
  end.

Declare Scope py_scope.
Delimit Scope py_scope with py.
Notation "x <- e ;; k" := (rbind e (fun x => k))
  (at level 61, e at next level, right associativity) : py_scope.
Notation "' p <- e ;; k" := (rbind e (fun p => k))
  (at level 61, p pattern, e at next level, right associativity) : py_scope.

(** [for x in l: acc = body(acc, x)], leaving the loop at the first raise. *)
Fixpoint for_each {A S} (body : S -> A -> result S) (l : list A) (acc : S)
  : result S :=
  match l with
  | [] => Ok acc
  | a :: rest => rbind (body acc a) (for_each body rest)
  end.

(** ** Text

    A [str] is the sequence of its code points.  A literal between double
    quotes is read as the sequence of its characters, which are all ASCII
    in this file; any other character is written as its code point. *)

Definition str : Type := list N.

Definition lit (s : string) : str := map N_of_ascii (list_ascii_of_string s).
Coercion lit : string >-> str.

Declare Scope str_scope.
Delimit Scope str_scope with str.
Bind Scope str_scope with str.
String Notation string string_of_list_byte list_byte_of_string : str_scope.

(** ** Built-ins on text *)

Module Str.

(** [a + b] *)
Definition cat (a b : str) : str := List.app a b.

(** [a == b] *)
Fixpoint eqb (a b : str) : bool :=
  match a, b with
  | [], [] => true
  | c :: a', d :: b' => (c =? d)%N && eqb a' b'
  | _, _ => false
  end.

(** [str.isspace] on one character: TAB, LF, VT, FF, CR, FS, GS, RS, US,
    the space, NEL, the no-break space and the spaces of the general
    punctuation block. *)
Definition is_space (c : N) : bool :=
  ((9 <=? c) && (c <=? 13) || (28 <=? c) && (c <=? 32)
   || (c =? 0x85) || (c =? 0xA0) || (c =? 0x1680)
   || (0x2000 <=? c) && (c <=? 0x200A)
   || (c =? 0x2028) || (c =? 0x2029) || (c =? 0x202F) || (c =? 0x205F)
   || (c =? 0x3000))%N.

(** The line boundaries of [str.splitlines]: LF, VT, FF, CR, FS, GS, RS,
    NEL, LINE SEPARATOR and PARAGRAPH SEPARATOR. *)
Definition is_linebreak (c : N) : bool :=
  ((10 <=? c) && (c <=? 13) || (28 <=? c) && (c <=? 30)
   || (c =? 0x85) || (c =? 0x2028) || (c =? 0x2029))%N.

(** [s.lstrip()] *)
Fixpoint lstrip (s : str) : str :=
  match s with
  | c :: r => if is_space c then lstrip r else s
  | [] => []
  end.

(** [s.rstrip()] *)
Definition rstrip (s : str) : str := rev (lstrip (rev s)).

(** [s.strip()] *)
Definition strip (s : str) : str := rstrip (lstrip s).

(** [s.startswith(p)] *)
Fixpoint startswith (p s : str) : bool :=
  match p, s with
  | [], _ => true
  | c :: p', d :: s' => (c =? d)%N && startswith p' s'
  | _ :: _, [] => false
  end.

(** [p in s] for two strings *)
Fixpoint contains (p s : str) : bool :=
  startswith p s ||
  match s with
  | _ :: r => contains p r
  | [] => false
  end.

(** [sep.join(l)] *)
Fixpoint join (sep : str) (l : list str) : str :=
  match l with
  | [] => []
  | [a] => a
  | a :: rest => cat a (cat sep (join sep rest))
  end.

(** [s.split()]: the maximal runs of characters that are not white space.
    [cur] holds the current run, reversed. *)
Fixpoint split_aux (s cur : str) : list str :=
  match s with
  | [] =>
      match cur with [] => [] | _ => [rev cur] end
  | c :: r =>
      if is_space c then
        match cur with
        | [] => split_aux r []
        | _ => rev cur :: split_aux r []
        end
      else split_aux r (c :: cur)
  end.

Definition split (s : str) : list str := split_aux s [].

(** [s.splitlines()]: CR LF counts as one boundary, and a last line
    without boundary is kept when it is not empty. *)
Fixpoint splitlines_aux (s cur : str) : list str :=
  match s with
  | [] =>
      match cur with [] => [] | _ => [rev cur] end
  | c :: r =>
      if is_linebreak c then
        rev cur ::
        match r with
        | c' :: r' =>
            if ((c =? 13) && (c' =? 10))%N
            then splitlines_aux r' []
            else splitlines_aux r []
        | [] => []
        end
      else splitlines_aux r (c :: cur)
  end.

Definition splitlines (s : str) : list str := splitlines_aux s [].

(** The decimal digits of a number, the first one first. *)
Fixpoint digits_of (d : Decimal.uint) : str :=
  match d with
  | Decimal.Nil => []
  | Decimal.D0 d => 48%N :: digits_of d
  | Decimal.D1 d => 49%N :: digits_of d
  | Decimal.D2 d => 50%N :: digits_of d
  | Decimal.D3 d => 51%N :: digits_of d
  | Decimal.D4 d => 52%N :: digits_of d
  | Decimal.D5 d => 53%N :: digits_of d
  | Decimal.D6 d => 54%N :: digits_of d
  | Decimal.D7 d => 55%N :: digits_of d
  | Decimal.D8 d => 56%N :: digits_of d
  | Decimal.D9 d => 57%N :: digits_of d
  end.

(** [sys.get_int_max_str_digits()], at its default. *)
Definition max_str_digits : Z := 4300.

(** [str(z)] and [f"{z}"] for an int: [ValueError] when the text would
    have more than 4300 digits. *)
Definition of_Z (z : Z) : result str :=
  let digits := match z with
                | 0 => [48%N]
                | Zpos p | Zneg p => digits_of (Pos.to_uint p)
                end in
  if max_str_digits <? Z.of_nat (List.length digits) then Raise ValueError
  else Ok (match z with
           | Zneg _ => 45%N :: digits
           | _ => digits
           end).
End Str.

Notation "a ++ b" := (Str.cat a b) : str_scope.

(** ** Conversion of text to numbers *)

Module Num.
#[local] Open Scope Z_scope.

(** [Py_ISSPACE]: TAB, LF, VT, FF, CR and the space. *)
Definition is_c_space (c : N) : bool :=
  ((9 <=? c) && (c <=? 13) || (c =? 32))%N.

(** The characters that are a decimal digit come by tens, one ten for
    each script: these are the digits zero. *)
Definition digit_zeros : list N :=
  [
    0x30; 0x660; 0x6F0; 0x7C0; 0x966; 0x9E6; 0xA66; 0xAE6; 0xB66; 0xBE6;
    0xC66; 0xCE6; 0xD66; 0xDE6; 0xE50; 0xED0; 0xF20; 0x1040; 0x1090; 0x17E0;
    0x1810; 0x1946; 0x19D0; 0x1A80; 0x1A90; 0x1B50; 0x1BB0; 0x1C40; 0x1C50;
    0xA620; 0xA8D0; 0xA900; 0xA9D0; 0xA9F0; 0xAA50; 0xABF0; 0xFF10; 0x104A0;
    0x10D30; 0x11066; 0x110F0; 0x11136; 0x111D0; 0x112F0; 0x11450; 0x114D0;
    0x11650; 0x116C0; 0x11730; 0x118E0; 0x11950; 0x11C50; 0x11D50; 0x11DA0;
    0x16A60; 0x16AC0; 0x16B50; 0x1D7CE; 0x1D7D8; 0x1D7E2; 0x1D7EC; 0x1D7F6;
    0x1E140; 0x1E2F0; 0x1E950; 0x1FBF0
  ]%N.

(** [unicodedata.decimal(c)], if any. *)
Definition decimal_of (c : N) : option N :=
  match find (fun z => (z <=? c) && (c <? z + 10))%N digit_zeros with
  | Some z => Some (c - z)%N
  | None => None
  end.

(** What [int] and [float] make of a text before they read it: white
    space beyond ASCII becomes a space, a decimal digit of any script the
    ASCII digit; the text is cut at the first other character beyond ASCII,
    which becomes a question mark. *)
Fixpoint to_ascii (s : str) : str :=
  match s with
  | [] => []
  | c :: r =>
      if (c <? 127)%N then c :: to_ascii r
      else if Str.is_space c then 32%N :: to_ascii r
      else match decimal_of c with
           | Some d => (48 + d)%N :: to_ascii r
           | None => [63%N]
           end
  end.

Fixpoint lstrip_c (s : str) : str :=
  match s with
  | c :: r => if is_c_space c then lstrip_c r else s
  | [] => []
  end.

(** The text without the [Py_ISSPACE] characters at its ends. *)
Definition strip_c (s : str) : str := rev (lstrip_c (rev (lstrip_c s))).

Definition digit_of (c : N) : option Z :=
  if ((48 <=? c) && (c <=? 57))%N then Some (Z.of_N (c - 48)) else None.

(** A [digitpart]: decimal digits, single underscores allowed between two
    digits.  Returns the value and the number of digits read. *)
Fixpoint digitpart_aux (s : str) (acc cnt : Z) : option (Z * Z) :=
  match s with
  | [] => Some (acc, cnt)
  | c :: r =>
      match digit_of c with
      | Some d => digitpart_aux r (10 * acc + d) (cnt + 1)
      | None =>
          if (c =? 95)%N then
            match r with
            | c' :: _ =>
                match digit_of c' with
                | Some _ => digitpart_aux r acc cnt
                | None => None
                end
            | [] => None
            end
          else None
      end
  end.

Definition digitpart (s : str) : option (Z * Z) :=
  match s with
  | c :: _ =>
      match digit_of c with
      | Some _ => digitpart_aux s 0 0
      | None => None
      end
  | [] => None
  end.

(** An optional sign: [(negative, rest)]. *)
Definition sign_of (s : str) : bool * str :=
  match s with
  | 45%N :: r => (true, r)
  | 43%N :: r => (false, r)
  | _ => (false, s)
  end.

(** [int(s)] for a string, base 10: [ValueError] when the text is no
    numeral, or has more than 4300 digits. *)
Definition int_of_str (s : str) : result Z :=
  let '(neg, body) := sign_of (strip_c (to_ascii s)) in
  match digitpart body with
  | Some (v, cnt) =>
      if Str.max_str_digits <? cnt then Raise ValueError
      else Ok (if neg then - v else v)
  | None => Raise ValueError
  end.

(** The text before and after the first character satisfying [p]. *)
Fixpoint cut (p : N -> bool) (s : str) : str * option str :=
  match s with
  | [] => ([], None)
  | c :: r =>
      if p c then ([], Some r)
      else let '(a, b) := cut p r in (c :: a, b)
  end.

(** The binary64 number nearest to [m * 10^e] (ties to even), [m > 0]. *)
Definition round_decimal (neg : bool) (m : positive) (e : Z) : spec_float :=
  if 0 <=? e then
    binary_round prec emax neg (m * Z.to_pos (10 ^ e)) 0
  else
    let '(q, e', l) :=
      SFdiv_core_binary prec emax (Zpos m) 0 (10 ^ (- e)) 0 in
    binary_round_aux prec emax neg q e' l.

(** The decimal mantissa [int.frac]: value and number of fraction digits. *)
Definition mantissa_of (s : str) : option (Z * Z) :=
  match cut (N.eqb 46) s with
  | (ip, None) =>
      match digitpart ip with Some (v, _) => Some (v, 0) | None => None end
  | (ip, Some fp) =>
      match ip, fp with
      | [], [] => None
      | [], _ => digitpart fp
      | _, [] =>
          match digitpart ip with Some (v, _) => Some (v, 0) | None => None end
      | _, _ =>
          match digitpart ip, digitpart fp with
          | Some (vi, _), Some (vf, cf) => Some (vi * 10 ^ cf + vf, cf)
          | _, _ => None
          end
      end
  end.

Definition exponent_of (s : option str) : option Z :=
  match s with
  | None => Some 0
  | Some t =>
      let '(neg, body) := sign_of t in
      match digitpart body with
      | Some (v, _) => Some (if neg then - v else v)
      | None => None
      end
  end.

(** The lower case of an ASCII letter. *)
Definition lower (c : N) : N :=
  if ((65 <=? c) && (c <=? 90))%N then (c + 32)%N else c.

(** [float(s)] for a string: the [Py_ISSPACE] characters at the ends are
    dropped; the text is [inf], [infinity] or [nan] in any case, or a
    decimal numeral with optional fraction and exponent; the value is
    rounded to nearest. *)
Definition float_of_str (s : str) : result float :=
  let '(neg, body) := sign_of (strip_c (to_ascii s)) in
  let low := map lower body in
  if (Str.eqb low "inf" || Str.eqb low "infinity")%bool then
    Ok (if neg then neg_infinity else infinity)
  else if Str.eqb low "nan" then Ok nan
  else
    let '(ms, es) := cut (N.eqb 101) low in
    match mantissa_of ms, exponent_of es with
    | Some (m, cf), Some e =>
        Ok (SF2Prim match m with
                    | Zpos p => round_decimal neg p (e - cf)
                    | _ => S754_zero neg
                    end)
    | _, _ => Raise ValueError
    end.

(** [float(z)] for an int: rounded to nearest, [OverflowError] when the
    int is too large for a float. *)
Definition float_of_int (z : Z) : result float :=
  match binary_normalize prec emax z 0 false with
  | S754_infinity _ => Raise OverflowError
  | f => Ok (SF2Prim f)
  end.
End Num.

(** ** Dynamically typed values

    The values a figure attribute may hold. *)

Inductive pyval : Type :=
| VNone
| VBool (b : bool)
| VInt (z : Z)
| VFloat (f : float)
| VStr (s : str)
| VList (l : list pyval)
| VTuple (l : list pyval).

(** [float(v)] *)
Definition py_float (v : pyval) : result float :=
  match v with
  | VNone => Raise TypeError
  | VBool b => Ok (if b then 1 else 0)%float
  | VInt z => Num.float_of_int z
  | VFloat f => Ok f
  | VStr s => Num.float_of_str s
  | VList _ | VTuple _ => Raise TypeError
  end.

(** [min(a, b)] and [max(a, b)] on floats: the first argument is kept unless
    the second is strictly smaller (larger). *)
Definition min2 (a b : float) : float := if (b <? a)%float then b else a.
Definition max2 (a b : float) : float := if (a <? b)%float then b else a.

(** [min(l)] over a collection of floats: the first smallest element,
    [ValueError] on an empty collection. *)
Definition py_min (l : list float) : result float :=
  match l with
  | [] => Raise ValueError
  | v :: rest => Ok (fold_left min2 rest v)
  end.

(** ** Dictionaries

    Keys are ints (bus identifiers, node counts).  [dict_set] keeps the
    place of a key that is already there and appends a new one. *)

Definition dict (V : Type) : Type := list (Z * V).

Fixpoint dict_get {V} (k : Z) (d : dict V) : option V :=
  match d with
  | [] => None
  | (k', v) :: rest => if k' =? k then Some v else dict_get k rest
  end.

Fixpoint dict_set {V} (k : Z) (v : V) (d : dict V) : dict V :=
  match d with
  | [] => [(k, v)]
  | (k', v') :: rest =>
      if k' =? k then (k', v) :: rest else (k', v') :: dict_set k v rest
  end.

Definition dict_keys {V} (d : dict V) : list Z := map fst d.
Definition dict_values {V} (d : dict V) : list V := map snd d.

(** [d[k]] *)
Definition dict_getitem {V} (k : Z) (d : dict V) : result V :=
  match dict_get k d with
  | Some v => Ok v
  | None => Raise KeyError
  end.

(** [{v: k for k, v in d.items()}] *)
Definition dict_invert (d : dict Z) : dict Z :=
  fold_left (fun acc kv => dict_set (snd kv) (fst kv) acc) d [].

(** [sorted(l)] on ints *)
Fixpoint insert_sorted (a : Z) (l : list Z) : list Z :=
  match l with
  | [] => [a]
  | b :: rest => if a <=? b then a :: l else b :: insert_sorted a rest
  end.

Definition sorted (l : list Z) : list Z := fold_right insert_sorted [] l.

(** [enumerate(l)] *)
Definition enumerate {A} (l : list A) : list (Z * A) :=
  combine (map Z.of_nat (seq 0 (List.length l))) l.

(** [range(a, b)] *)
Definition range (a b : Z) : list Z :=
  map (fun i => a + Z.of_nat i) (seq 0 (Z.to_nat (b - a))).

(** ** Actions on the outside world

    The log records each entry into a layout strategy and each start of the
    layout tool, so that "is never invoked" is a statement about the log. *)

Inductive event : Type :=
| Enter_coords_from_sfdp
| Enter_coords_circle
| Run_sfdp (seed : Z) (graph : str).

Definition M (A : Type) : Type := list event -> result A * list event.

Definition ret {A} (a : A) : M A := fun log => (Ok a, log).

Definition lift {A} (r : result A) : M A := fun log => (r, log).

Definition bind {A B} (m : M A) (k : A -> M B) : M B :=
  fun log =>
    match m log with
    | (Ok a, log') => k a log'
    | (Raise e, log') => (Raise e, log')
    end.

Definition emit (ev : event) : M unit := fun log => (Ok tt, log ++ [ev]).

(** [try: body except <classes>: handler] *)
Definition try_except {A} (body : M A) (caught : exn -> bool) (handler : M A)
  : M A :=
  fun log =>
    match body log with
    | (Ok a, log') => (Ok a, log')
    | (Raise e, log') => if caught e then handler log' else (Raise e, log')
    end.

Notation "x <~ e ;; k" := (bind e (fun x => k))
  (at level 61, e at next level, right associativity) : py_scope.

(** ** The figure *)

Record Font : Type := { font_size : Z; font_color : str }.

Record Annotation : Type := {
  text : pyval;
  xref : option str;
  yref : option str;
  ann_x : option float;
  ann_y : option float;
  xanchor : option str;
  yanchor : option str;
  showarrow : option bool;
  align : option str;
  bgcolor : option str;
  bordercolor : option str;
  borderwidth : option Z;
  borderpad : option Z;
  font : option Font
}.

Record Margin : Type := { margin_l : Z; margin_r : Z; margin_t : Z; margin_b : Z }.

Record Axis : Type := {
  visible : option bool;
  scaleanchor : option str;
  scaleratio : option Z
}.

Record Layout : Type := {
  annotations : list Annotation;
  layout_width : option Z;
  layout_height : option Z;
  margin : option Margin;
  paper_bgcolor : option str;
  plot_bgcolor : option str;
  xaxis : Axis;
  yaxis : Axis
}.

(** An attribute that the object does not have is [None]; an attribute
    set to Python's [None] is [Some VNone]. *)
Record Line : Type := { line_width : option pyval }.
Record Marker : Type := { marker_size : option pyval }.

Record Trace : Type := {
  mode : option str;
  line : option Line;
  marker : option Marker
}.

Record Figure : Type := { layout : Layout; data : list Trace }.

(** ** The network *)

Record Branch : Type := { count_f : Z; count_t : Z }.

Definition Coords : Type := dict (float * float).

(** [math.pi] *)
Definition math_pi : float := 3.141592653589793%float.

(** The classes named by [except (FileNotFoundError,
    subprocess.CalledProcessError)] in [_get_coords]. *)
Definition tool_failure (e : exn) : bool :=
  match e with
  | FileNotFoundError | CalledProcessError _ => true
  | _ => false
  end.

(** The classes named by [except (TypeError, ValueError)] in [bump]. *)
Definition type_or_value_error (e : exn) : bool :=
  match e with
  | TypeError | ValueError => true
  | _ => false
  end.

(** ** The program *)

Section Graphics.
#[local] Open Scope Z_scope.
#[local] Open Scope py_scope.

(** The case, solution and violations dictionaries belong to the
    callers and collaborators; [Extra] is what the internal format holds
    beyond the fields read here. *)
Variables Case Solution Violations Extra : Type.

Record AllData : Type := {
  numbuses : Z;
  IDtoCountmap : dict Z;
  branches : list Branch;
  graphical : option (list (str * Z));
  extra : Extra
}.

(** The collaborators [converters] and [grbgraphical].  Their code is
    outside this file; each may raise. *)
Variable convert_case_to_internal_format : Case -> result AllData.
Variable grbmap_coords_from_dict : AllData -> Coords -> result AllData.
Variable generate_solution_figure : AllData -> Solution -> result Figure.
Variable generate_violations_figure : AllData -> Violations -> result Figure.

(** The [with] block of [_coords_from_sfdp]: the text [graph] is written
    to a file in a temporary directory and [subprocess.check_output(["sfdp",
    "-Tplain", f"-Gseed={seed}", path], text=True)] is run on it.  The
    answer is the standard output, or what the block raises:
    [FileNotFoundError] when the tool is not installed,
    [CalledProcessError] on a non-zero exit. *)
Variable sfdp : Z -> str -> result str.

(** [math.cos] and [math.sin] *)
Variables math_cos math_sin : float -> result float.

(** [alldata["graphical"] = {}; alldata["graphical"]["numfeatures"] = 0] *)
Definition set_graphical (alldata : AllData) : AllData :=
  {| numbuses := numbuses alldata;
     IDtoCountmap := IDtoCountmap alldata;
     branches := branches alldata;
     graphical := Some [(lit "numfeatures", 0)];
     extra := extra alldata |}.

(** *** Layout engine *)

Definition dquote : str := [34%N].
Definition newline : str := [10%N].

(** The graph description handed to the tool. *)
Definition node_defaults : str :=
  ("node [shape=point, height=0, width=0, label=" ++ dquote ++ dquote
     ++ "];")%str.

(** [f"  {j};"] *)
Definition node_stmt (j : Z) : result str :=
  s <- Str.of_Z j ;;
  Ok ("  " ++ s ++ ";")%str.

(** [f"  {br.count_f} -- {br.count_t};"] *)
Definition edge_stmt (br : Branch) : result str :=
  f <- Str.of_Z (count_f br) ;;
  t <- Str.of_Z (count_t br) ;;
  Ok ("  " ++ f ++ " -- " ++ t ++ ";")%str.

(** [lines.append(...)] in a loop, one line for each item. *)
Definition append_each {A} (stmt : A -> result str) (items : list A)
  (lines : list str) : result (list str) :=
  for_each (fun lines a => s <- stmt a ;; Ok (List.app lines [s])) items lines.

(** The lines of the graph description; an f-string raises [ValueError]
    on an int of more than 4300 digits. *)
Definition graph_lines (alldata : AllData) : result (list str) :=
  let lines := [lit "graph G {"; node_defaults] in
  lines <- append_each node_stmt (range 1 (numbuses alldata + 1)) lines ;;
  lines <- append_each edge_stmt (branches alldata) lines ;;
  Ok (List.app lines [lit "}"]).

Definition run_sfdp (seed : Z) (graph : str) : M str :=
  fun log => (sfdp seed graph, (log ++ [Run_sfdp seed graph])%list).

(** The test [len(parts) >= 4 and parts[0] == "node"]. *)
Definition is_node_line (parts : list str) : bool :=
  match parts with
  | p0 :: _ :: _ :: _ :: _ => Str.eqb p0 "node"
  | _ => false
  end.

(** One turn of the loop over the lines of the tool's output. *)
Definition parse_line (xy : dict float * dict float) (line : str)
  : result (dict float * dict float) :=
  let parts := Str.split line in
  if is_node_line parts then
    name <- Num.int_of_str (nth 1 parts []) ;;
    fx <- Num.float_of_str (nth 2 parts []) ;;
    fy <- Num.float_of_str (nth 3 parts []) ;;
    Ok (dict_set name fx (fst xy), dict_set name fy (snd xy))
  else Ok xy.

Definition parse_nodes (out : str) : result (dict float * dict float) :=
  for_each parse_line (Str.splitlines out) ([], []).

(** One turn of the loop over [x.items()]. *)
Definition place (CountToID : dict Z) (y : dict float) (minx miny : float)
  (coords : Coords) (item : Z * float) : result Coords :=
  let '(cnt, X) := item in
  Y <- dict_getitem cnt y ;;
  let Xn := (X - minx)%float in
  let Yn := (Y - miny)%float in
  bus_i <- dict_getitem cnt CountToID ;;
  Ok (dict_set bus_i (Yn, Xn) coords).

(** What [_coords_from_sfdp] does with the tool's output. *)
Definition coords_of_output (CountToID : dict Z) (out : str)
  : result Coords :=
  ' (x, y) <- parse_nodes out ;;
  minx <- py_min (dict_values x) ;;
  miny <- py_min (dict_values y) ;;
  for_each (place CountToID y minx miny) x [].

Definition _coords_from_sfdp (case : Case) (seed : Z) : M Coords :=
  _ <~ emit Enter_coords_from_sfdp ;;
  alldata <~ lift (convert_case_to_internal_format case) ;;
  let IDtoCount := IDtoCountmap alldata in
  let CountToID := dict_invert IDtoCount in
  lines <~ lift (graph_lines alldata) ;;
  out <~ run_sfdp seed (Str.join newline lines) ;;
  lift (coords_of_output CountToID out).

(** [2 * math.pi * k / max(1, n)]: the ints [k] and [max(1, n)] are
    converted to floats by the product and the quotient. *)
Definition angle (k n : Z) : result float :=
  fk <- Num.float_of_int k ;;
  fn <- Num.float_of_int (Z.max 1 n) ;;
  Ok (2 * math_pi * fk / fn)%float.

(** One turn of the loop over [enumerate(bus_ids)]. *)
Definition place_on_circle (n : Z) (R : float) (coords : Coords)
  (item : Z * Z) : result Coords :=
  let '(k, bus) := item in
  theta <- angle k n ;;
  c <- math_cos theta ;;
  let x := (R * c)%float in
  s <- math_sin theta ;;
  let y := (R * s)%float in
  Ok (dict_set bus (y, x) coords).

Definition circle_of (alldata : AllData) : result Coords :=
  let bus_ids := sorted (dict_keys (IDtoCountmap alldata)) in
  let n := Z.of_nat (List.length bus_ids) in
  let R := 100%float in
  for_each (place_on_circle n R) (enumerate bus_ids) [].

Definition _coords_circle (case : Case) : M Coords :=
  _ <~ emit Enter_coords_circle ;;
  alldata <~ lift (convert_case_to_internal_format case) ;;
  lift (circle_of alldata).

Definition _get_coords (case : Case) (coords : option Coords) : M Coords :=
  match coords with
  | Some c => ret c
  | None =>
      try_except (_coords_from_sfdp case 1234) tool_failure
                 (_coords_circle case)
  end.

(** *** Figure post-processor *)

Definition span (color name : str) : str :=
  ("<span style=" ++ dquote ++ "color:" ++ color ++ dquote ++ ">"
     ++ name ++ "</span>")%str.

(** The signs [<=] and [>=] of the legend, U+2264 and U+2265. *)
Definition le_sign : str := [0x2264%N].
Definition ge_sign : str := [0x2265%N].

(** The fixed part of the annotation block. *)
Definition legend_lines : list str :=
  [lit "No lines turned off";
   lit "";
   lit "<b>Bus colors</b>";
   "Black: generation " ++ le_sign ++ " 75 & load < 50";
   span "#1f77b4" "Blue" ++ ": generation " ++ le_sign ++ " 75 & load "
     ++ ge_sign ++ " 50";
   span "#9467bd" "Purple" ++ ": generation > 75";
   span "#ff7f0e" "Orange" ++ ": generation > 150";
   span "#d62728" "Red" ++ ": generation > 500"]%str.

(** [if obj_text:] holds for a string that is not empty. *)
Definition objective_lines (obj_text : option str) : list str :=
  match obj_text with
  | None | Some [] => []
  | Some t => [("<b>" ++ t ++ "</b>")%str; lit ""]
  end.

Definition block_text (obj_text : option str) : str :=
  Str.join "<br>" (List.app (objective_lines obj_text) legend_lines).

Definition block (txt : str) : Annotation :=
  {| text := VStr txt;
     xref := Some (lit "paper"); yref := Some (lit "paper");
     ann_x := Some 0.02%float; ann_y := Some 0.98%float;
     xanchor := Some (lit "left"); yanchor := Some (lit "top");
     showarrow := Some false; align := Some (lit "left");
     bgcolor := Some (lit "rgba(255,255,255,0.90)");
     bordercolor := Some (lit "rgba(0,0,0,0.15)");
     borderwidth := Some 1; borderpad := Some 6;
     font := Some {| font_size := 16; font_color := "black" |} |}.

Definition set_annotations (anns : list Annotation) (fig : Figure) : Figure :=
  let l := layout fig in
  {| layout :=
       {| annotations := anns;
          layout_width := layout_width l;
          layout_height := layout_height l;
          margin := margin l;
          paper_bgcolor := paper_bgcolor l;
          plot_bgcolor := plot_bgcolor l;
          xaxis := xaxis l;
          yaxis := yaxis l |};
     data := data fig |}.

(** [fig.add_annotation(...)] *)
Definition add_annotation (a : Annotation) (fig : Figure) : Figure :=
  set_annotations (List.app (annotations (layout fig)) [a]) fig.

Definition _restyle_annotations (fig : Figure) (obj_text : option str)
  : Figure :=
  let fig := set_annotations [] fig in
  add_annotation (block (block_text obj_text)) fig.

(** The scan of [solution_plot] for the objective annotation: the first
    annotation whose text is a string that starts with [OBJ] once
    stripped; the stripped text is kept. *)
Fixpoint find_obj_text (anns : list Annotation) : option str :=
  match anns with
  | [] => None
  | a :: rest =>
      match text a with
      | VStr s =>
          if Str.startswith "OBJ" (Str.strip s) then Some (Str.strip s)
          else find_obj_text rest
      | _ => find_obj_text rest
      end
  end.

(** [min(max(lo, v), hi)] *)
Definition clamp (lo hi v : float) : float := min2 (max2 lo v) hi.

(** The new width of a line, from the old one. *)
Definition tune_width (w : pyval) : float :=
  let oldw := match py_float w with
              | Ok f => f
              | Raise _ => 1%float
              end in
  clamp 0.8 2.2 (oldw * 1.08)%float.

Definition bump (v : pyval) : result float :=
  fv <- match py_float v with
        | Ok f => Ok f
        | Raise e => if type_or_value_error e then Ok 6%float else Raise e
        end ;;
  Ok (clamp 6 18 (fv * 1.12))%float.

(** [[bump(v) for v in s]] *)
Definition bump_all (s : list pyval) : result (list pyval) :=
  for_each (fun acc v => fv <- bump v ;; Ok (List.app acc [VFloat fv])) s [].

Definition tune_size (s : pyval) : result pyval :=
  match s with
  | VList l | VTuple l => l' <- bump_all l ;; Ok (VList l')
  | _ => fv <- bump s ;; Ok (VFloat fv)
  end.

(** The branch under [# Edges (lines)]. *)
Definition tune_line (m : str) (tr : Trace) : Trace :=
  if Str.contains "lines" m then
    match line tr with
    | Some {| line_width := Some w |} =>
        {| mode := mode tr;
           line := Some {| line_width := Some (VFloat (tune_width w)) |};
           marker := marker tr |}
    | _ => tr
    end
  else tr.

(** The branch under [# Nodes (markers)]. *)
Definition tune_marker (m : str) (tr : Trace) : result Trace :=
  if Str.contains "markers" m then
    match marker tr with
    | Some {| marker_size := Some s |} =>
        s' <- tune_size s ;;
        Ok {| mode := mode tr;
              line := line tr;
              marker := Some {| marker_size := Some s' |} |}
    | _ => Ok tr
    end
  else Ok tr.

(** The body of the loop of [_tune_traces]; [getattr(tr, "mode", "") or
    ""] is the mode, or the empty string. *)
Definition tune_trace (tr : Trace) : result Trace :=
  let m := match mode tr with Some m => m | None => [] end in
  tune_marker m (tune_line m tr).

Definition tune_all (trs : list Trace) : result (list Trace) :=
  for_each (fun acc tr => tr' <- tune_trace tr ;; Ok (List.app acc [tr']))
           trs [].

Definition _tune_traces (fig : Figure) : result Figure :=
  trs <- tune_all (data fig) ;;
  Ok {| layout := layout fig; data := trs |}.

(** *** Orchestrators *)

(** [fig.update_layout(width=..., height=..., margin=dict(l=20, r=20,
    t=20, b=20), paper_bgcolor="white", plot_bgcolor="white")] *)
Definition update_layout (width height : Z) (fig : Figure) : Figure :=
  let l := layout fig in
  {| layout :=
       {| annotations := annotations l;
          layout_width := Some width;
          layout_height := Some height;
          margin := Some {| margin_l := 20; margin_r := 20;
                            margin_t := 20; margin_b := 20 |};
          paper_bgcolor := Some (lit "white");
          plot_bgcolor := Some (lit "white");
          xaxis := xaxis l;
          yaxis := yaxis l |};
     data := data fig |}.

Definition set_axes (xa ya : Axis) (fig : Figure) : Figure :=
  let l := layout fig in
  {| layout :=
       {| annotations := annotations l;
          layout_width := layout_width l;
          layout_height := layout_height l;
          margin := margin l;
          paper_bgcolor := paper_bgcolor l;
          plot_bgcolor := plot_bgcolor l;
          xaxis := xa;
          yaxis := ya |};
     data := data fig |}.

(** [fig.update_xaxes(visible=False); fig.update_yaxes(visible=False);
    fig.update_yaxes(scaleanchor="x", scaleratio=1)] *)
Definition update_axes (fig : Figure) : Figure :=
  let xa := xaxis (layout fig) in
  let ya := yaxis (layout fig) in
  set_axes
    {| visible := Some false;
       scaleanchor := scaleanchor xa; scaleratio := scaleratio xa |}
    {| visible := Some false;
       scaleanchor := Some (lit "x"); scaleratio := Some 1 |}
    fig.

(** The source of [solution_plot] is no Python: it writes the test on
    [coords] as [if coords = None:] and puts [solution] after a defaulted
    parameter, so there is no function to embed.  This is the function
    that its docstring describes, with the test read as [coords is None]
    and the parameters in the order written; nothing that is stated of the
    code rests on it. *)
Definition solution_plot_repaired (case : Case) (coords : option Coords)
  (solution : Solution) (width height : Z) (keep_obj : bool) : M Figure :=
  alldata <~ lift (convert_case_to_internal_format case) ;;
  let alldata := set_graphical alldata in
  coords <~ match coords with
            | None => _get_coords case coords
            | Some c => ret c
            end ;;
  alldata <~ lift (grbmap_coords_from_dict alldata coords) ;;
  fig <~ lift (generate_solution_figure alldata solution) ;;
  let obj_text := find_obj_text (annotations (layout fig)) in
  let fig := _restyle_annotations fig (if keep_obj then obj_text else None) in
  let fig := update_layout width height fig in
  let fig := update_axes fig in
  lift (_tune_traces fig).

(** The defaults [width=1200, height=900, keep_obj=True]. *)
Definition default_width : Z := 1200.
Definition default_height : Z := 900.
Definition default_keep_obj : bool := true.

Definition violation_plot (case : Case) (coords : Coords)
  (violations : Violations) : M Figure :=
  alldata <~ lift (convert_case_to_internal_format case) ;;
  let alldata := set_graphical alldata in
  alldata <~ lift (grbmap_coords_from_dict alldata coords) ;;
  fig <~ lift (generate_violations_figure alldata violations) ;;
  ret fig.

(** The annotation pass of [solution_plot] alone: the scan, then
    [_restyle_annotations(fig, obj_text if keep_obj else None)]. *)
Definition restyle (fig : Figure) (keep_obj : bool) : Figure :=
  let obj_text := find_obj_text (annotations (layout fig)) in
  _restyle_annotations fig (if keep_obj then obj_text else None).

(** *** Vocabulary of the statements *)

(** The graph description of a network, as one text. *)
Definition graph_text (alldata : AllData) : result str :=
  lines <- graph_lines alldata ;;
  Ok (Str.join newline lines).

(** The log after the force-directed strategy has started the tool. *)
Definition after_sfdp (graph : str) (seed : Z) (log : list event)
  : list event :=
  List.app (List.app log [Enter_coords_from_sfdp])
           [Run_sfdp seed graph].

End Graphics.


Arguments Build_AllData {Extra}.
Arguments numbuses {Extra}.
Arguments IDtoCountmap {Extra}.
Arguments branches {Extra}.
Arguments graphical {Extra}.
Arguments extra {Extra}.
Arguments set_graphical {Extra}.
Arguments graph_lines {Extra}.
Arguments circle_of {Extra}.
Arguments graph_text {Extra}.
Arguments _coords_from_sfdp {Case Extra}.
Arguments _coords_circle {Case Extra}.
Arguments _get_coords {Case Extra}.
Arguments solution_plot_repaired {Case Solution Extra}.
Arguments violation_plot {Case Violations Extra}.

Definition is_ok {A} (r : result A) : bool :=
  match r with
  | Ok _ => true
  | Raise _ => false
  end.

(** A line of the form [node <id> <x> <y> ...] that the loop of
    [_coords_from_sfdp] reads in full. *)
Definition parses_as_node (line : str) : bool :=
  let parts := Str.split line in
  is_node_line parts
  && is_ok (Num.int_of_str (nth 1 parts []))
  && is_ok (Num.float_of_str (nth 2 parts []))
  && is_ok (Num.float_of_str (nth 3 parts [])).

(** [getattr(tr, "mode", "") or ""] *)
Definition mode_of (tr : Trace) : str :=
  match mode tr with
  | Some m => m
  | None => []
  end.

Definition in_range (lo hi r : float) : Prop :=
  (lo <=? r)%float = true /\ (r <=? hi)%float = true.

(** The value of [float(v)], or [d] when it raises. *)
Definition or_default (d : float) (r : result float) : float :=
  match r with
  | Ok f => f
  | Raise _ => d
  end.

(** The width [w'] that the pass leaves for the width [w]. *)
Definition width_after (w w' : pyval) : Prop :=
  exists r, w' = VFloat r /\ in_range 0.8 2.2 r /\
            r = clamp 0.8 2.2 (or_default 1 (py_float w) * 1.08)%float.

(** The size [v'] that the pass leaves for the size [v] of one element. *)
Definition size_after_one (v v' : pyval) : Prop :=
  exists r, v' = VFloat r /\ in_range 6 18 r /\
            r = clamp 6 18 (or_default 6 (py_float v) * 1.12)%float.

(** The size attribute after the pass: element by element for a list or a
    tuple, as one value otherwise. *)
Definition size_after (s s' : pyval) : Prop :=
  match s with
  | VList l | VTuple l => exists l', s' = VList l' /\ Forall2 size_after_one l l'
  | _ => size_after_one s s'
  end.

(** The trace [tr'] that the pass leaves for [tr]. *)
Definition tuned (tr tr' : Trace) : Prop :=
  mode tr' = mode tr /\
  match line tr with
  | Some {| line_width := Some w |} =>
      if Str.contains "lines" (mode_of tr) then
        exists w', line tr' = Some {| line_width := Some w' |} /\ width_after w w'
      else line tr' = line tr
  | _ => line tr' = line tr
  end /\
  match marker tr with
  | Some {| marker_size := Some s |} =>
      if Str.contains "markers" (mode_of tr) then
        exists s', marker tr' = Some {| marker_size := Some s' |} /\ size_after s s'
      else marker tr' = marker tr
  | _ => marker tr' = marker tr
  end.

(** [float(v)] returns, or raises one of the two classes that [bump]
    catches. *)
Definition convertible (v : pyval) : bool :=
  match py_float v with
  | Ok _ => true
  | Raise e => type_or_value_error e
  end.

Definition sizes_convertible (tr : Trace) : bool :=
  match marker tr with
  | Some {| marker_size := Some s |} =>
      if Str.contains "markers" (mode_of tr) then
        match s with
        | VList l | VTuple l => forallb convertible l
        | _ => convertible s
        end
      else true
  | _ => true
  end.

(** An annotation that the scan of [solution_plot] takes for the
    objective. *)
Definition objective (a : Annotation) : bool :=
  match text a with
  | VStr s => Str.startswith "OBJ" (Str.strip s)
  | _ => false
  end.

(** The node line [line] gives node [k] the position [(X, Y)], in the
    tool's order. *)
Definition gives (line : str) (k : Z) (X Y : float) : Prop :=
  let parts := Str.split line in
  is_node_line parts = true /\
  Num.int_of_str (nth 1 parts []) = Ok k /\
  Num.float_of_str (nth 2 parts []) = Ok X /\
  Num.float_of_str (nth 3 parts []) = Ok Y.

(** A line that is no node line, or a node line that names a node count of
    the network at a finite position. *)
Definition node_ok (IDtoCount : dict Z) (line : str) : bool :=
  let parts := Str.split line in
  negb (is_node_line parts) ||
  match Num.int_of_str (nth 1 parts []),
        Num.float_of_str (nth 2 parts []),
        Num.float_of_str (nth 3 parts []) with
  | Ok k, Ok X, Ok Y =>
      existsb (Z.eqb k) (dict_values IDtoCount) && is_finite X && is_finite Y
  | _, _, _ => false
  end.

Definition has_node_line (out : str) : bool :=
  existsb (fun line => is_node_line (Str.split line)) (Str.splitlines out).

(** The [x] and the [y] of the coordinates of a map, which holds them as
    [(y, x)]. *)
Definition xs_of (coords : Coords) : list float :=
  map (fun entry => snd (snd entry)) coords.
Definition ys_of (coords : Coords) : list float :=
  map (fun entry => fst (snd entry)) coords.

Definition min_is_zero (l : list float) : Prop :=
  exists m, py_min l = Ok m /\ (m =? 0)%float = true.

(** What is known of [math.cos] and [math.sin]: on a finite argument they
    return a number between [-1] and [1]. *)
Definition bounded_on_finite (f : float -> result float) : Prop :=
  forall t, is_finite t = true ->
    exists v, f t = Ok v /\ (abs v <=? 1)%float = true.

(** The pair [(y, x)] = [(R sin(theta), R cos(theta))] for the bus of rank
    [k] among [n], with [R = 100] and [theta = 2 pi k / n]. *)
Definition at_angle (cos sin : float -> result float) (n k : Z)
  (p : float * float) : Prop :=
  exists theta c s,
    angle k n = Ok theta /\ cos theta = Ok c /\ sin theta = Ok s /\
    p = (100 * s, 100 * c)%float.

(** The entry of the map for the bus of rank [k]: at its angle, and
    finite. *)
Definition on_circle (cos sin : float -> result float) (n : Z)
  (item : Z * Z) (entry : Z * (float * float)) : Prop :=
  fst entry = snd item /\ at_angle cos sin n (fst item) (snd entry) /\
  is_finite (fst (snd entry)) = true /\ is_finite (snd (snd entry)) = true.

(** [enumerate(l, start)] *)
Definition enumerate_from {A} (start : nat) (l : list A) : list (Z * A) :=
  combine (map Z.of_nat (seq start (List.length l))) l.

(** ** Vocabulary on binary64 numbers

    Read on the specification [spec_float] of a float: sign, mantissa and
    exponent. *)

Definition sf_finite (x : spec_float) : bool :=
  match x with
  | S754_zero _ | S754_finite _ _ _ => true
  | _ => false
  end.

Definition sf_nan (x : spec_float) : bool :=
  match x with
  | S754_nan => true
  | _ => false
  end.

(** The sign that a result carries; a NaN carries none. *)
Definition has_sign (s : bool) (r : spec_float) : Prop :=
  match r with
  | S754_nan => False
  | S754_zero s' | S754_infinity s' | S754_finite s' _ _ => s' = s
  end.

(** [x] is finite and of magnitude under [2^B]. *)
Definition below (B : Z) (x : spec_float) : Prop :=
  match x with
  | S754_zero _ => True
  | S754_finite _ m e => Zpos (digits2_pos m) + e <= B
  | _ => False
  end.

(** [x] is not zero and of magnitude at least [2^(L-1)]. *)
Definition above (L : Z) (x : spec_float) : Prop :=
  match x with
  | S754_finite _ m e => L <= Zpos (digits2_pos m) + e
  | S754_infinity _ => True
  | _ => False
  end.

(** The comparison of two floats, [None] when one is a NaN. *)
Definition cmp (x y : float) : option comparison :=
  SFcompare (Prim2SF x) (Prim2SF y).

(** What holds of the two dictionaries throughout the loop: same keys in
    the same order, no key twice, and the two values of a key come from one
    node line. *)
Definition paired (lines : list str) (x y : dict float) : Prop :=
  dict_keys x = dict_keys y /\ NoDup (dict_keys x) /\
  forall k X Y, dict_get k x = Some X -> dict_get k y = Some Y ->
    exists line, In line lines /\ gives line k X Y.

(** ** Vocabulary on the tool's output *)

(** A line that the loop of [_coords_from_sfdp] passes over, or reads in
    full. *)
Definition reads_or_skips (line : str) : bool :=
  negb (is_node_line (Str.split line)) || parses_as_node line.

(** The node lines of the tool's output, in order. *)
Definition node_lines (out : str) : list str :=
  filter (fun line => is_node_line (Str.split line)) (Str.splitlines out).

(** Some node line of [out] names the node [k]. *)
Definition names (out : str) (k : Z) : Prop :=
  exists line X Y, In line (Str.splitlines out) /\ gives line k X Y.


(** * Sample data

    A three-bus triangle, the collaborators reduced to the least that
    respects their contracts, a few behaviours of the layout tool, and
    figures with well-formed and malformed style attributes. *)

Module Sample.
#[local] Open Scope Z_scope.

Definition NetCase : Type := AllData unit.

Definition network (ids : dict Z) (brs : list Branch) : NetCase :=
  {| numbuses := Z.of_nat (List.length ids);
     IDtoCountmap := ids;
     branches := brs;
     graphical := None;
     extra := tt |}.

Definition triangle : NetCase :=
  network [(30, 1); (10, 2); (20, 3)]
          [ {| count_f := 1; count_t := 2 |};
            {| count_f := 2; count_t := 3 |};
            {| count_f := 3; count_t := 1 |} ].

Definition one_bus : NetCase := network [(7, 1)] [].

Definition no_bus : NetCase := network [] [].

(** The graph description of the triangle. *)
Definition triangle_graph : str :=
  Str.join newline
    [lit "graph G {"; node_defaults;
     lit "  1;"; lit "  2;"; lit "  3;";
     lit "  1 -- 2;"; lit "  2 -- 3;"; lit "  3 -- 1;";
     lit "}"].

(** The conversion of a case that is already in the internal format. *)
Definition convert (case : NetCase) : result NetCase := Ok case.

(** The coordinate mapper: it fails when a bus has no coordinate. *)
Definition grbmap (alldata : NetCase) (coords : Coords) : result NetCase :=
  if forallb (fun bus => match dict_get bus coords with
                         | Some _ => true
                         | None => false
                         end)
             (dict_keys (IDtoCountmap alldata))
  then Ok alldata else Raise KeyError.

Definition plain_axis : Axis :=
  {| visible := None; scaleanchor := None; scaleratio := None |}.

Definition note (t : pyval) : Annotation :=
  {| text := t; xref := None; yref := None; ann_x := None; ann_y := None;
     xanchor := None; yanchor := None; showarrow := None; align := None;
     bgcolor := None; bordercolor := None; borderwidth := None;
     borderpad := None; font := None |}.

Definition figure_of (anns : list Annotation) (trs : list Trace) : Figure :=
  {| layout := {| annotations := anns;
                  layout_width := None; layout_height := None;
                  margin := None;
                  paper_bgcolor := None; plot_bgcolor := None;
                  xaxis := plain_axis; yaxis := plain_axis |};
     data := trs |}.

Definition trace (m : str) (w s : option pyval) : Trace :=
  {| mode := Some m;
     line := Some {| line_width := w |};
     marker := Some {| marker_size := s |} |}.

(** Traces with negative, textual, missing and list-valued attributes. *)
Definition odd_traces : list Trace :=
  [ trace "lines" (Some (VFloat 1.5)) None;
    trace "lines" (Some (VInt (-3))) None;
    trace "lines" (Some (VStr "wide")) None;
    trace "lines" (Some VNone) None;
    trace "lines" (Some (VList [VInt 1; VInt 2])) None;
    trace "markers" None (Some (VInt 10));
    trace "markers" None (Some (VFloat (-4)));
    trace "markers" None (Some (VStr "big"));
    trace "lines+markers" (Some (VInt 100))
          (Some (VList [VInt 3; VStr "x"; VFloat 100; VNone; VList []]));
    trace "markers" None (Some (VTuple [VFloat 7.5; VBool true])) ].

(** A trace whose mode includes [lines] and that has no [line]. *)
Definition bare_trace : Trace :=
  {| mode := Some (lit "lines"); line := None; marker := None |}.

(** A marker size that is an int too large for a float. *)
Definition huge_trace : Trace := trace "markers" None (Some (VInt (2 ^ 1024))).

Definition solved_figure : Figure :=
  figure_of [note (VStr "Lines on"); note VNone; note (VStr "OBJ 12.5 ");
             note (VStr "OBJ 99")]
            odd_traces.

Definition build_solution (alldata : NetCase) (solution : unit)
  : result Figure := Ok solved_figure.

Definition build_violations (alldata : NetCase) (violations : unit)
  : result Figure := Ok solved_figure.

(** The tool: not installed, failing, or answering a given text. *)
Definition no_sfdp (seed : Z) (graph : str) : result str :=
  Raise FileNotFoundError.


Definition sfdp_says (out : str) (seed : Z) (graph : str)
  : result str := Ok out.

Definition plain_output : str :=
  Str.join newline
    [lit "graph 1 1.6 2.1";
     lit "node 1 0.5 1.25 0 0 x solid point black lightgrey";
     lit "node 2 1.5 0.25 0 0 x solid point black lightgrey";
     lit "node 3 1.0 2.0 0 0 x solid point black lightgrey";
     lit "edge 1 2 4 0.5 1.25 0.8 0.9 1.2 0.6 1.5 0.25 solid black";
     lit "stop"; lit ""].

Definition no_node_output : str :=
  Str.join newline [lit "graph 1 0 0"; lit "stop"; lit ""].

Definition infinite_output : str := "node 1 inf 0 0".

(** [math.cos] and [math.sin] as they answer on the three angles of a
    triangle, [0], [2 pi / 3] and [4 pi / 3]. *)
Definition cos3 (t : float) : result float :=
  Ok (if t =? 0 then 1
      else if t <? 3 then -0.4999999999999998
      else -0.5000000000000004)%float.

Definition sin3 (t : float) : result float :=
  Ok (if t =? 0 then 0
      else if t <? 3 then 0.8660254037844387
      else -0.8660254037844384)%float.

(** A converter that does not find the case. *)
Definition missing_case (case : NetCase) : result NetCase :=
  Raise FileNotFoundError.

(** The triangle with its buses listed in another order, other counts
    and no branch. *)
Definition shuffled_triangle : NetCase :=
  network [(20, 1); (30, 2); (10, 3)] [].

(** An answer that names a node the network does not have. *)
Definition stray_output : str :=
  Str.join newline
    [lit "graph 1 1.6 2.1";
     lit "node 1 0.5 1.25 0 0 x solid point black lightgrey";
     lit "node 9 1.5 0.25 0 0 x solid point black lightgrey";
     lit "stop"; lit ""].

(** An answer that leaves the node 3 out. *)
Definition partial_output : str :=
  Str.join newline
    [lit "graph 1 1.6 2.1";
     lit "node 1 0.5 1.25 0 0 x solid point black lightgrey";
     lit "node 2 1.5 0.25 0 0 x solid point black lightgrey";
     lit "stop"; lit ""].

(** The node lines of [plain_output] alone. *)
Definition bare_output : str :=
  Str.join newline
    [lit "node 1 0.5 1.25 0 0 x solid point black lightgrey";
     lit "node 2 1.5 0.25 0 0 x solid point black lightgrey";
     lit "node 3 1.0 2.0 0 0 x solid point black lightgrey"].

(** An answer that gives the node 1 twice. *)
Definition repeated_lines : list str :=
  [lit "node 1 0.5 1.25"; lit "node 2 1.5 0.25"; lit "node 1 3.5 2.25"; lit "node 3 1.0 2.0"].

Definition repeated_output : str := Str.join newline repeated_lines.
End Sample.
(** * Facts on binary64 numbers *)

Module B64.
#[local] Open Scope Z_scope.

Lemma cont_is_compare (a b : positive) : Pos.compare_cont Eq a b = (a ?= b)%positive.
Proof. reflexivity. Qed.

Lemma SFcompare_antisym (x y : spec_float) :
  SFcompare y x = option_map CompOpp (SFcompare x y).
Proof.
  destruct x as [sx|sx| |sx mx ex], y as [sy|sy| |sy my ey]; simpl;
    try destruct sx; try destruct sy; try reflexivity;
    rewrite !cont_is_compare, (Z.compare_antisym ex ey), (Pos.compare_antisym mx my);
    destruct (ex ?= ey); simpl; try reflexivity;
    destruct (mx ?= my)%positive; reflexivity.
Qed.

Lemma SFcompare_refl (x : spec_float) :
  sf_nan x = false -> SFcompare x x = Some Eq.
Proof.
  destruct x as [s|s| |s m e]; simpl; intros H; try discriminate;
    destruct s; try reflexivity;
    rewrite cont_is_compare, Z.compare_refl, Pos.compare_refl; reflexivity.
Qed.

Lemma SFcompare_nan (x y : spec_float) :
  SFcompare x y = None <-> sf_nan x = true \/ sf_nan y = true.
Proof.
  destruct x as [sx|sx| |sx mx ex], y as [sy|sy| |sy my ey]; simpl;
    split; intros H; try discriminate; try (destruct H; discriminate);
    auto.
Qed.

Lemma SFcompare_lt_le_trans (x y z : spec_float) :
  SFcompare x y = Some Lt ->
  SFcompare y z = Some Lt \/ SFcompare y z = Some Eq ->
  SFcompare x z = Some Lt.
Proof.
  destruct x as [sx|sx| |sx mx ex], y as [sy|sy| |sy my ey],
           z as [sz|sz| |sz mz ez]; simpl;
    try destruct sx; try destruct sy; try destruct sz;
    try discriminate; try reflexivity;
    try (intros _ [H|H]; discriminate);
    change (Pos.compare_cont Eq) with Pos.compare;
    intros H1 [H2|H2]; injection H1 as H1; injection H2 as H2; f_equal;
    revert H1 H2;
    destruct (Z.compare_spec ex ey), (Z.compare_spec ey ez),
             (Z.compare_spec ex ez); try discriminate; try lia;
    try reflexivity;
    destruct (Pos.compare_spec mx my), (Pos.compare_spec my mz),
             (Pos.compare_spec mx mz); simpl;
    try discriminate; try lia; reflexivity.
Qed.

(** *** Digits and shifts *)

Lemma digits2_pos_bounds (p : positive) :
  2 ^ (Zpos (digits2_pos p) - 1) <= Zpos p < 2 ^ Zpos (digits2_pos p).
Proof.
  induction p as [p IH|p IH|]; simpl digits2_pos;
    rewrite ?Pos2Z.inj_succ, ?Z.pow_succ_r by lia.
  - replace (Z.succ (Zpos (digits2_pos p)) - 1)
      with (Z.succ (Zpos (digits2_pos p) - 1)) by lia.
    rewrite Z.pow_succ_r by lia. lia.
  - replace (Z.succ (Zpos (digits2_pos p)) - 1)
      with (Z.succ (Zpos (digits2_pos p) - 1)) by lia.
    rewrite Z.pow_succ_r by lia. lia.
  - simpl. lia.
Qed.

Lemma Zdigits2_nonneg (m : Z) : 0 <= Zdigits2 m.
Proof. destruct m; simpl; lia. Qed.

Lemma Zdigits2_lt (m : Z) : 0 <= m -> m < 2 ^ Zdigits2 m.
Proof.
  destruct m as [|p|p]; simpl; intros H; try lia.
  apply digits2_pos_bounds.
Qed.

(** A non-negative number below [2^k] has at most [k] digits. *)
Lemma Zdigits2_le (m k : Z) : 0 <= k -> 0 <= m < 2 ^ k -> Zdigits2 m <= k.
Proof.
  intros Hk [H0 H]. destruct m as [|p|p]; simpl; try lia.
  destruct (Z_le_gt_dec (Zpos (digits2_pos p)) k) as [L|G]; [assumption|].
  pose proof (digits2_pos_bounds p) as [B _].
  assert (2 ^ k <= 2 ^ (Zpos (digits2_pos p) - 1))
    by (apply Z.pow_le_mono_r; lia).
  lia.
Qed.

Lemma iter_xO (d m : positive) :
  Zpos (Pos.iter xO m d) = Zpos m * 2 ^ Zpos d.
Proof.
  induction d as [|d IH] using Pos.peano_ind.
  - simpl. lia.
  - rewrite Pos.iter_succ, Pos2Z.inj_xO, IH, Pos2Z.inj_succ,
      Z.pow_succ_r by lia. lia.
Qed.

(** [shl_align] moves a mantissa to a smaller exponent. *)
Lemma shl_align_value (m : positive) (e e' : Z) :
  e' <= e -> Zpos (fst (shl_align m e e')) = Zpos m * 2 ^ (e - e').
Proof.
  intros H. unfold shl_align. destruct (e' - e) as [|d|d] eqn:E; simpl fst.
  - replace (e - e') with 0 by lia. rewrite Z.pow_0_r. lia.
  - lia.
  - rewrite iter_xO. replace (e - e') with (Zpos d) by lia. reflexivity.
Qed.

Lemma shr_1_value (mrs : shr_record) :
  0 <= shr_m mrs -> shr_m (shr_1 mrs) = shr_m mrs / 2.
Proof.
  destruct mrs as [m r s]. simpl. intros H. rewrite <- Z.div2_div.
  destruct m as [|p|p]; [reflexivity| |lia].
  destruct p; reflexivity.
Qed.

Lemma iter_shr_1_value (p : positive) (mrs : shr_record) :
  0 <= shr_m mrs ->
  shr_m (iter_pos shr_1 p mrs) = shr_m mrs / 2 ^ Zpos p.
Proof.
  revert mrs. induction p as [p IH|p IH|]; intros mrs H; simpl iter_pos.
  - assert (H1 : 0 <= shr_m (shr_1 mrs))
      by (rewrite shr_1_value by assumption; apply Z.div_pos; lia).
    assert (H2 : 0 <= shr_m (iter_pos shr_1 p (shr_1 mrs)))
      by (rewrite IH by assumption; apply Z.div_pos; lia).
    rewrite IH, IH, shr_1_value by assumption.
    rewrite !Z.div_div by lia. f_equal.
    replace (Zpos p~1) with (1 + Zpos p + Zpos p) by lia.
    rewrite !Z.pow_add_r, Z.pow_1_r by lia. ring.
  - assert (H2 : 0 <= shr_m (iter_pos shr_1 p mrs))
      by (rewrite IH by assumption; apply Z.div_pos; lia).
    rewrite IH, IH by assumption.
    rewrite !Z.div_div by lia. f_equal.
    replace (Zpos p~0) with (Zpos p + Zpos p) by lia.
    rewrite Z.pow_add_r by lia. ring.
  - rewrite shr_1_value by assumption. reflexivity.
Qed.

(** The mantissa and exponent that [shr_fexp] leaves. *)
Lemma shr_fexp_value (m e : Z) (l : location) :
  0 <= m ->
  let n := Z.max 0 (fexp prec emax (Zdigits2 m + e) - e) in
  shr_m (fst (shr_fexp prec emax m e l)) = m / 2 ^ n /\
  snd (shr_fexp prec emax m e l) = e + n.
Proof.
  intros H n. unfold shr_fexp, shr. subst n.
  assert (R : shr_m (shr_record_of_loc m l) = m)
    by (destruct l as [|[]]; reflexivity).
  destruct (fexp prec emax (Zdigits2 m + e) - e) as [|p|p]; simpl fst; simpl snd.
  - rewrite R. simpl. rewrite Z.div_1_r. lia.
  - rewrite iter_shr_1_value by lia. rewrite R.
    rewrite Z.max_r by lia. auto.
  - rewrite R. rewrite Z.max_l by lia. simpl. rewrite Z.div_1_r. lia.
Qed.

Lemma round_nearest_even_range (m : Z) (l : location) :
  m <= round_nearest_even m l <= m + 1.
Proof.
  destruct l as [|[]]; simpl; try lia. destruct (Z.even m); lia.
Qed.

Lemma binary_round_aux_sign (s : bool) (m e : Z) (l : location) :
  0 <= m -> has_sign s (binary_round_aux prec emax s m e l).
Proof.
  intros H. unfold binary_round_aux.
  pose proof (shr_fexp_value m e l H) as [V1 _].
  destruct (shr_fexp prec emax m e l) as [mrs' e']. simpl in V1.
  set (m1 := round_nearest_even (shr_m mrs') (loc_of_shr_record mrs')).
  assert (H1 : 0 <= m1).
  { pose proof (round_nearest_even_range (shr_m mrs') (loc_of_shr_record mrs')).
    assert (0 <= shr_m mrs') by (rewrite V1; apply Z.div_pos; lia).
    subst m1. lia. }
  pose proof (shr_fexp_value m1 e' loc_Exact H1) as [V2 _].
  destruct (shr_fexp prec emax m1 e' loc_Exact) as [mrs'' e'']. simpl in V2.
  assert (H2 : 0 <= shr_m mrs'') by (rewrite V2; apply Z.div_pos; lia).
  destruct (shr_m mrs'') as [|p|p]; [reflexivity| |lia].
  destruct (e'' <=? emax - prec); reflexivity.
Qed.

(** *** Valid numbers *)

Lemma valid_finite (s : bool) (m : positive) (e : Z) :
  valid_binary (S754_finite s m e) = true ->
  Zpos (digits2_pos m) <= 53 /\ -1074 <= e <= 971 /\
  (-1074 < e -> Zpos (digits2_pos m) = 53).
Proof.
  unfold SpecFloat.valid_binary, bounded, canonical_mantissa, fexp, emin,
    prec, emax.
  rewrite andb_true_iff, Z.eqb_eq, Z.leb_le. lia.
Qed.

(** *** Subtraction *)

Lemma SFsub_diag (x : spec_float) :
  sf_finite x = true -> SF64sub x x = S754_zero false.
Proof.
  destruct x as [s|s| |s m e]; try discriminate; intros _.
  - destruct s; reflexivity.
  - unfold SF64sub, SFsub. rewrite Z.sub_diag. reflexivity.
Qed.

Lemma binary_normalize_sign (d e : Z) :
  0 <= d -> has_sign false (binary_normalize prec emax d e false).
Proof.
  intros H. destruct d as [|p|p]; [reflexivity| |lia].
  unfold binary_normalize, binary_round.
  destruct (shl_align p e _) as [mz ez].
  apply binary_round_aux_sign. lia.
Qed.

Lemma has_sign_nonneg (r : spec_float) :
  has_sign false r -> SFleb (S754_zero false) r = true.
Proof. destruct r as [s|s| |s m e]; simpl; intros H; now subst. Qed.

(** Two valid numbers in order have aligned mantissas in order. *)
Lemma aligned_diff_nonneg (sx : bool) (mx : positive) (ex : Z)
  (sy : bool) (my : positive) (ey : Z) :
  valid_binary (S754_finite sx mx ex) = true ->
  valid_binary (S754_finite sy my ey) = true ->
  SFltb (S754_finite sx mx ex) (S754_finite sy my ey) = false ->
  0 <= cond_Zopp sx (Zpos (fst (shl_align mx ex (Z.min ex ey))))
       - cond_Zopp sy (Zpos (fst (shl_align my ey (Z.min ex ey)))).
Proof.
  intros Vx Vy L.
  apply valid_finite in Vx. apply valid_finite in Vy.
  destruct Vx as (Dx & Ex & Nx), Vy as (Dy & Ey & Ny).
  rewrite !shl_align_value by lia.
  pose proof (digits2_pos_bounds mx) as [Lx Ux].
  pose proof (digits2_pos_bounds my) as [Ly Uy].
  assert (P53 : forall p, Zpos (digits2_pos p) <= 53 -> Zpos p < 2 ^ 53).
  { intros p Hp. pose proof (digits2_pos_bounds p) as [_ U].
    eapply Z.lt_le_trans; [exact U|]. apply Z.pow_le_mono_r; lia. }
  assert (Big : forall a b d : Z, 2 ^ 52 <= a -> b < 2 ^ 53 -> 1 <= d ->
                  b * 2 ^ 0 < a * 2 ^ d).
  { intros a b d Ha Hb Hd. rewrite Z.pow_0_r, Z.mul_1_r.
    assert (2 ^ 1 <= 2 ^ d) by (apply Z.pow_le_mono_r; lia).
    change (2 ^ 1) with 2 in *. change (2 ^ 53) with (2 ^ 52 * 2) in Hb.
    nia. }
  revert L. unfold SFltb, SFcompare.
  change (Pos.compare_cont Eq) with Pos.compare.
  destruct sx, sy; cbv [cond_Zopp]; try discriminate; intros L.
  - (* both negative *)
    destruct (Z.compare_spec ex ey) as [E|E|E]; try discriminate.
    + subst ey. rewrite Z.min_id, Z.sub_diag, Z.pow_0_r.
      destruct (Pos.compare_spec mx my); simpl in L; try discriminate; lia.
    + rewrite Z.min_l by lia. rewrite Z.sub_diag.
      assert (Zpos (digits2_pos my) = 53) by lia.
      pose proof (Big (Zpos my) (Zpos mx) (ey - ex)) as B.
      replace (53 - 1) with 52 in * by lia.
      assert (2 ^ 52 <= Zpos my) by (rewrite H in Ly; exact Ly).
      specialize (B H0 (P53 _ Dx) ltac:(lia)). lia.
  - pose proof (Z.pow_pos_nonneg 2 (ex - Z.min ex ey)).
    pose proof (Z.pow_pos_nonneg 2 (ey - Z.min ex ey)). nia.
  - destruct (Z.compare_spec ex ey) as [E|E|E]; try discriminate.
    + subst ey. rewrite Z.min_id, Z.sub_diag, Z.pow_0_r.
      destruct (Pos.compare_spec mx my); simpl in L; try discriminate; lia.
    + rewrite Z.min_r by lia. rewrite Z.sub_diag.
      assert (Zpos (digits2_pos mx) = 53) by lia.
      pose proof (Big (Zpos mx) (Zpos my) (ex - ey)) as B.
      assert (2 ^ 52 <= Zpos mx) by (rewrite H in Lx; exact Lx).
      specialize (B H0 (P53 _ Dy) ltac:(lia)). lia.
Qed.

Lemma SFsub_nonneg (x y : spec_float) :
  valid_binary x = true -> valid_binary y = true ->
  sf_finite x = true -> sf_finite y = true ->
  SFltb x y = false ->
  SFleb (S754_zero false) (SF64sub x y) = true.
Proof.
  intros Vx Vy Fx Fy L.
  destruct x as [sx|sx| |sx mx ex], y as [sy|sy| |sy my ey];
    try discriminate.
  - destruct sx, sy; reflexivity.
  - destruct sy; [reflexivity|discriminate].
  - destruct sx; [discriminate|reflexivity].
  - unfold SF64sub, SFsub. apply has_sign_nonneg, binary_normalize_sign.
    now apply aligned_diff_nonneg.
Qed.

(** *** Magnitude of rounded results *)

Lemma below_finite (B : Z) (x : spec_float) : below B x -> sf_finite x = true.
Proof. destruct x; simpl; intros H; now try contradiction. Qed.

Lemma below_mono (B B' : Z) (x : spec_float) :
  B <= B' -> below B x -> below B' x.
Proof. destruct x; simpl; intros; lia || assumption. Qed.

(** A number of at least [k] digits is at least [2^(k-1)], and back. *)
Lemma Zdigits2_ge (m k : Z) : 2 ^ (k - 1) <= m -> 0 < m -> k <= Zdigits2 m.
Proof.
  intros H Hm. pose proof (Zdigits2_lt m ltac:(lia)) as U.
  pose proof (Zdigits2_nonneg m).
  destruct (Z_le_gt_dec k (Zdigits2 m)) as [L|G]; [assumption|].
  assert (2 ^ Zdigits2 m <= 2 ^ (k - 1)) by (apply Z.pow_le_mono_r; lia).
  lia.
Qed.

Lemma Zdigits2_div_pow2 (m n : Z) :
  0 <= m -> 0 <= n -> Zdigits2 (m / 2 ^ n) <= Z.max 0 (Zdigits2 m - n).
Proof.
  intros Hm Hn. pose proof (Zdigits2_lt m Hm) as U.
  pose proof (Zdigits2_nonneg m) as D.
  assert (P : 0 < 2 ^ n) by (apply Z.pow_pos_nonneg; lia).
  apply Zdigits2_le; [lia|]. split; [apply Z.div_pos; lia|].
  destruct (Z_le_gt_dec n (Zdigits2 m)) as [L|G].
  - rewrite Z.max_r by lia. apply Z.div_lt_upper_bound; [lia|].
    rewrite <- Z.pow_add_r by lia.
    replace (n + (Zdigits2 m - n)) with (Zdigits2 m) by lia. exact U.
  - rewrite Z.max_l by lia. rewrite Z.div_small; [simpl; lia|].
    split; [lia|]. eapply Z.lt_le_trans; [exact U|].
    apply Z.pow_le_mono_r; lia.
Qed.

Lemma Zdigits2_div_pow2_ge (m n : Z) :
  0 < m -> 0 <= n -> n <= Zdigits2 m - 1 ->
  0 < m / 2 ^ n /\ Zdigits2 m - n <= Zdigits2 (m / 2 ^ n).
Proof.
  intros Hm Hn Hd.
  assert (P : 0 < 2 ^ n) by (apply Z.pow_pos_nonneg; lia).
  assert (Lo : 2 ^ (Zdigits2 m - 1) <= m).
  { destruct m as [|p|p]; try lia. apply digits2_pos_bounds. }
  assert (Q : 2 ^ (Zdigits2 m - 1 - n) <= m / 2 ^ n).
  { apply Z.div_le_lower_bound; [lia|].
    rewrite <- Z.pow_add_r by lia.
    replace (n + (Zdigits2 m - 1 - n)) with (Zdigits2 m - 1) by lia.
    exact Lo. }
  assert (0 < 2 ^ (Zdigits2 m - 1 - n)) by (apply Z.pow_pos_nonneg; lia).
  split; [lia|]. apply Zdigits2_ge; [|lia].
  replace (Zdigits2 m - n - 1) with (Zdigits2 m - 1 - n) by lia. exact Q.
Qed.

Lemma shr_fexp_below (m e : Z) (l : location) (B : Z) :
  0 <= m -> Zdigits2 m + e <= B -> -1074 <= B ->
  0 <= shr_m (fst (shr_fexp prec emax m e l)) /\
  Zdigits2 (shr_m (fst (shr_fexp prec emax m e l)))
    + snd (shr_fexp prec emax m e l) <= B.
Proof.
  intros Hm HB Hmin.
  destruct (shr_fexp_value m e l Hm) as [V E]. rewrite V, E.
  set (n := Z.max 0 (fexp prec emax (Zdigits2 m + e) - e)) in *.
  assert (Hn : 0 <= n) by (subst n; lia).
  assert (P : 0 < 2 ^ n) by (apply Z.pow_pos_nonneg; lia).
  split; [apply Z.div_pos; lia|].
  pose proof (Zdigits2_div_pow2 m n Hm Hn) as D.
  pose proof (Zdigits2_nonneg m).
  assert (e + n <= B)
    by (subst n; unfold fexp, emin, prec, emax; lia).
  lia.
Qed.

Lemma shr_fexp_above (m e : Z) (l : location) (L : Z) :
  0 < m -> L <= Zdigits2 m + e -> -1073 <= L ->
  0 < shr_m (fst (shr_fexp prec emax m e l)) /\
  L <= Zdigits2 (shr_m (fst (shr_fexp prec emax m e l)))
         + snd (shr_fexp prec emax m e l).
Proof.
  intros Hm HL Hmin.
  destruct (shr_fexp_value m e l ltac:(lia)) as [V E]. rewrite V, E.
  set (n := Z.max 0 (fexp prec emax (Zdigits2 m + e) - e)) in *.
  assert (Hn : 0 <= n) by (subst n; lia).
  assert (Hd : n <= Zdigits2 m - 1).
  { pose proof (Zdigits2_ge m 1 ltac:(simpl; lia) Hm).
    subst n; unfold fexp, emin, prec, emax; lia. }
  destruct (Zdigits2_div_pow2_ge m n Hm Hn Hd) as [Q1 Q2]. lia.
Qed.

(** Rounding a mantissa of magnitude under [2^B] stays finite, under
    [2^(B+1)]. *)
Lemma binary_round_aux_below (s : bool) (m e : Z) (l : location) (B : Z) :
  0 <= m -> Zdigits2 m + e <= B -> -1074 <= B <= 971 ->
  below (B + 1) (binary_round_aux prec emax s m e l).
Proof.
  intros Hm HB HR. unfold binary_round_aux.
  destruct (shr_fexp_below m e l B Hm HB ltac:(lia)) as [P1 B1].
  destruct (shr_fexp prec emax m e l) as [mrs' e']. simpl in P1, B1.
  set (m1 := round_nearest_even (shr_m mrs') (loc_of_shr_record mrs')).
  pose proof (round_nearest_even_range (shr_m mrs') (loc_of_shr_record mrs'))
    as R. fold m1 in R.
  assert (D1 : Zdigits2 m1 <= Zdigits2 (shr_m mrs') + 1).
  { pose proof (Zdigits2_lt _ P1). pose proof (Zdigits2_nonneg (shr_m mrs')).
    apply Zdigits2_le; [lia|]. rewrite Z.pow_add_r, Z.pow_1_r by lia. lia. }
  destruct (shr_fexp_below m1 e' loc_Exact (B + 1)
              ltac:(lia) ltac:(lia) ltac:(lia)) as [P2 B2].
  destruct (shr_fexp prec emax m1 e' loc_Exact) as [mrs'' e''].
  simpl in P2, B2.
  destruct (shr_m mrs'') as [|p|p]; [exact I| |lia].
  change (Zdigits2 (Zpos p)) with (Zpos (digits2_pos p)) in B2.
  assert (H : e'' <= emax - prec) by (unfold emax, prec; lia).
  apply Z.leb_le in H. cbv beta iota. rewrite H. exact B2.
Qed.

(** Rounding a mantissa of magnitude at least [2^(L-1)] gives no zero. *)
Lemma binary_round_aux_above (s : bool) (m e : Z) (l : location) (L : Z) :
  0 < m -> L <= Zdigits2 m + e -> -1073 <= L ->
  above L (binary_round_aux prec emax s m e l).
Proof.
  intros Hm HL HR. unfold binary_round_aux.
  destruct (shr_fexp_above m e l L Hm HL HR) as [P1 B1].
  destruct (shr_fexp prec emax m e l) as [mrs' e']. simpl in P1, B1.
  set (m1 := round_nearest_even (shr_m mrs') (loc_of_shr_record mrs')).
  pose proof (round_nearest_even_range (shr_m mrs') (loc_of_shr_record mrs'))
    as R. fold m1 in R.
  assert (D1 : Zdigits2 (shr_m mrs') <= Zdigits2 m1).
  { apply Zdigits2_ge; [|lia].
    assert (2 ^ (Zdigits2 (shr_m mrs') - 1) <= shr_m mrs').
    { destruct (shr_m mrs') as [|p|p]; try lia. apply digits2_pos_bounds. }
    lia. }
  destruct (shr_fexp_above m1 e' loc_Exact L
              ltac:(lia) ltac:(lia) ltac:(lia)) as [P2 B2].
  destruct (shr_fexp prec emax m1 e' loc_Exact) as [mrs'' e''].
  simpl in P2, B2.
  destruct (shr_m mrs'') as [|p|p]; try lia.
  change (Zdigits2 (Zpos p)) with (Zpos (digits2_pos p)) in B2.
  cbv beta iota. destruct (e'' <=? emax - prec); [exact B2|exact I].
Qed.

Lemma shl_align_exp (m : positive) (e e' : Z) :
  snd (shl_align m e e') = Z.min e e'.
Proof. unfold shl_align. destruct (e' - e) eqn:E; simpl; lia. Qed.

Lemma digits2_pos_Zdigits2 (p : positive) :
  Zpos (digits2_pos p) = Zdigits2 (Zpos p).
Proof. reflexivity. Qed.

(** Aligning to a smaller exponent keeps the magnitude. *)
Lemma shl_align_digits (m : positive) (e e' : Z) :
  Zdigits2 (Zpos (fst (shl_align m e e'))) + snd (shl_align m e e')
  = Zpos (digits2_pos m) + e.
Proof.
  rewrite shl_align_exp.
  destruct (Z_le_gt_dec e e') as [L|G].
  - unfold shl_align. destruct (e' - e) eqn:E; cbn [fst Zdigits2]; lia.
  - pose proof (shl_align_value m e e' ltac:(lia)) as V.
    pose proof (digits2_pos_bounds m) as [Lo Hi].
    assert (P : 0 < 2 ^ (e - e')) by (apply Z.pow_pos_nonneg; lia).
    assert (Zdigits2 (Zpos (fst (shl_align m e e')))
            = Zpos (digits2_pos m) + (e - e')); [|lia].
    apply Z.le_antisymm.
    + apply Zdigits2_le; [lia|]. rewrite V, Z.pow_add_r by lia. nia.
    + apply Zdigits2_ge; [|lia]. rewrite V.
      replace (Zpos (digits2_pos m) + (e - e') - 1)
        with (Zpos (digits2_pos m) - 1 + (e - e')) by lia.
      rewrite Z.pow_add_r by lia. nia.
Qed.

(** The conversion of an int. *)
Lemma binary_normalize_below (z : Z) (B : Z) :
  0 <= z < 2 ^ B -> 0 <= B <= 971 ->
  below (B + 1) (binary_normalize prec emax z 0 false).
Proof.
  intros [Hz HB] HR. destruct z as [|p|p]; [exact I| |lia].
  unfold binary_normalize, binary_round.
  pose proof (shl_align_digits p 0 (fexp prec emax (Zpos (digits2_pos p) + 0)))
    as A.
  destruct (shl_align p 0 _) as [mz ez]. cbn [fst snd] in A.
  apply binary_round_aux_below; [lia| |lia].
  rewrite A. pose proof (Zdigits2_le (Zpos p) B ltac:(lia) ltac:(lia)) as H.
  cbn [Zdigits2] in H. lia.
Qed.

Lemma binary_normalize_above (z : Z) :
  1 <= z -> above 1 (binary_normalize prec emax z 0 false).
Proof.
  intros Hz. destruct z as [|p|p]; try lia.
  unfold binary_normalize, binary_round.
  pose proof (shl_align_digits p 0 (fexp prec emax (Zpos (digits2_pos p) + 0)))
    as A.
  destruct (shl_align p 0 _) as [mz ez]. cbn [fst snd] in A.
  apply binary_round_aux_above; [lia| |lia].
  rewrite A. lia.
Qed.

(** Product and quotient *)
Lemma SFmul_below (x y : spec_float) (Bx By : Z) :
  below Bx x -> below By y -> -1074 <= Bx + By <= 971 ->
  below (Bx + By + 1) (SF64mul x y).
Proof.
  destruct x as [sx|sx| |sx mx ex], y as [sy|sy| |sy my ey];
    cbn [below SF64mul SFmul];
    try contradiction; try (intros; exact I).
  intros Hx Hy HR. apply binary_round_aux_below; [lia| |lia].
  pose proof (digits2_pos_bounds mx) as [_ Ux].
  pose proof (digits2_pos_bounds my) as [_ Uy].
  assert (Zdigits2 (Zpos (mx * my))
          <= Zpos (digits2_pos mx) + Zpos (digits2_pos my)); [|lia].
  apply Zdigits2_le; [lia|]. rewrite Z.pow_add_r, Pos2Z.inj_mul by lia. nia.
Qed.

Lemma SFdiv_below (x y : spec_float) (Bx Ly : Z) :
  below Bx x -> above Ly y -> sf_finite y = true ->
  -1074 <= Bx - Ly + 1 <= 971 ->
  below (Bx - Ly + 2) (SF64div x y).
Proof.
  destruct x as [sx|sx| |sx mx ex], y as [sy|sy| |sy my ey];
    cbn [below above sf_finite SF64div SFdiv];
    try contradiction; try discriminate; try (intros; exact I).
  intros Hx Hy _ HR. unfold SFdiv_core_binary.
  set (d1 := Zdigits2 (Zpos mx)). set (d2 := Zdigits2 (Zpos my)).
  set (e' := Z.min (fexp prec emax (d1 + ex - (d2 + ey))) (ex - ey)).
  set (s := ex - ey - e').
  assert (Hs : 0 <= s) by (subst s e'; lia).
  set (m' := match s with
             | 0 => Zpos mx
             | Zpos _ => Z.shiftl (Zpos mx) s
             | Zneg _ => 0
             end).
  assert (Hm' : m' = Zpos mx * 2 ^ s).
  { subst m'. destruct s as [|p|p] eqn:E; try lia.
    apply Z.shiftl_mul_pow2. lia. }
  pose proof (Z_div_mod m' (Zpos my) ltac:(lia)) as DM.
  pose proof (Z.div_eucl_eq m' (Zpos my) ltac:(lia)) as _.
  assert (Q : fst (Z.div_eucl m' (Zpos my)) = m' / Zpos my) by reflexivity.
  destruct (Z.div_eucl m' (Zpos my)) as [q r]. simpl in Q. subst q.
  replace (Bx - Ly + 2) with (Bx - Ly + 1 + 1) by lia.
  pose proof (digits2_pos_bounds mx) as [_ Ux].
  pose proof (digits2_pos_bounds my) as [Lo _].
  change (Zpos (digits2_pos mx)) with d1 in Ux, Hx.
  change (Zpos (digits2_pos my)) with d2 in Lo, Hy.
  assert (P : 0 < 2 ^ s) by (apply Z.pow_pos_nonneg; lia).
  assert (D2 : 1 <= d2) by (subst d2; simpl; lia).
  assert (D1 : 1 <= d1) by (subst d1; simpl; lia).
  assert (Pd : 0 < 2 ^ (d2 - 1)) by (apply Z.pow_pos_nonneg; lia).
  apply binary_round_aux_below; [apply Z.div_pos; lia| |lia].
  assert (Dq : Zdigits2 (m' / Zpos my) <= Z.max 0 (d1 + s - d2 + 1)).
  { apply Zdigits2_le; [lia|]. split; [apply Z.div_pos; lia|].
    assert (Um : m' < 2 ^ (d1 + s)) by (rewrite Hm', Z.pow_add_r by lia; nia).
    destruct (Z_le_gt_dec 0 (d1 + s - d2 + 1)) as [G|G].
    - rewrite Z.max_r by lia. apply Z.div_lt_upper_bound; [lia|].
      assert (E : 2 ^ (d1 + s) = 2 ^ (d2 - 1) * 2 ^ (d1 + s - d2 + 1))
        by (rewrite <- Z.pow_add_r by lia; f_equal; lia).
      assert (0 < 2 ^ (d1 + s - d2 + 1)) by (apply Z.pow_pos_nonneg; lia).
      nia.
    - rewrite Z.max_l by lia. rewrite Z.div_small; [simpl; lia|].
      split; [lia|]. eapply Z.lt_le_trans; [exact Um|].
      eapply Z.le_trans; [|exact Lo]. apply Z.pow_le_mono_r; lia. }
  assert (e' <= Bx - Ly + 1)
    by (subst e'; unfold fexp, emin, prec, emax; lia).
  subst s. lia.
Qed.

#[local] Open Scope float_scope.

Lemma ltb_cmp (x y : float) : (x <? y) = true <-> cmp x y = Some Lt.
Proof.
  rewrite ltb_spec. unfold SFltb, cmp.
  destruct (SFcompare _ _) as [[]|]; split; congruence.
Qed.

Lemma leb_cmp (x y : float) :
  (x <=? y) = true <-> cmp x y = Some Lt \/ cmp x y = Some Eq.
Proof.
  rewrite leb_spec. unfold SFleb, cmp.
  destruct (SFcompare _ _) as [[]|]; split; intros H; auto;
    try discriminate; destruct H; discriminate.
Qed.

Lemma cmp_antisym (x y : float) : cmp y x = option_map CompOpp (cmp x y).
Proof. apply SFcompare_antisym. Qed.

Lemma is_nan_spec (x : float) : is_nan x = sf_nan (Prim2SF x).
Proof.
  unfold is_nan. rewrite eqb_spec. unfold SFeqb.
  destruct (Prim2SF x) as [s|s| |s m e] eqn:E; simpl; try destruct s;
    try reflexivity.
  all: change (Pos.compare_cont Eq) with Pos.compare;
    rewrite Z.compare_refl, Pos.compare_refl; reflexivity.
Qed.

Lemma is_finite_spec (x : float) : is_finite x = sf_finite (Prim2SF x).
Proof.
  unfold is_finite, is_infinity. rewrite is_nan_spec, eqb_spec, abs_spec.
  change (Prim2SF infinity) with (S754_infinity false).
  destruct (Prim2SF x) as [s|s| |s m e]; reflexivity.
Qed.

Lemma finite_not_nan (x : float) : is_finite x = true -> is_nan x = false.
Proof.
  rewrite is_finite_spec, is_nan_spec. destruct (Prim2SF x); easy.
Qed.

Lemma cmp_some (x y : float) :
  is_nan x = false -> is_nan y = false -> exists c, cmp x y = Some c.
Proof.
  rewrite !is_nan_spec. unfold cmp. intros Hx Hy.
  destruct (SFcompare (Prim2SF x) (Prim2SF y)) as [c|] eqn:E; eauto.
  apply SFcompare_nan in E. destruct E; congruence.
Qed.

Lemma ltb_not_nan (x y : float) :
  (x <? y) = true -> is_nan x = false /\ is_nan y = false.
Proof.
  rewrite ltb_cmp, !is_nan_spec. unfold cmp. intros H.
  destruct (sf_nan (Prim2SF x)) eqn:Ex, (sf_nan (Prim2SF y)) eqn:Ey; auto;
    assert (N : SFcompare (Prim2SF x) (Prim2SF y) = None)
      by (apply SFcompare_nan; auto); congruence.
Qed.

Lemma leb_not_nan (x y : float) :
  (x <=? y) = true -> is_nan x = false /\ is_nan y = false.
Proof.
  rewrite leb_cmp, !is_nan_spec. unfold cmp. intros H.
  destruct (sf_nan (Prim2SF x)) eqn:Ex, (sf_nan (Prim2SF y)) eqn:Ey; auto;
    assert (N : SFcompare (Prim2SF x) (Prim2SF y) = None)
      by (apply SFcompare_nan; auto); destruct H; congruence.
Qed.

Lemma ltb_leb (x y : float) : (x <? y) = true -> (x <=? y) = true.
Proof. rewrite ltb_cmp, leb_cmp. auto. Qed.

Lemma leb_refl (x : float) : is_nan x = false -> (x <=? x) = true.
Proof.
  rewrite is_nan_spec, leb_cmp. intros H. right. now apply SFcompare_refl.
Qed.

(** On numbers that are not NaN the order is total. *)
Lemma nlt_leb (x y : float) :
  is_nan x = false -> is_nan y = false ->
  (x <? y) = false -> (y <=? x) = true.
Proof.
  intros Hx Hy H. destruct (cmp_some x y Hx Hy) as [c E].
  apply leb_cmp. rewrite cmp_antisym, E.
  destruct c; simpl; auto.
  apply ltb_cmp in E. congruence.
Qed.

Lemma leb_nlt (x y : float) : (x <=? y) = true -> (y <? x) = false.
Proof.
  rewrite leb_cmp. intros H.
  destruct (y <? x) eqn:E; [|reflexivity].
  apply ltb_cmp in E. rewrite cmp_antisym in E.
  destruct H as [H|H]; rewrite H in E; discriminate.
Qed.

Lemma ltb_leb_trans (x y z : float) :
  (x <? y) = true -> (y <=? z) = true -> (x <? z) = true.
Proof. rewrite !ltb_cmp, leb_cmp. apply SFcompare_lt_le_trans. Qed.

Lemma ltb_irrefl (x : float) : (x <? x) = false.
Proof.
  destruct (x <? x) eqn:E; [|reflexivity].
  pose proof (ltb_not_nan _ _ E) as [N _].
  apply ltb_cmp in E. unfold cmp in E.
  rewrite SFcompare_refl in E by (now rewrite <- is_nan_spec).
  discriminate.
Qed.

(** [min(max(lo, v), hi)] lies between [lo] and [hi], whatever [v] is. *)
Lemma clamp_range (lo hi v : float) :
  (lo <=? hi) = true ->
  (lo <=? min2 (max2 lo v) hi) = true /\ (min2 (max2 lo v) hi <=? hi) = true.
Proof.
  intros H. destruct (leb_not_nan _ _ H) as [Nlo Nhi].
  unfold max2, min2. destruct (lo <? v) eqn:E1.
  - destruct (ltb_not_nan _ _ E1) as [_ Nv].
    destruct (hi <? v) eqn:E2.
    + split; [assumption | now apply leb_refl].
    + split; [now apply ltb_leb | now apply nlt_leb].
  - rewrite (leb_nlt _ _ H). split; [now apply leb_refl | assumption].
Qed.

(** [min] over a collection without NaN returns an element below all. *)
Lemma fold_min2_spec (rest : list float) (v : float) :
  (forall e, In e (v :: rest) -> is_nan e = false) ->
  In (fold_left min2 rest v) (v :: rest) /\
  forall e, In e (v :: rest) -> (e <? fold_left min2 rest v) = false.
Proof.
  revert v. induction rest as [|a rest IH]; intros v N; simpl.
  - split; [auto|]. intros e [<-|[]]. apply ltb_irrefl.
  - assert (Nm : forall e, In e (min2 v a :: rest) -> is_nan e = false).
    { intros e [<-|H]; [|apply N; simpl; auto].
      unfold min2. destruct (a <? v); apply N; simpl; auto. }
    destruct (IH _ Nm) as [Hin Hle]. split.
    + destruct Hin as [Hin|Hin]; [|auto].
      rewrite <- Hin. unfold min2. destruct (a <? v); auto.
    + assert (Hm : (min2 v a <? fold_left min2 rest (min2 v a)) = false)
        by (apply Hle; simpl; auto).
      assert (Step : forall e, (e <? min2 v a) = false ->
                (e <? fold_left min2 rest (min2 v a)) = false).
      { intros e He.
        destruct (e <? fold_left min2 rest (min2 v a)) eqn:E; [|reflexivity].
        destruct (ltb_not_nan _ _ E) as [Ne Nr].
        assert (Nmin : is_nan (min2 v a) = false) by (apply Nm; simpl; auto).
        pose proof (nlt_leb _ _ Nmin Nr Hm) as L2.
        rewrite (ltb_leb_trans _ _ _ E L2) in He. discriminate. }
      intros e [<-|[<-|H]].
      * apply Step. unfold min2. destruct (a <? v) eqn:E.
        -- apply leb_nlt. now apply ltb_leb.
        -- apply ltb_irrefl.
      * apply Step. unfold min2. destruct (a <? v) eqn:E.
        -- apply ltb_irrefl.
        -- assumption.
      * apply Hle. simpl. auto.
Qed.

Lemma sub_diag (x : float) : is_finite x = true -> x - x = 0.
Proof.
  rewrite is_finite_spec. intros F. apply Prim2SF_inj.
  rewrite sub_spec, SFsub_diag by assumption. reflexivity.
Qed.

(** Subtracting a number from a larger one gives no negative number. *)
Lemma sub_nonneg (x y : float) :
  is_finite x = true -> is_finite y = true ->
  (x <? y) = false -> (0 <=? x - y) = true.
Proof.
  rewrite !is_finite_spec, ltb_spec, leb_spec, sub_spec.
  intros Fx Fy L. change (Prim2SF 0) with (S754_zero false).
  apply SFsub_nonneg; auto using Prim2SF_valid.
Qed.

(** *** Conversions and the operations of the circular layout *)

Lemma below_is_finite (B : Z) (x : float) :
  below B (Prim2SF x) -> is_finite x = true.
Proof. rewrite is_finite_spec. apply below_finite. Qed.

(** An int that fits a machine word converts without overflow. *)
Lemma float_of_int_small (z : Z) :
  0 <= z < 2 ^ 63 ->
  exists f, Num.float_of_int z = Ok f /\
            Prim2SF f = binary_normalize prec emax z 0 false.
Proof.
  intros Hz. unfold Num.float_of_int.
  pose proof (binary_normalize_below z 63 Hz ltac:(lia)) as Hb.
  assert (V : valid_binary (binary_normalize prec emax z 0 false) = true).
  { rewrite <- (Z.mod_small z Uint63.wB) by exact Hz.
    rewrite <- Uint63.of_Z_spec, <- of_uint63_spec. apply Prim2SF_valid. }
  destruct (binary_normalize prec emax z 0 false) as [s|s| |s m e] eqn:E;
    try contradiction; eexists; (split; [reflexivity|]);
    now apply Prim2SF_SF2Prim.
Qed.

Lemma angle_finite (k n : Z) :
  0 <= k < 2 ^ 63 -> n < 2 ^ 63 ->
  exists theta, angle k n = Ok theta /\ is_finite theta = true.
Proof.
  intros Hk Hn. unfold angle.
  destruct (float_of_int_small k Hk) as (fk & Ek & Sk).
  destruct (float_of_int_small (Z.max 1 n) ltac:(lia)) as (fn & En & Sn).
  rewrite Ek, En. simpl. eexists; split; [reflexivity|].
  apply (below_is_finite 69). rewrite div_spec, mul_spec.
  apply (SFdiv_below _ _ 68 1).
  - apply (SFmul_below _ _ 3 64); [now cbv| |lia].
    rewrite Sk. apply (binary_normalize_below k 63); lia.
  - rewrite Sn. apply binary_normalize_above. lia.
  - rewrite Sn. eapply below_finite.
    apply (binary_normalize_below _ 63); lia.
  - lia.
Qed.

(** A number between [-1] and [1] *)
Lemma abs_le_1_below (c : float) :
  (abs c <=? 1) = true -> below 1 (Prim2SF c).
Proof.
  rewrite leb_spec, abs_spec. pose proof (Prim2SF_valid c) as V.
  change (Prim2SF 1) with (S754_finite false 4503599627370496 (-52)).
  destruct (Prim2SF c) as [s|s| |s m e]; cbn [SFabs below];
    try discriminate; [trivial|].
  apply valid_finite in V. destruct V as (D & _ & _).
  unfold SFleb, SFcompare.
  destruct (Z.compare_spec e (-52)); try discriminate; lia.
Qed.

Lemma mul_100_finite (c : float) :
  (abs c <=? 1) = true -> is_finite (100 * c) = true.
Proof.
  intros H. apply (below_is_finite 9). rewrite mul_spec.
  apply (SFmul_below _ _ 7 1); [now cbv|now apply abs_le_1_below|lia].
Qed.

Lemma leb_nlt_eqb (x y : float) :
  (x <=? y) = true -> (x <? y) = false -> (y =? x) = true.
Proof.
  rewrite leb_cmp. intros [H|H] N.
  - apply ltb_cmp in H. congruence.
  - rewrite eqb_spec. unfold SFeqb. fold (cmp y x).
    rewrite cmp_antisym, H. reflexivity.
Qed.

End B64.

(** * General facts on the run-time pieces *)

Lemma for_each_app {A S} (body : S -> A -> result S) (l1 l2 : list A) (acc : S) :
  for_each body (l1 ++ l2) acc = rbind (for_each body l1 acc) (for_each body l2).
Proof.
  revert acc. induction l1 as [|a l1 IH]; intros acc; simpl; [reflexivity|].
  destruct (body acc a); simpl; auto.
Qed.

(** A loop whose turns all succeed is a fold. *)
Lemma for_each_ok {A S} (body : S -> A -> result S) (step : S -> A -> S)
  (l : list A) (acc : S) :
  (forall s a, In a l -> body s a = Ok (step s a)) ->
  for_each body l acc = Ok (fold_left step l acc).
Proof.
  revert acc. induction l as [|a l IH]; intros acc H; simpl; [reflexivity|].
  rewrite H by (simpl; auto). simpl. apply IH. intros; apply H; simpl; auto.
Qed.

Lemma append_assoc (a b c : str) :
  ((a ++ b) ++ c = a ++ (b ++ c))%str.
Proof. unfold Str.cat. symmetry. apply app_assoc. Qed.

(** A loop whose turns all leave the state alone does so too. *)
Lemma for_each_skip {A S} (body : S -> A -> result S) (l : list A) (acc : S) :
  (forall s a, In a l -> body s a = Ok s) -> for_each body l acc = Ok acc.
Proof.
  induction l as [|a l IH]; intros H; simpl; [reflexivity|].
  rewrite H by (simpl; auto). simpl. apply IH. intros; apply H; simpl; auto.
Qed.

(** *** Dictionaries *)

Lemma dict_get_set_same {V} (k : Z) (v : V) (d : dict V) :
  dict_get k (dict_set k v d) = Some v.
Proof.
  induction d as [|[k' v'] d IH]; simpl.
  - now rewrite Z.eqb_refl.
  - destruct (k' =? k) eqn:E; simpl; rewrite E; auto.
Qed.

Lemma dict_get_set_other {V} (k k0 : Z) (v : V) (d : dict V) :
  k0 <> k -> dict_get k0 (dict_set k v d) = dict_get k0 d.
Proof.
  intros N. induction d as [|[k' v'] d IH]; simpl.
  - destruct (k =? k0) eqn:E; [apply Z.eqb_eq in E; congruence|reflexivity].
  - destruct (k' =? k) eqn:E; simpl.
    + apply Z.eqb_eq in E. subst k'.
      destruct (k =? k0) eqn:E'; [apply Z.eqb_eq in E'; congruence|reflexivity].
    + destruct (k' =? k0); auto.
Qed.

Lemma dict_get_In {V} (k : Z) (v : V) (d : dict V) :
  dict_get k d = Some v -> In (k, v) d.
Proof.
  induction d as [|[k' v'] d IH]; simpl; [discriminate|].
  destruct (k' =? k) eqn:E.
  - apply Z.eqb_eq in E. intros [= ->]. subst. auto.
  - auto.
Qed.

Lemma dict_get_None {V} (k : Z) (d : dict V) :
  dict_get k d = None <-> ~ In k (dict_keys d).
Proof.
  induction d as [|[k' v'] d IH]; simpl; [tauto|].
  destruct (k' =? k) eqn:E.
  - apply Z.eqb_eq in E. split; [discriminate|]. intros N. exfalso. auto.
  - apply Z.eqb_neq in E. rewrite IH. tauto.
Qed.

Lemma In_dict_get {V} (k : Z) (v : V) (d : dict V) :
  NoDup (dict_keys d) -> In (k, v) d -> dict_get k d = Some v.
Proof.
  induction d as [|[k' v'] d IH]; simpl; [tauto|].
  intros N [H|H].
  - injection H as -> ->. now rewrite Z.eqb_refl.
  - inversion N as [|? ? Hn Hd]; subst.
    destruct (k' =? k) eqn:E; [|auto].
    apply Z.eqb_eq in E. subst k'. exfalso. apply Hn.
    change k with (fst (k, v)). now apply in_map.
Qed.

(** Setting a key that is there keeps the keys; a new key goes last. *)
Lemma dict_keys_set {V} (k : Z) (v : V) (d : dict V) :
  dict_keys (dict_set k v d) =
  if in_dec Z.eq_dec k (dict_keys d) then dict_keys d else dict_keys d ++ [k].
Proof.
  induction d as [|[k' v'] d IH]; simpl; [reflexivity|].
  destruct (k' =? k) eqn:E; simpl.
  - apply Z.eqb_eq in E. subst.
    destruct (Z.eq_dec k k); [|congruence].
    destruct (in_dec Z.eq_dec k (dict_keys d)); reflexivity.
  - apply Z.eqb_neq in E. rewrite IH.
    destruct (Z.eq_dec k' k); [congruence|].
    destruct (in_dec Z.eq_dec k (dict_keys d)); reflexivity.
Qed.

Lemma dict_set_new {V} (k : Z) (v : V) (d : dict V) :
  ~ In k (dict_keys d) -> dict_set k v d = d ++ [(k, v)].
Proof.
  induction d as [|[k' v'] d IH]; simpl; intros N; [reflexivity|].
  destruct (k' =? k) eqn:E.
  - apply Z.eqb_eq in E. tauto.
  - rewrite IH by tauto. reflexivity.
Qed.

Lemma dict_set_NoDup {V} (k : Z) (v : V) (d : dict V) :
  NoDup (dict_keys d) -> NoDup (dict_keys (dict_set k v d)).
Proof.
  intros N. rewrite dict_keys_set.
  destruct (in_dec Z.eq_dec k (dict_keys d)) as [I|I]; [assumption|].
  apply NoDup_app; [assumption|repeat constructor; auto|].
  intros x Hx [<-|[]]. contradiction.
Qed.

Lemma dict_set_In {V} (k k0 : Z) (v v0 : V) (d : dict V) :
  In (k0, v0) (dict_set k v d) -> (k0 = k /\ v0 = v) \/ In (k0, v0) d.
Proof.
  induction d as [|[k' v'] d IH]; simpl.
  - intros [[= <- <-]|[]]. auto.
  - destruct (k' =? k) eqn:E; simpl.
    + apply Z.eqb_eq in E. subst. intros [[= <- <-]|H]; auto.
    + intros [H|H]; [auto|]. destruct (IH H); auto.
Qed.

(** The inverse of a dictionary maps values back to their keys. *)
Lemma dict_invert_get (d : dict Z) (cnt bus : Z) :
  dict_get cnt (dict_invert d) = Some bus -> In (bus, cnt) d.
Proof.
  unfold dict_invert.
  assert (G : forall acc,
    dict_get cnt (fold_left (fun a kv => dict_set (snd kv) (fst kv) a) d acc)
      = Some bus ->
    In (bus, cnt) d \/ dict_get cnt acc = Some bus).
  { induction d as [|[k v] d IH]; intros acc; simpl; [auto|].
    intros H. destruct (IH _ H) as [H1|H1]; [auto|].
    destruct (Z.eq_dec cnt v) as [->|N].
    - rewrite dict_get_set_same in H1. injection H1 as ->. auto.
    - rewrite dict_get_set_other in H1 by assumption. auto. }
  intros H. destruct (G [] H) as [H1|H1]; [assumption|discriminate].
Qed.

Lemma dict_invert_keys (d : dict Z) (cnt : Z) :
  In cnt (dict_values d) -> dict_get cnt (dict_invert d) <> None.
Proof.
  unfold dict_invert.
  assert (G : forall acc,
    In cnt (dict_values d) \/ dict_get cnt acc <> None ->
    dict_get cnt (fold_left (fun a kv => dict_set (snd kv) (fst kv) a) d acc)
      <> None).
  { induction d as [|[k v] d IH]; intros acc; simpl.
    - intros [[]|H]; assumption.
    - intros [[H|H]|H]; apply IH.
      + subst. right. rewrite dict_get_set_same. discriminate.
      + auto.
      + right. destruct (Z.eq_dec cnt v) as [->|N].
        * rewrite dict_get_set_same. discriminate.
        * now rewrite dict_get_set_other. }
  intros H. apply G. auto.
Qed.

(** *** What the parsing steps may raise *)

Lemma for_each_raises {A S} (P : exn -> Prop) (body : S -> A -> result S)
  (l : list A) (acc : S) (e : exn) :
  (forall s a e', In a l -> body s a = Raise e' -> P e') ->
  for_each body l acc = Raise e -> P e.
Proof.
  revert acc. induction l as [|a l IH]; intros acc H; simpl; [discriminate|].
  destruct (body acc a) as [s'|e'] eqn:E; simpl.
  - apply IH. intros; eapply H; simpl; eauto.
  - intros [= <-]. eapply H; simpl; eauto.
Qed.

Lemma int_of_str_raises (s : str) (e : exn) :
  Num.int_of_str s = Raise e -> e = ValueError.
Proof.
  unfold Num.int_of_str. destruct (Num.sign_of _) as [neg body].
  destruct (Num.digitpart body) as [[v c]|]; [|congruence].
  destruct (_ <? _); congruence.
Qed.

Lemma float_of_str_raises (s : str) (e : exn) :
  Num.float_of_str s = Raise e -> e = ValueError.
Proof.
  unfold Num.float_of_str. destruct (Num.sign_of _) as [neg body].
  destruct (_ || _)%bool; [discriminate|].
  destruct (Str.eqb _ _); [discriminate|].
  destruct (Num.cut _ _) as [ms es].
  destruct (Num.mantissa_of ms) as [[m cf]|]; [|congruence].
  destruct (Num.exponent_of es); congruence.
Qed.

Lemma parse_line_raises (xy : dict float * dict float) (line : str) (e : exn) :
  parse_line xy line = Raise e -> e = ValueError.
Proof.
  unfold parse_line. destruct (is_node_line _); [|discriminate].
  destruct (Num.int_of_str _) as [name|e1] eqn:E1; simpl;
    [|intros [= <-]; eauto using int_of_str_raises].
  destruct (Num.float_of_str (nth 2 _ _)) as [fx|e2] eqn:E2; simpl;
    [|intros [= <-]; eauto using float_of_str_raises].
  destruct (Num.float_of_str (nth 3 _ _)) as [fy|e3] eqn:E3; simpl;
    [discriminate|intros [= <-]; eauto using float_of_str_raises].
Qed.

Lemma parse_nodes_raises (out : str) (e : exn) :
  parse_nodes out = Raise e -> e = ValueError.
Proof.
  apply (for_each_raises (fun e => e = ValueError)).
  intros s a e' _. apply parse_line_raises.
Qed.

Lemma py_min_raises (l : list float) (e : exn) :
  py_min l = Raise e -> e = ValueError.
Proof. destruct l; simpl; congruence. Qed.

Lemma dict_getitem_raises {V} (k : Z) (d : dict V) (e : exn) :
  dict_getitem k d = Raise e -> e = KeyError.
Proof. unfold dict_getitem. destruct (dict_get k d); congruence. Qed.

Lemma place_raises (c2i : dict Z) (y : dict float) (minx miny : float)
  (coords : Coords) (item : Z * float) (e : exn) :
  place c2i y minx miny coords item = Raise e -> e = KeyError.
Proof.
  destruct item as [cnt X]. unfold place.
  destruct (dict_getitem cnt y) as [Y|e1] eqn:E1; simpl;
    [|intros [= <-]; eauto using dict_getitem_raises].
  destruct (dict_getitem cnt c2i) as [b|e2] eqn:E2; simpl;
    [discriminate|intros [= <-]; eauto using dict_getitem_raises].
Qed.

(** The strategy itself raises nothing but [ValueError] and [KeyError]:
    whatever it raises after the tool has answered is not caught by
    [_get_coords]. *)
Lemma coords_of_output_raises (c2i : dict Z) (out : str) (e : exn) :
  coords_of_output c2i out = Raise e -> e = ValueError \/ e = KeyError.
Proof.
  unfold coords_of_output.
  destruct (parse_nodes out) as [[x y]|e1] eqn:E1; simpl;
    [|intros [= <-]; left; eauto using parse_nodes_raises].
  destruct (py_min (dict_values x)) as [minx|e2] eqn:E2; simpl;
    [|intros [= <-]; left; eauto using py_min_raises].
  destruct (py_min (dict_values y)) as [miny|e3] eqn:E3; simpl;
    [|intros [= <-]; left; eauto using py_min_raises].
  intros H. right. revert H.
  apply (for_each_raises (fun e => e = KeyError)).
  intros s a e' _. apply place_raises.
Qed.

Lemma coords_of_output_not_caught (c2i : dict Z) (out : str) (e : exn) :
  coords_of_output c2i out = Raise e -> tool_failure e = false.
Proof.
  intros H. destruct (coords_of_output_raises _ _ _ H); subst; reflexivity.
Qed.

(** * The layout engine and the orchestrators *)

Section Properties.
#[local] Open Scope Z_scope.

Context {Case Solution Violations Extra : Type}.
Context (convert : Case -> result (AllData Extra)).
Context (grbmap : AllData Extra -> Coords -> result (AllData Extra)).
Context (build_solution : AllData Extra -> Solution -> result Figure).
Context (build_violations : AllData Extra -> Violations -> result Figure).
Context (sfdp : Z -> str -> result str).
Context (cos sin : float -> result float).






Lemma coords_from_sfdp_unfold (case : Case) (alldata : AllData Extra)
  (g : str) (seed : Z) (log : list event) :
  convert case = Ok alldata ->
  graph_text alldata = Ok g ->
  _coords_from_sfdp convert sfdp case seed log =
  (rbind (sfdp seed g)
         (coords_of_output (dict_invert (IDtoCountmap alldata))),
   after_sfdp g seed log).
Proof.
  intros H G. unfold _coords_from_sfdp, bind, emit, lift, run_sfdp.
  rewrite H. unfold graph_text in G.
  destruct (graph_lines alldata) as [lines|]; cbn [rbind] in G;
    [|discriminate].
  injection G as <-. unfold after_sfdp.
  destruct (sfdp seed _); reflexivity.
Qed.

(** When the graph description cannot be written, the strategy raises
    before the tool is started. *)
Lemma coords_from_sfdp_no_graph (case : Case) (alldata : AllData Extra)
  (e : exn) (seed : Z) (log : list event) :
  convert case = Ok alldata ->
  graph_text alldata = Raise e ->
  _coords_from_sfdp convert sfdp case seed log =
  (Raise e, log ++ [Enter_coords_from_sfdp]).
Proof.
  intros H G. unfold _coords_from_sfdp, bind, emit, lift, run_sfdp.
  rewrite H. unfold graph_text in G.
  destruct (graph_lines alldata) as [lines|]; cbn [rbind] in G;
    [discriminate|].
  now injection G as ->.
Qed.

Lemma coords_circle_unfold (case : Case) (alldata : AllData Extra)
  (log : list event) :
  convert case = Ok alldata ->
  _coords_circle convert cos sin case log =
  (circle_of cos sin alldata, log ++ [Enter_coords_circle]).
Proof.
  intros H. unfold _coords_circle, bind, emit, lift. now rewrite H.
Qed.

(** A map returned by the force-directed strategy comes from an answer of
    the tool. *)
Lemma coords_from_sfdp_inv (case : Case) (alldata : AllData Extra) (seed : Z)
  (log : list event) (coords : Coords) :
  convert case = Ok alldata ->
  fst (_coords_from_sfdp convert sfdp case seed log) = Ok coords ->
  exists g out,
    graph_text alldata = Ok g /\ sfdp seed g = Ok out /\
    coords_of_output (dict_invert (IDtoCountmap alldata)) out = Ok coords.
Proof.
  intros Hc. destruct (graph_text alldata) as [g|e] eqn:G.
  - rewrite (coords_from_sfdp_unfold case alldata g seed log Hc G).
    cbn [fst]. destruct (sfdp seed g) as [out|] eqn:E; cbn [rbind];
      [|discriminate].
    intros Ec. exists g, out. auto.
  - rewrite (coords_from_sfdp_no_graph case alldata e seed log Hc G).
    discriminate.
Qed.

(** When the tool answers, the result of the force-directed strategy is
    the result of [_get_coords], a map or an exception. *)
Lemma get_coords_answer (case : Case) (alldata : AllData Extra)
  (g : str) (log : list event) (out : str) :
  convert case = Ok alldata ->
  graph_text alldata = Ok g ->
  sfdp 1234 g = Ok out ->
  _get_coords convert sfdp cos sin case None log =
  (coords_of_output (dict_invert (IDtoCountmap alldata)) out,
   after_sfdp g 1234 log).
Proof.
  intros H G E. unfold _get_coords, try_except.
  rewrite (coords_from_sfdp_unfold case alldata g 1234 log H G), E.
  cbn [rbind].
  destruct (coords_of_output _ out) as [c|e] eqn:Ec; [reflexivity|].
  now rewrite (coords_of_output_not_caught _ _ _ Ec).
Qed.

(** When the tool raises, the class of the exception decides. *)
Lemma get_coords_raise (case : Case) (alldata : AllData Extra)
  (g : str) (log : list event) (e : exn) :
  convert case = Ok alldata ->
  graph_text alldata = Ok g ->
  sfdp 1234 g = Raise e ->
  _get_coords convert sfdp cos sin case None log =
  if tool_failure e
  then (circle_of cos sin alldata,
        after_sfdp g 1234 log ++ [Enter_coords_circle])
  else (Raise e, after_sfdp g 1234 log).
Proof.
  intros H G E. unfold _get_coords, try_except.
  rewrite (coords_from_sfdp_unfold case alldata g 1234 log H G), E.
  cbn [rbind].
  destruct (tool_failure e); [|reflexivity].
  now apply coords_circle_unfold.
Qed.



Lemma parse_line_unparsed (xy : dict float * dict float) (line : str) :
  parses_as_node line = false ->
  parse_line xy line = Ok xy \/ parse_line xy line = Raise ValueError.
Proof.
  unfold parses_as_node, parse_line.
  destruct (is_node_line _); [|auto]. cbn [andb].
  destruct (Num.int_of_str _) as [name|e1] eqn:E1; cbn [is_ok andb rbind];
    [|rewrite (int_of_str_raises _ _ E1); auto].
  destruct (Num.float_of_str (nth 2 _ _)) as [fx|e2] eqn:E2;
    cbn [is_ok andb rbind]; [|rewrite (float_of_str_raises _ _ E2); auto].
  destruct (Num.float_of_str (nth 3 _ _)) as [fy|e3] eqn:E3;
    cbn [is_ok andb rbind]; [discriminate|].
  rewrite (float_of_str_raises _ _ E3); auto.
Qed.

Lemma for_each_unparsed (lines : list str) (xy : dict float * dict float) :
  (forall line, In line lines -> parses_as_node line = false) ->
  for_each parse_line lines xy = Ok xy \/
  for_each parse_line lines xy = Raise ValueError.
Proof.
  induction lines as [|l lines IH]; intros H; simpl; [auto|].
  destruct (parse_line_unparsed xy l) as [E|E];
    [apply H; simpl; auto| |]; rewrite E; simpl; [|auto].
  apply IH. intros; apply H; simpl; auto.
Qed.

Lemma coords_of_output_unparsed (c2i : dict Z) (out : str) :
  (forall line, In line (Str.splitlines out) -> parses_as_node line = false) ->
  coords_of_output c2i out = Raise ValueError.
Proof.
  intros H. unfold coords_of_output, parse_nodes.
  destruct (for_each_unparsed _ ([], []) H) as [E|E]; rewrite E; reflexivity.
Qed.

(** C9.  When the tool exits with status zero and no line of its output
    reads as a node line, [_coords_from_sfdp] raises [ValueError], and
    [_get_coords] passes it on to the caller: the circular strategy is not
    entered.  When no line even starts as a node line, the loop leaves both
    dictionaries empty and the error is the one of [min] on an empty
    collection. *)
Theorem unparsed_output_raises (case : Case) (alldata : AllData Extra)
  (g : str) (log : list event) (out : str) :
  convert case = Ok alldata ->
  graph_text alldata = Ok g ->
  sfdp 1234 g = Ok out ->
  (forall line, In line (Str.splitlines out) -> parses_as_node line = false) ->
  _coords_from_sfdp convert sfdp case 1234 log
  = (Raise ValueError, after_sfdp g 1234 log) /\
  _get_coords convert sfdp cos sin case None log
  = (Raise ValueError, after_sfdp g 1234 log) /\
  ((forall line, In line (Str.splitlines out) ->
      is_node_line (Str.split line) = false) ->
   parse_nodes out = Ok ([], []) /\
   py_min (dict_values (@nil (Z * float))) = Raise ValueError).
Proof.
  intros Hc Hg Ht Hn.
  pose proof (coords_of_output_unparsed (dict_invert (IDtoCountmap alldata))
                out Hn) as R.
  split; [|split].
  - rewrite (coords_from_sfdp_unfold case alldata g 1234 log Hc Hg), Ht.
    cbn [rbind]. now rewrite R.
  - rewrite (get_coords_answer case alldata g log out Hc Hg Ht), R.
    reflexivity.
  - intros Hl. split; [|reflexivity]. unfold parse_nodes.
    apply for_each_skip. intros s a Ha. unfold parse_line.
    now rewrite (Hl a Ha).
Qed.

(** C7.  [violation_plot] logs nothing: neither layout strategy is
    entered and the tool is not started.  Its result is the result of the
    figure builder on the converted case with the caller's coordinates,
    passed on as it is. *)
Theorem violation_plot_raw (case : Case) (coords : Coords)
  (violations : Violations) (log : list event) :
  violation_plot convert grbmap build_violations case coords violations log
  = (rbind (convert case) (fun alldata =>
       rbind (grbmap (set_graphical alldata) coords) (fun alldata' =>
         build_violations alldata' violations)),
     log).
Proof.
  unfold violation_plot, bind, lift, ret.
  destruct (convert case) as [alldata|e]; cbn [rbind]; [|reflexivity].
  destruct (grbmap _ coords) as [alldata'|e]; cbn [rbind]; [|reflexivity].
  destruct (build_violations _ violations); reflexivity.
Qed.

End Properties.

(** * The figure post-processor *)

Lemma tune_width_range (w : pyval) : width_after w (VFloat (tune_width w)).
Proof.
  exists (tune_width w). split; [reflexivity|]. split.
  - unfold tune_width, clamp. now apply B64.clamp_range.
  - unfold tune_width, or_default. destruct (py_float w); reflexivity.
Qed.

Lemma bump_convertible (v : pyval) :
  convertible v = true ->
  exists r, bump v = Ok r /\ size_after_one v (VFloat r).
Proof.
  unfold convertible, bump. intros H.
  exists (clamp 6 18 (or_default 6 (py_float v) * 1.12))%float.
  split.
  - destruct (py_float v) as [f|e]; cbn [rbind or_default]; [reflexivity|].
    rewrite H. reflexivity.
  - eexists. split; [reflexivity|]. split; [|reflexivity].
    unfold clamp. now apply B64.clamp_range.
Qed.

Lemma bump_all_convertible (l : list pyval) :
  forallb convertible l = true ->
  exists l', bump_all l = Ok l' /\ Forall2 size_after_one l l'.
Proof.
  unfold bump_all. intros H.
  assert (G : forall acc pre, Forall2 size_after_one pre acc ->
    exists l', for_each (fun acc v => rbind (bump v)
                 (fun fv => Ok (acc ++ [VFloat fv]))) l acc = Ok l' /\
               Forall2 size_after_one (pre ++ l) l').
  { induction l as [|v l IH]; intros acc pre F; simpl.
    - exists acc. rewrite app_nil_r. auto.
    - simpl in H. apply andb_true_iff in H. destruct H as [Hv Hl].
      destruct (bump_convertible v Hv) as (r & Er & Sr). rewrite Er. simpl.
      destruct (IH Hl (acc ++ [VFloat r]) (pre ++ [v])) as (l' & El & Fl).
      + apply Forall2_app; [assumption|]. constructor; [assumption|constructor].
      + exists l'. rewrite <- app_assoc in Fl. auto. }
  apply (G [] []). constructor.
Qed.

Lemma tune_trace_convertible (tr : Trace) :
  sizes_convertible tr = true ->
  exists tr', tune_trace tr = Ok tr' /\ tuned tr tr'.
Proof.
  unfold sizes_convertible, tune_trace, tuned. fold (mode_of tr).
  set (m := mode_of tr).
  assert (Lm : mode_of (tune_line m tr) = m /\ marker (tune_line m tr) = marker tr
               /\ mode (tune_line m tr) = mode tr).
  { unfold tune_line. destruct (Str.contains "lines" m); [|auto].
    destruct (line tr) as [[[w|]]|]; auto. }
  destruct Lm as (Lm1 & Lm2 & Lm3).
  assert (Ll : match line tr with
               | Some {| line_width := Some w |} =>
                   if Str.contains "lines" m then
                     exists w', line (tune_line m tr)
                                = Some {| line_width := Some w' |}
                                /\ width_after w w'
                   else line (tune_line m tr) = line tr
               | _ => line (tune_line m tr) = line tr
               end).
  { unfold tune_line. destruct (line tr) as [[[w|]]|] eqn:E;
      destruct (Str.contains "lines" m); try rewrite E; auto.
    eexists. split; [reflexivity|]. apply tune_width_range. }
  unfold tune_marker. rewrite Lm2.
  destruct (marker tr) as [[[s|]]|] eqn:Em;
    destruct (Str.contains "markers" m) eqn:Cm; intros H;
    try (eexists; split; [reflexivity|]; rewrite ?Lm2, ?Em; now auto).
  assert (S : exists s', tune_size s = Ok s' /\ size_after s s').
  { unfold tune_size, size_after.
    destruct s as [ |b|z|f|t|l|l];
      try (destruct (bump_convertible _ H) as (r & Er & Sr); rewrite Er;
           eexists; split; [reflexivity|assumption]);
      destruct (bump_all_convertible l H) as (l' & El & Fl); rewrite El;
      eexists; (split; [reflexivity|]); eauto. }
  destruct S as (s' & Es & Ss). rewrite Es. cbn [rbind].
  eexists. split; [reflexivity|]. cbn [mode line marker].
  split; [assumption|]. split; [assumption|]. eauto.
Qed.

Lemma tune_all_convertible (trs : list Trace) :
  forallb sizes_convertible trs = true ->
  exists trs', tune_all trs = Ok trs' /\ Forall2 tuned trs trs'.
Proof.
  unfold tune_all. intros H.
  assert (G : forall acc pre, Forall2 tuned pre acc ->
    exists trs', for_each (fun acc tr => rbind (tune_trace tr)
                   (fun tr' => Ok (acc ++ [tr']))) trs acc = Ok trs' /\
                 Forall2 tuned (pre ++ trs) trs').
  { induction trs as [|tr trs IH]; intros acc pre F; simpl.
    - exists acc. rewrite app_nil_r. auto.
    - simpl in H. apply andb_true_iff in H. destruct H as [Hv Hl].
      destruct (tune_trace_convertible tr Hv) as (r & Er & Sr). rewrite Er.
      simpl.
      destruct (IH Hl (acc ++ [r]) (pre ++ [tr])) as (l' & El & Fl).
      + apply Forall2_app; [assumption|]. constructor; [assumption|constructor].
      + exists l'. rewrite <- app_assoc in Fl. auto. }
  apply (G [] []). constructor.
Qed.

(** C3, as the code has it.  On a figure whose marker sizes [float]
    converts or refuses with [TypeError] or [ValueError], the pass returns
    the figure with the same layout and each trace tuned: a trace whose mode
    includes [lines] and that has a line width gets the width
    [min(max(0.8, w * 1.08), 2.2)], within [0.8, 2.2], where [w] is 1.0 for
    a width [float] does not convert; a trace whose mode includes [markers]
    and that has a marker size gets [min(max(6.0, s * 1.12), 18.0)], within
    [6.0, 18.0], for the size or for each element of a list or tuple of
    sizes, where [s] is 6.0 for a size [float] does not convert.  A trace
    without the attribute is left as it is. *)
Theorem tune_traces_bounds (fig : Figure) :
  forallb sizes_convertible (data fig) = true ->
  exists trs', _tune_traces fig = Ok {| layout := layout fig; data := trs' |} /\
               Forall2 tuned (data fig) trs'.
Proof.
  intros H. destruct (tune_all_convertible _ H) as (trs' & E & F).
  exists trs'. unfold _tune_traces. rewrite E. auto.
Qed.

Lemma find_obj_text_first (pre post : list Annotation) (a : Annotation)
  (s : str) :
  Forall (fun b => objective b = false) pre ->
  text a = VStr s -> Str.startswith "OBJ" (Str.strip s) = true ->
  find_obj_text (pre ++ a :: post) = Some (Str.strip s).
Proof.
  intros F Ht Hs.
  induction F as [|b pre Hb F IH]; cbn [List.app find_obj_text].
  - now rewrite Ht, Hs.
  - unfold objective in Hb. destruct (text b); try assumption.
    now rewrite Hb.
Qed.

Lemma find_obj_text_none (anns : list Annotation) :
  Forall (fun b => objective b = false) anns -> find_obj_text anns = None.
Proof.
  induction 1 as [|b anns Hb F IH]; cbn [find_obj_text]; [reflexivity|].
  unfold objective in Hb. destruct (text b); try assumption.
  now rewrite Hb.
Qed.

Lemma block_text_objective (t : str) :
  Str.startswith "OBJ" t = true ->
  block_text (Some t)
  = ("<b>" ++ t ++ "</b>" ++ "<br>" ++ "<br>" ++ block_text None)%str.
Proof.
  intros H. destruct t as [|c t]; [discriminate|].
  unfold block_text, objective_lines.
  set (line1 := ("<b>" ++ (c :: t) ++ "</b>")%str).
  change (Str.join "<br>" (List.app [line1; lit ""] legend_lines))
    with (line1 ++ "<br>" ++ "" ++ "<br>"
            ++ Str.join "<br>" (List.app [] legend_lines))%str.
  subst line1. unfold Str.cat. cbn [List.app lit map list_ascii_of_string].
  rewrite <- !app_assoc. reflexivity.
Qed.

(** C5, as the code has it.  The annotation pass of [solution_plot]
    leaves the traces alone and replaces all annotations by one block.
    Without [keep_obj] the block is the fixed legend, in which [OBJ] does
    not occur.  With [keep_obj], when [a] is the first annotation whose text
    is a str that starts with [OBJ] once white space around it is
    stripped, the stripped text in bold is the first line of the block, an
    empty line and the legend follow; when there is no such annotation the
    block is the legend. *)
Theorem restyle_block (fig : Figure) (keep_obj : bool) :
  data (restyle fig keep_obj) = data fig /\
  exists txt,
    annotations (layout (restyle fig keep_obj)) = [block txt] /\
    (keep_obj = false ->
       txt = Str.join "<br>" legend_lines /\ Str.contains "OBJ" txt = false) /\
    (keep_obj = true ->
       forall pre a post s,
         annotations (layout fig) = pre ++ a :: post ->
         Forall (fun b => objective b = false) pre ->
         text a = VStr s -> Str.startswith "OBJ" (Str.strip s) = true ->
         txt = ("<b>" ++ Str.strip s ++ "</b>" ++ "<br>" ++ "<br>"
                  ++ Str.join "<br>" legend_lines)%str) /\
    (keep_obj = true ->
       Forall (fun b => objective b = false) (annotations (layout fig)) ->
       txt = Str.join "<br>" legend_lines).
Proof.
  split; [reflexivity|].
  exists (block_text (if keep_obj then find_obj_text (annotations (layout fig))
                      else None)).
  split; [reflexivity|]. split; [|split].
  - intros ->. split; [reflexivity|now vm_compute].
  - intros -> pre a post s E F Ht Hs.
    rewrite E, (find_obj_text_first pre post a s F Ht Hs).
    now apply block_text_objective.
  - intros -> F. now rewrite (find_obj_text_none _ F).
Qed.

(** * The force-directed strategy *)

Lemma parse_line_node (x y : dict float) (line : str) (k : Z) (X Y : float) :
  gives line k X Y ->
  parse_line (x, y) line = Ok (dict_set k X x, dict_set k Y y).
Proof.
  intros (Hn & Hk & HX & HY). unfold parse_line.
  rewrite Hn, Hk, HX, HY. reflexivity.
Qed.

Lemma parse_line_other (xy : dict float * dict float) (line : str) :
  is_node_line (Str.split line) = false -> parse_line xy line = Ok xy.
Proof. intros H. unfold parse_line. now rewrite H. Qed.

(** A turn that succeeds on a node line has read it in full. *)
Lemma parse_line_inv (x y x' y' : dict float) (line : str) :
  parse_line (x, y) line = Ok (x', y') ->
  (is_node_line (Str.split line) = false /\ x' = x /\ y' = y) \/
  exists k X Y, gives line k X Y /\ x' = dict_set k X x /\ y' = dict_set k Y y.
Proof.
  unfold parse_line, gives.
  destruct (is_node_line _) eqn:Hn; [|intros [= <- <-]; auto].
  destruct (Num.int_of_str _) as [k|] eqn:Hk; cbn [rbind]; [|discriminate].
  destruct (Num.float_of_str (nth 2 _ _)) as [X|] eqn:HX; cbn [rbind];
    [|discriminate].
  destruct (Num.float_of_str (nth 3 _ _)) as [Y|] eqn:HY; cbn [rbind];
    [|discriminate].
  intros [= <- <-]. right. exists k, X, Y. auto.
Qed.

Lemma paired_set (lines : list str) (x y : dict float) (line : str)
  (k : Z) (X Y : float) :
  paired lines x y -> In line lines -> gives line k X Y ->
  paired lines (dict_set k X x) (dict_set k Y y).
Proof.
  intros (K & N & P) Hl Hg. split; [|split].
  - rewrite !dict_keys_set, K. reflexivity.
  - now apply dict_set_NoDup.
  - intros k0 X0 Y0. destruct (Z.eq_dec k0 k) as [->|Ne].
    + rewrite !dict_get_set_same. intros [= <-] [= <-]. eauto.
    + rewrite !dict_get_set_other by assumption. apply P.
Qed.

Lemma parse_loop_paired (all lines : list str) (x y x' y' : dict float) :
  (forall line, In line lines -> In line all) ->
  paired all x y ->
  for_each parse_line lines (x, y) = Ok (x', y') ->
  paired all x' y'.
Proof.
  revert x y. induction lines as [|l lines IH]; intros x y Sub P; simpl.
  - now intros [= <- <-].
  - destruct (parse_line (x, y) l) as [[x1 y1]|] eqn:E; cbn [rbind];
      [|discriminate].
    apply IH; [intros; apply Sub; simpl; auto|].
    destruct (parse_line_inv _ _ _ _ _ E) as [(_ & -> & ->)|(k & X & Y & G & -> & ->)];
      [assumption|].
    eapply paired_set; eauto. apply Sub. simpl. auto.
Qed.

Lemma parse_nodes_paired (out : str) (x y : dict float) :
  parse_nodes out = Ok (x, y) -> paired (Str.splitlines out) x y.
Proof.
  apply parse_loop_paired; [auto|].
  split; [reflexivity|]. split; [constructor|]. discriminate.
Qed.

(** The loop succeeds when each node line reads in full, and then knows a
    node as soon as there is a node line. *)
Lemma parse_loop_ok (d : dict Z) (lines : list str) (x y : dict float) :
  forallb (node_ok d) lines = true ->
  exists x' y', for_each parse_line lines (x, y) = Ok (x', y') /\
    (x <> [] \/ existsb (fun l => is_node_line (Str.split l)) lines = true ->
     x' <> []).
Proof.
  revert x y. induction lines as [|l lines IH]; intros x y H; simpl.
  - exists x, y. split; [reflexivity|]. intros [N|N]; [assumption|discriminate].
  - simpl in H. apply andb_true_iff in H. destruct H as [Hl H].
    unfold node_ok in Hl.
    destruct (is_node_line (Str.split l)) eqn:Hn; cbn [negb orb] in Hl.
    + destruct (Num.int_of_str _) as [k|] eqn:Hk; [|discriminate].
      destruct (Num.float_of_str (nth 2 _ _)) as [X|] eqn:HX; [|discriminate].
      destruct (Num.float_of_str (nth 3 _ _)) as [Y|] eqn:HY; [|discriminate].
      rewrite (parse_line_node x y l k X Y) by (unfold gives; auto).
      cbn [rbind].
      destruct (IH (dict_set k X x) (dict_set k Y y) H) as (x' & y' & E & Ne).
      exists x', y'. split; [assumption|]. intros _. apply Ne. left.
      destruct x as [|[k0 v0] x]; simpl; [discriminate|].
      destruct (k0 =? k); discriminate.
    + rewrite parse_line_other by assumption. cbn [rbind orb].
      destruct (IH x y H) as (x' & y' & E & Ne). eauto.
Qed.

Lemma node_ok_gives (d : dict Z) (line : str) (k : Z) (X Y : float) :
  node_ok d line = true -> gives line k X Y ->
  In k (dict_values d) /\ is_finite X = true /\ is_finite Y = true.
Proof.
  unfold node_ok. intros H (Hn & Hk & HX & HY).
  rewrite Hn, Hk, HX, HY in H. cbn [negb orb] in H.
  apply andb_true_iff in H. destruct H as [H HfY].
  apply andb_true_iff in H. destruct H as [H HfX].
  apply existsb_exists in H. destruct H as (k' & Hin & E).
  apply Z.eqb_eq in E. subst. auto.
Qed.

(** A collection that holds a zero and nothing negative has minimum zero. *)
Lemma min_is_zero_intro (l : list float) :
  In 0%float l -> (forall v, In v l -> (0 <=? v)%float = true) ->
  min_is_zero l.
Proof.
  intros Hz Hp. destruct l as [|v rest]; [contradiction|].
  assert (N : forall e, In e (v :: rest) -> is_nan e = false)
    by (intros e He; apply (B64.leb_not_nan _ _ (Hp e He))).
  destruct (B64.fold_min2_spec rest v N) as [Hin Hle].
  exists (fold_left min2 rest v). split; [reflexivity|].
  apply B64.leb_nlt_eqb; auto.
Qed.

Section Place.
Variables (c2i : dict Z) (y : dict float) (minx miny : float).

Lemma place_inv (acc coords : Coords) (cnt : Z) (X : float) :
  place c2i y minx miny acc (cnt, X) = Ok coords ->
  exists bus Y, dict_get cnt c2i = Some bus /\ dict_get cnt y = Some Y /\
    coords = dict_set bus (Y - miny, X - minx)%float acc.
Proof.
  unfold place, dict_getitem.
  destruct (dict_get cnt y) as [Y|]; cbn [rbind]; [|discriminate].
  destruct (dict_get cnt c2i) as [bus|]; cbn [rbind]; [|discriminate].
  intros [= <-]. eauto.
Qed.

Lemma place_loop_ok (items : list (Z * float)) (acc : Coords) :
  (forall cnt X, In (cnt, X) items ->
     dict_get cnt y <> None /\ dict_get cnt c2i <> None) ->
  exists coords, for_each (place c2i y minx miny) items acc = Ok coords.
Proof.
  revert acc. induction items as [|[cnt X] items IH]; intros acc H; simpl;
    [eauto|].
  destruct (H cnt X) as [Hy Hc]; [simpl; auto|].
  unfold place at 1, dict_getitem.
  destruct (dict_get cnt y) as [Y|]; [|congruence].
  destruct (dict_get cnt c2i) as [bus|]; [|congruence].
  cbn [rbind]. apply IH. intros c' X' I'. apply (H c' X'). simpl. auto.
Qed.

(** Every entry of the result comes from an item: its first component is
    the shifted [y] of the node, its second the shifted [x], and its key is
    the bus that the inverse map gives for the node count. *)
Lemma place_loop_In (items : list (Z * float)) (acc coords : Coords) :
  for_each (place c2i y minx miny) items acc = Ok coords ->
  forall bus p, In (bus, p) coords ->
    In (bus, p) acc \/
    exists cnt X Y, In (cnt, X) items /\ dict_get cnt y = Some Y /\
      dict_get cnt c2i = Some bus /\ p = (Y - miny, X - minx)%float.
Proof.
  revert acc. induction items as [|[cnt X] items IH]; intros acc; cbn [for_each].
  - intros [= <-]. auto.
  - destruct (place c2i y minx miny acc (cnt, X)) as [acc1|] eqn:E;
      cbn [rbind]; [|discriminate].
    intros H bus p Hin.
    destruct (place_inv _ _ _ _ E) as (b & Y & Hc & Hy & ->).
    destruct (IH _ H bus p Hin) as [H1|(c' & X' & Y' & I' & R)].
    + destruct (dict_set_In _ _ _ _ _ H1) as [[-> ->]|H2]; [|auto].
      right. exists cnt, X, Y. simpl. auto.
    + right. exists c', X', Y'. simpl. tauto.
Qed.

Lemma place_loop_untouched (items : list (Z * float)) (acc coords : Coords)
  (bus : Z) :
  for_each (place c2i y minx miny) items acc = Ok coords ->
  (forall cnt X, In (cnt, X) items -> dict_get cnt c2i <> Some bus) ->
  dict_get bus coords = dict_get bus acc.
Proof.
  revert acc. induction items as [|[cnt X] items IH]; intros acc; cbn [for_each].
  - now intros [= <-].
  - destruct (place c2i y minx miny acc (cnt, X)) as [acc1|] eqn:E;
      cbn [rbind]; [|discriminate].
    intros H N. destruct (place_inv _ _ _ _ E) as (b & Y & Hc & Hy & ->).
    rewrite (IH _ H) by (intros c' X' I'; apply (N c' X'); simpl; auto).
    apply dict_get_set_other. intros ->. apply (N cnt X); simpl; auto.
Qed.

(** With one bus per node count, each item is found in the result. *)
Lemma place_loop_get (items : list (Z * float)) (acc coords : Coords) :
  NoDup (map fst items) ->
  (forall c1 c2 b, dict_get c1 c2i = Some b -> dict_get c2 c2i = Some b ->
     c1 = c2) ->
  for_each (place c2i y minx miny) items acc = Ok coords ->
  forall cnt X, In (cnt, X) items ->
    exists bus Y, dict_get cnt c2i = Some bus /\ dict_get cnt y = Some Y /\
      dict_get bus coords = Some (Y - miny, X - minx)%float.
Proof.
  intros N Inj. revert acc N.
  induction items as [|[c0 X0] items IH]; intros acc N; cbn [for_each]; [simpl; tauto|].
  destruct (place c2i y minx miny acc (c0, X0)) as [acc1|] eqn:E;
    cbn [rbind]; [|discriminate].
  intros H cnt X Hin. simpl in Hin. destruct Hin as [[= -> ->]|Hin].
  - destruct (place_inv _ _ _ _ E) as (b & Y & Hc & Hy & ->).
    exists b, Y. split; [assumption|]. split; [assumption|].
    rewrite (place_loop_untouched _ _ _ b H).
    + apply dict_get_set_same.
    + intros c' X' I' Hc'. inversion N as [|? ? Hn _]; subst.
      apply Hn. rewrite (Inj _ _ _ Hc Hc').
      change c' with (fst (c', X')). now apply in_map.
  - inversion N; subst. eapply IH; eauto.
Qed.
End Place.

Lemma In_keys_exists {V} (k : Z) (d : dict V) :
  In k (dict_keys d) -> exists v, In (k, v) d.
Proof.
  unfold dict_keys. rewrite in_map_iff. intros ([k' v] & E & H).
  simpl in E. subst. eauto.
Qed.

Lemma In_values_exists {V} (v : V) (d : dict V) :
  In v (dict_values d) -> exists k, In (k, v) d.
Proof.
  unfold dict_values. rewrite in_map_iff. intros ([k v'] & E & H).
  simpl in E. subst. eauto.
Qed.

Lemma In_pair_keys {V} (k : Z) (v : V) (d : dict V) :
  In (k, v) d -> In k (dict_keys d).
Proof. intros H. change k with (fst (k, v)). now apply in_map. Qed.

Lemma In_pair_values {V} (k : Z) (v : V) (d : dict V) :
  In (k, v) d -> In v (dict_values d).
Proof. intros H. change v with (snd (k, v)). now apply in_map. Qed.

(** One bus per node count, when no bus is twice in [IDtoCountmap]. *)
Lemma dict_invert_injective (d : dict Z) (c1 c2 b : Z) :
  NoDup (dict_keys d) ->
  dict_get c1 (dict_invert d) = Some b -> dict_get c2 (dict_invert d) = Some b ->
  c1 = c2.
Proof.
  intros N H1 H2. apply dict_invert_get in H1, H2.
  apply (In_dict_get _ _ _ N) in H1, H2. congruence.
Qed.

(** The minimum that [min] finds among finite numbers. *)
Lemma py_min_finite (l : list float) :
  l <> [] -> (forall v, In v l -> is_finite v = true) ->
  exists m, py_min l = Ok m /\ In m l /\
            forall v, In v l -> (v <? m)%float = false.
Proof.
  intros Ne F. destruct l as [|v rest]; [congruence|].
  assert (N : forall e, In e (v :: rest) -> is_nan e = false)
    by (intros; apply B64.finite_not_nan; auto).
  destruct (B64.fold_min2_spec rest v N) as [Hin Hle].
  exists (fold_left min2 rest v). auto.
Qed.

Section ForceDirected.
Context {Case Extra : Type}.
Context (convert : Case -> result (AllData Extra)).
Context (sfdp : Z -> str -> result str).

(** What [coords_of_output] returns on an output whose node lines all
    read in full, name node counts of the network and give finite
    positions. *)
Lemma coords_of_output_min (d : dict Z) (out : str) :
  NoDup (dict_keys d) ->
  has_node_line out = true ->
  forallb (node_ok d) (Str.splitlines out) = true ->
  exists coords,
    coords_of_output (dict_invert d) out = Ok coords /\
    min_is_zero (xs_of coords) /\ min_is_zero (ys_of coords).
Proof.
  intros Nd Hn Hok. unfold coords_of_output.
  destruct (parse_loop_ok d (Str.splitlines out) [] [] Hok)
    as (x & y & E & Ne).
  change (parse_nodes out = Ok (x, y)) in E.
  specialize (Ne (or_intror Hn)).
  pose proof (parse_nodes_paired out x y E) as (K & Nx & P).
  rewrite E. cbn [rbind].
  assert (Ny : NoDup (dict_keys y)) by (now rewrite <- K).
  (* every entry of [x] and [y] comes from a node line *)
  assert (Fx : forall k X, In (k, X) x ->
            exists Y, In (k, Y) y /\ In k (dict_values d) /\
                      is_finite X = true /\ is_finite Y = true).
  { intros k X I. pose proof (In_pair_keys _ _ _ I) as Ik. rewrite K in Ik.
    destruct (In_keys_exists _ _ Ik) as (Y & IY). exists Y.
    split; [assumption|].
    destruct (P k X Y (In_dict_get _ _ _ Nx I) (In_dict_get _ _ _ Ny IY))
      as (line & Hl & G).
    eapply node_ok_gives; [|exact G].
    rewrite forallb_forall in Hok. now apply Hok. }
  assert (Fy : forall k Y, In (k, Y) y ->
            exists X, In (k, X) x /\ is_finite Y = true).
  { intros k Y I. pose proof (In_pair_keys _ _ _ I) as Ik. rewrite <- K in Ik.
    destruct (In_keys_exists _ _ Ik) as (X & IX). exists X.
    split; [assumption|].
    destruct (Fx k X IX) as (Y' & IY' & _ & _ & F).
    pose proof (In_dict_get _ _ _ Ny I) as G1.
    pose proof (In_dict_get _ _ _ Ny IY') as G2. congruence. }
  destruct (py_min_finite (dict_values x)) as (minx & Emx & Imx & Lx).
  { destruct x; [congruence|discriminate]. }
  { intros v Hv. destruct (In_values_exists _ _ Hv) as (k & I).
    now destruct (Fx k v I) as (Y & _ & _ & F & _). }
  destruct (py_min_finite (dict_values y)) as (miny & Emy & Imy & Ly).
  { destruct y; [|discriminate]. destruct x; [congruence|discriminate]. }
  { intros v Hv. destruct (In_values_exists _ _ Hv) as (k & I).
    now destruct (Fy k v I) as (X & _ & F). }
  rewrite Emx, Emy. cbn [rbind].
  destruct (In_values_exists _ _ Imx) as (kx & Ikx).
  destruct (In_values_exists _ _ Imy) as (ky & Iky).
  assert (Fminx : is_finite minx = true)
    by (now destruct (Fx kx minx Ikx) as (Y & _ & _ & F & _)).
  assert (Fminy : is_finite miny = true)
    by (now destruct (Fy ky miny Iky) as (X & _ & F)).
  destruct (place_loop_ok (dict_invert d) y minx miny x []) as (coords & Ec).
  { intros cnt X I. destruct (Fx cnt X I) as (Y & IY & Iv & _). split.
    - rewrite (In_dict_get _ _ _ Ny IY). discriminate.
    - now apply dict_invert_keys. }
  exists coords. split; [assumption|].
  pose proof (place_loop_In _ _ _ _ _ _ _ Ec) as Hin.
  pose proof (place_loop_get _ _ _ _ _ _ _ Nx
                (fun c1 c2 b => dict_invert_injective d c1 c2 b Nd) Ec) as Hget.
  split.
  - apply min_is_zero_intro.
    + destruct (Hget kx minx Ikx) as (bus & Y & _ & _ & G).
      apply dict_get_In in G. rewrite B64.sub_diag in G by assumption.
      unfold xs_of. apply in_map_iff. exists (bus, ((Y - miny)%float, 0%float)).
      auto.
    + intros v Hv. unfold xs_of in Hv. apply in_map_iff in Hv.
      destruct Hv as ([bus [a b]] & <- & Hv). cbn [snd].
      destruct (Hin bus (a, b) Hv) as [[]|(cnt & X & Y & I & Gy & _ & [= -> ->])].
      destruct (Fx cnt X I) as (Y' & _ & _ & F & _).
      apply B64.sub_nonneg; auto. apply Lx. eapply In_pair_values; eauto.
  - apply min_is_zero_intro.
    + destruct (Fy ky miny Iky) as (X & IX & _).
      destruct (Hget ky X IX) as (bus & Y & _ & Gy & G).
      rewrite (In_dict_get _ _ _ Ny Iky) in Gy. injection Gy as <-.
      apply dict_get_In in G. rewrite B64.sub_diag in G by assumption.
      unfold ys_of. apply in_map_iff. exists (bus, (0%float, (X - minx)%float)).
      auto.
    + intros v Hv. unfold ys_of in Hv. apply in_map_iff in Hv.
      destruct Hv as ([bus [a b]] & <- & Hv). cbn [fst snd].
      destruct (Hin bus (a, b) Hv) as [[]|(cnt & X & Y & I & Gy & _ & [= -> ->])].
      apply dict_get_In in Gy.
      destruct (Fy cnt Y Gy) as (X' & _ & F).
      apply B64.sub_nonneg; auto. apply Ly. eapply In_pair_values; eauto.
Qed.

(** C6, as the code has it.  When the tool's output has a node line, and
    each of its node lines reads in full, names a node count of the network
    and gives a finite position, the force-directed strategy returns a map
    whose smallest [x] is zero and whose smallest [y] is zero. *)
Theorem sfdp_min_is_zero (case : Case) (alldata : AllData Extra) (g : str)
  (seed : Z) (log : list event) (out : str) :
  convert case = Ok alldata ->
  NoDup (dict_keys (IDtoCountmap alldata)) ->
  graph_text alldata = Ok g ->
  sfdp seed g = Ok out ->
  has_node_line out = true ->
  forallb (node_ok (IDtoCountmap alldata)) (Str.splitlines out) = true ->
  exists coords,
    _coords_from_sfdp convert sfdp case seed log
    = (Ok coords, after_sfdp g seed log) /\
    min_is_zero (xs_of coords) /\ min_is_zero (ys_of coords).
Proof.
  intros Hc Nd Hg Ht Hn Hok.
  destruct (coords_of_output_min _ out Nd Hn Hok) as (coords & E & Mx & My).
  exists coords. split; [|auto].
  rewrite (coords_from_sfdp_unfold convert sfdp case alldata g seed log Hc Hg),
    Ht.
  cbn [rbind]. now rewrite E.
Qed.

(** Each entry of the force-directed map is keyed by a bus
    identifier that [IDtoCountmap] maps to the node count of a node line,
    and holds the position of that line with the axes swapped: first the
    shifted [y], then the shifted [x]. *)
Lemma coords_of_output_swapped (d : dict Z) (out : str) (coords : Coords) :
  coords_of_output (dict_invert d) out = Ok coords ->
  exists minx miny,
    forall bus a b, In (bus, (a, b)) coords ->
      exists cnt line X Y,
        In (bus, cnt) d /\ In line (Str.splitlines out) /\ gives line cnt X Y /\
        a = (Y - miny)%float /\ b = (X - minx)%float.
Proof.
  unfold coords_of_output.
  destruct (parse_nodes out) as [[x y]|] eqn:E; cbn [rbind]; [|discriminate].
  destruct (py_min (dict_values x)) as [minx|]; cbn [rbind]; [|discriminate].
  destruct (py_min (dict_values y)) as [miny|]; cbn [rbind]; [|discriminate].
  intros Ec. exists minx, miny. intros bus a b Hin.
  pose proof (parse_nodes_paired out x y E) as (K & Nx & P).
  destruct (place_loop_In _ _ _ _ _ _ _ Ec bus (a, b) Hin)
    as [[]|(cnt & X & Y & I & Gy & Gc & [= -> ->])].
  destruct (P cnt X Y (In_dict_get _ _ _ Nx I) Gy) as (line & Hl & G).
  exists cnt, line, X, Y. split; [now apply dict_invert_get|auto].
Qed.

End ForceDirected.

(** * The circular strategy *)

Lemma insert_sorted_perm (a : Z) (l : list Z) :
  Permutation (a :: l) (insert_sorted a l).
Proof.
  induction l as [|b l IH]; simpl; [auto|].
  destruct (a <=? b); [auto|].
  eapply perm_trans; [apply perm_swap|]. now constructor.
Qed.

Lemma sorted_perm (l : list Z) : Permutation l (sorted l).
Proof.
  induction l as [|a l IH]; simpl; [auto|].
  eapply perm_trans; [|apply insert_sorted_perm]. now constructor.
Qed.

Lemma insert_sorted_strict (a : Z) (l : list Z) :
  StronglySorted Z.lt l -> ~ In a l -> StronglySorted Z.lt (insert_sorted a l).
Proof.
  induction 1 as [|b l S IH F]; intros N; simpl.
  - repeat constructor.
  - destruct (Z.leb_spec a b) as [L|L].
    + assert (a < b) by (simpl in N; lia).
      constructor; [now constructor|].
      constructor; [assumption|].
      eapply Forall_impl; [|exact F]. simpl. intros; lia.
    + constructor; [apply IH; simpl in N; tauto|].
      eapply Permutation_Forall; [apply insert_sorted_perm|].
      constructor; [lia|assumption].
Qed.

Lemma sorted_strict (l : list Z) : NoDup l -> StronglySorted Z.lt (sorted l).
Proof.
  induction 1 as [|a l N _ IH]; simpl; [constructor|].
  apply insert_sorted_strict; [assumption|].
  intros H. apply N. eapply Permutation_in; [|exact H].
  apply Permutation_sym, sorted_perm.
Qed.

Lemma sorted_NoDup (l : list Z) : NoDup l -> NoDup (sorted l).
Proof. intros N. eapply Permutation_NoDup; [apply sorted_perm|exact N]. Qed.

Lemma sorted_length (l : list Z) : List.length (sorted l) = List.length l.
Proof. symmetry. apply Permutation_length, sorted_perm. Qed.

Lemma enumerate_from_cons {A} (start : nat) (a : A) (l : list A) :
  enumerate_from start (a :: l)
  = (Z.of_nat start, a) :: enumerate_from (S start) l.
Proof. reflexivity. Qed.

Lemma enumerate_from_range {A} (start : nat) (l : list A) (k : Z) (a : A) :
  In (k, a) (enumerate_from start l) ->
  Z.of_nat start <= k < Z.of_nat (start + List.length l) /\ In a l.
Proof.
  revert start. induction l as [|b l IH]; intros start; [intros []|].
  rewrite enumerate_from_cons. intros [[= <- <-]|H].
  - simpl. split; [lia|auto].
  - destruct (IH _ H) as [R I]. simpl. split; [lia|auto].
Qed.

(** [enumerate] pairs each element with its place in the list. *)
Lemma enumerate_from_nth_error {A} (start : nat) (l : list A) (i : nat)
  (a : A) :
  nth_error l i = Some a ->
  nth_error (enumerate_from start l) i = Some (Z.of_nat (start + i), a).
Proof.
  revert start i. induction l as [|b l IH]; intros start [|i] H;
    try discriminate; rewrite enumerate_from_cons; cbn [nth_error] in *.
  - injection H as ->. now rewrite Nat.add_0_r.
  - rewrite (IH (S start) i H). f_equal. f_equal. lia.
Qed.

Lemma enumerate_from_nth {A} (start : nat) (l : list A) (k : Z) (a : A) :
  In (k, a) (enumerate_from start l) ->
  exists i, k = Z.of_nat (start + i) /\ nth_error l i = Some a.
Proof.
  revert start. induction l as [|b l IH]; intros start; [intros []|].
  rewrite enumerate_from_cons. intros [[= <- <-]|H].
  - exists 0%nat. split; [now rewrite Nat.add_0_r|reflexivity].
  - destruct (IH _ H) as (i & -> & N). exists (S i).
    split; [f_equal; lia|exact N].
Qed.

Lemma enumerate_nth {A} (l : list A) (k : Z) (a : A) :
  In (k, a) (enumerate l) ->
  exists i, k = Z.of_nat i /\ nth_error l i = Some a.
Proof. apply (enumerate_from_nth 0). Qed.

Lemma Forall2_nth_error {A B} (R : A -> B -> Prop) (l1 : list A)
  (l2 : list B) (i : nat) (x : A) :
  Forall2 R l1 l2 -> nth_error l1 i = Some x ->
  exists y, nth_error l2 i = Some y /\ R x y.
Proof.
  intros F. revert i. induction F as [|a b l1 l2 Hab F IH]; intros [|i] H;
    try discriminate; cbn [nth_error] in *.
  - injection H as ->. eauto.
  - eauto.
Qed.

Section Circle.
Context (cos sin : float -> result float).

Lemma place_on_circle_inv (n : Z) (acc coords : Coords) (k bus : Z) :
  place_on_circle cos sin n 100 acc (k, bus) = Ok coords ->
  exists p, at_angle cos sin n k p /\ coords = dict_set bus p acc.
Proof.
  unfold place_on_circle, at_angle.
  destruct (angle k n) as [theta|]; cbn [rbind]; [|discriminate].
  destruct (cos theta) as [c|] eqn:Ec; cbn [rbind]; [|discriminate].
  destruct (sin theta) as [s|] eqn:Es; cbn [rbind]; [|discriminate].
  intros [= <-]. eexists. split; [|reflexivity].
  exists theta, c, s. auto.
Qed.

(** Each entry of the circular map holds [(R sin, R cos)], the [y] first. *)
Lemma circle_loop_In (n : Z) (items : list (Z * Z)) (acc coords : Coords) :
  for_each (place_on_circle cos sin n 100) items acc = Ok coords ->
  forall bus p, In (bus, p) coords ->
    In (bus, p) acc \/ exists k, In (k, bus) items /\ at_angle cos sin n k p.
Proof.
  revert acc. induction items as [|[k b] items IH]; intros acc; cbn [for_each].
  - intros [= <-]. auto.
  - destruct (place_on_circle cos sin n 100 acc (k, b)) as [acc1|] eqn:E;
      cbn [rbind]; [|discriminate].
    intros H bus p Hin.
    destruct (place_on_circle_inv _ _ _ _ _ E) as (q & A & ->).
    destruct (IH _ H bus p Hin) as [H1|(k' & I' & A')].
    + destruct (dict_set_In _ _ _ _ _ H1) as [[-> ->]|H2]; [|auto].
      right. exists k. simpl. auto.
    + right. exists k'. simpl. auto.
Qed.

Hypothesis cos_bounded : bounded_on_finite cos.
Hypothesis sin_bounded : bounded_on_finite sin.

Lemma place_on_circle_ok (n : Z) (acc : Coords) (k bus : Z) :
  0 <= k < 2 ^ 63 -> n < 2 ^ 63 -> ~ In bus (dict_keys acc) ->
  exists entry,
    place_on_circle cos sin n 100 acc (k, bus) = Ok (acc ++ [entry]) /\
    on_circle cos sin n (k, bus) entry.
Proof.
  intros Hk Hn New. unfold place_on_circle, on_circle, at_angle.
  destruct (B64.angle_finite k n Hk Hn) as (theta & Et & Ft).
  destruct (cos_bounded theta Ft) as (c & Ec & Bc).
  destruct (sin_bounded theta Ft) as (s & Es & Bs).
  rewrite Et. cbn [rbind]. rewrite Ec. cbn [rbind]. rewrite Es. cbn [rbind].
  rewrite dict_set_new by assumption.
  eexists. split; [reflexivity|]. cbn [fst snd].
  split; [reflexivity|]. split; [exists theta, c, s; auto|].
  split; now apply B64.mul_100_finite.
Qed.

Lemma circle_loop_ok (n : Z) (items : list (Z * Z)) (acc : Coords) :
  (forall k bus, In (k, bus) items -> 0 <= k < 2 ^ 63) -> n < 2 ^ 63 ->
  NoDup (map snd items) ->
  (forall k bus, In (k, bus) items -> ~ In bus (dict_keys acc)) ->
  exists entries,
    for_each (place_on_circle cos sin n 100) items acc = Ok (acc ++ entries) /\
    Forall2 (on_circle cos sin n) items entries.
Proof.
  intros Hk Hn. revert acc.
  induction items as [|[k bus] items IH]; intros acc Nd New; cbn [for_each].
  - exists []. rewrite app_nil_r. auto.
  - destruct (place_on_circle_ok n acc k bus) as (entry & E & O);
      [apply (Hk k bus); simpl; auto|assumption|apply (New k bus); simpl; auto|].
    rewrite E. cbn [rbind]. inversion Nd as [|? ? Hn1 Nd']; subst.
    destruct IH with (acc := acc ++ [entry]) as (entries & E' & F').
    + intros k' b' I'. apply (Hk k' b'). simpl. auto.
    + assumption.
    + intros k' b' I'. unfold dict_keys. rewrite map_app, in_app_iff.
      intros [H|H].
      * apply (New k' b'); simpl; auto.
      * destruct O as (O1 & _). simpl in H, O1. destruct H as [H|[]].
        apply Hn1. rewrite <- O1, H.
        change b' with (snd (k', b')). now apply in_map.
    + exists (entry :: entries). rewrite E', <- app_assoc. auto.
Qed.
End Circle.

Lemma enumerate_from_snd {A} (start : nat) (l : list A) :
  map snd (enumerate_from start l) = l.
Proof.
  revert start. induction l as [|a l IH]; intros start; [reflexivity|].
  rewrite enumerate_from_cons. simpl. now rewrite IH.
Qed.

Lemma on_circle_keys (cos sin : float -> result float) (n : Z)
  (items : list (Z * Z)) (coords : Coords) :
  Forall2 (on_circle cos sin n) items coords ->
  dict_keys coords = map snd items.
Proof.
  induction 1 as [|item entry items coords O F IH]; simpl; [reflexivity|].
  destruct O as (O1 & _). now rewrite O1, IH.
Qed.

Section Layouts.
Context {Case Extra : Type}.
Context (convert : Case -> result (AllData Extra)).
Context (sfdp : Z -> str -> result str).
Context (cos sin : float -> result float).

(** C2.  For a network of at least one bus (and fewer than [2^63], the
    most a list holds), with [math.cos] and [math.sin] as documented, the
    circular layout returns a map whose keys are the bus identifiers in
    ascending order, each once; the bus at place [k] of that ascending
    list, counted from 0, has the entry at place [k] of the map, which is
    [(100 sin(theta), 100 cos(theta))] at [theta = 2 pi k / n], and both
    numbers are finite. *)
Theorem circle_layout (case : Case) (alldata : AllData Extra)
  (log : list event) :
  convert case = Ok alldata ->
  bounded_on_finite cos -> bounded_on_finite sin ->
  NoDup (dict_keys (IDtoCountmap alldata)) ->
  dict_keys (IDtoCountmap alldata) <> [] ->
  Z.of_nat (List.length (dict_keys (IDtoCountmap alldata))) < 2 ^ 63 ->
  let bus_ids := sorted (dict_keys (IDtoCountmap alldata)) in
  let n := Z.of_nat (List.length bus_ids) in
  exists coords,
    _coords_circle convert cos sin case log
    = (Ok coords, log ++ [Enter_coords_circle]) /\
    Permutation (dict_keys (IDtoCountmap alldata)) bus_ids /\
    StronglySorted Z.lt bus_ids /\
    dict_keys coords = bus_ids /\
    Forall2 (on_circle cos sin n) (enumerate bus_ids) coords /\
    (forall k bus, nth_error bus_ids k = Some bus ->
       exists p, nth_error coords k = Some (bus, p) /\
                 at_angle cos sin n (Z.of_nat k) p /\
                 is_finite (fst p) = true /\ is_finite (snd p) = true) /\
    forall k, angle k n =
              rbind (Num.float_of_int k) (fun fk =>
              rbind (Num.float_of_int n) (fun fn =>
              Ok (2 * math_pi * fk / fn)%float)).
Proof.
  intros Hc Bc Bs Nd Ne Hlen bus_ids n.
  assert (Ln : n = Z.of_nat (List.length (dict_keys (IDtoCountmap alldata))))
    by (subst n bus_ids; now rewrite sorted_length).
  destruct (circle_loop_ok cos sin Bc Bs n (enumerate bus_ids) [])
    as (coords & E & F).
  - intros k bus I. apply (enumerate_from_range 0) in I. lia.
  - lia.
  - change (enumerate bus_ids) with (enumerate_from 0 bus_ids).
    rewrite enumerate_from_snd. now apply sorted_NoDup.
  - intros k bus _ [].
  - exists coords. split; [|split; [|split; [|split; [|split; [|split]]]]].
    + rewrite (coords_circle_unfold convert cos sin case alldata log Hc).
      unfold circle_of. fold bus_ids. fold n. now rewrite E.
    + apply sorted_perm.
    + now apply sorted_strict.
    + rewrite (on_circle_keys _ _ _ _ _ F).
      apply (enumerate_from_snd 0).
    + assumption.
    + intros k bus Hk.
      pose proof (enumerate_from_nth_error 0 bus_ids k bus Hk) as Hi.
      destruct (Forall2_nth_error _ _ _ _ _ F Hi)
        as ([bus' p] & Hn & Hb & Ha & Fy & Fx).
      cbn [fst snd] in Hb, Ha, Fy, Fx. subst bus'.
      exists p. auto.
    + intros k. unfold angle. rewrite Z.max_r; [reflexivity|].
      destruct (dict_keys (IDtoCountmap alldata)); [congruence|].
      rewrite Ln. simpl List.length. lia.
Qed.

(** C10.  For a network without bus the circular layout returns the empty
    map; with [n = 0] the angle is computed with the divisor 1. *)
Theorem circle_layout_empty (case : Case) (alldata : AllData Extra)
  (log : list event) :
  convert case = Ok alldata ->
  IDtoCountmap alldata = [] ->
  _coords_circle convert cos sin case log
  = (Ok [], log ++ [Enter_coords_circle]) /\
  (forall k, angle k 0 = angle k 1) /\
  (forall k, 0 <= k < 2 ^ 63 ->
     exists theta, angle k 0 = Ok theta /\ is_finite theta = true).
Proof.
  intros Hc He. split; [|split].
  - rewrite (coords_circle_unfold convert cos sin case alldata log Hc).
    unfold circle_of. rewrite He. reflexivity.
  - reflexivity.
  - intros k Hk. apply B64.angle_finite; lia.
Qed.

(** C8.  Both strategies emit [(y, x)].  An entry of the force-directed
    map is keyed by a bus identifier that [IDtoCountmap] maps to the count
    named by a node line [node <cnt> <X> <Y>], and holds [(Y - miny,
    X - minx)].  An entry of the circular map holds [(100 sin(theta),
    100 cos(theta))] for the place [k] of its bus in the sorted list of
    identifiers. *)
Theorem layouts_emit_y_then_x (case : Case) (alldata : AllData Extra)
  (seed : Z) (log : list event) :
  convert case = Ok alldata ->
  (forall coords,
     fst (_coords_from_sfdp convert sfdp case seed log) = Ok coords ->
     exists g out minx miny,
       graph_text alldata = Ok g /\ sfdp seed g = Ok out /\
       forall bus a b, In (bus, (a, b)) coords ->
         exists cnt line X Y,
           In (bus, cnt) (IDtoCountmap alldata) /\
           In line (Str.splitlines out) /\ gives line cnt X Y /\
           a = (Y - miny)%float /\ b = (X - minx)%float) /\
  (forall coords,
     fst (_coords_circle convert cos sin case log) = Ok coords ->
     let bus_ids := sorted (dict_keys (IDtoCountmap alldata)) in
     forall bus p, In (bus, p) coords ->
       exists k, nth_error bus_ids k = Some bus /\
                 at_angle cos sin (Z.of_nat (List.length bus_ids))
                   (Z.of_nat k) p).
Proof.
  intros Hc. split.
  - intros coords H.
    destruct (coords_from_sfdp_inv convert sfdp case alldata seed log coords
                Hc H) as (g & out & Hg & Ht & E).
    destruct (coords_of_output_swapped _ _ _ E) as (minx & miny & Hs).
    exists g, out, minx, miny. auto.
  - intros coords.
    rewrite (coords_circle_unfold convert cos sin case alldata log Hc).
    cbn [fst]. intros E. cbv zeta. intros bus p Hin. unfold circle_of in E.
    destruct (circle_loop_In cos sin _ _ _ _ E bus p Hin) as [[]|(k & I & A)].
    destruct (enumerate_nth _ _ _ I) as (i & -> & N).
    exists i. auto.
Qed.
End Layouts.

(** * The orchestrator [solution_plot], repaired *)

Section Orchestrators.
Context {Case Solution Extra : Type}.
Context (convert : Case -> result (AllData Extra)).
Context (grbmap : AllData Extra -> Coords -> result (AllData Extra)).
Context (build_solution : AllData Extra -> Solution -> result Figure).
Context (sfdp : Z -> str -> result str).
Context (cos sin : float -> result float).

(** The repaired [solution_plot] without coordinates, the tool not
    installed: when the
    collaborators return and the marker sizes of the built figure convert,
    the call returns the figure with the requested width and height, the
    annotation block of [restyle] and the traces tuned. *)
Theorem solution_plot_fallback (case : Case) (solution : Solution)
  (width height : Z) (keep_obj : bool) (alldata alldata' : AllData Extra)
  (g : str) (coords : Coords) (fig : Figure) (log : list event) :
  convert case = Ok alldata ->
  graph_text alldata = Ok g ->
  sfdp 1234 g = Raise FileNotFoundError ->
  circle_of cos sin alldata = Ok coords ->
  grbmap (set_graphical alldata) coords = Ok alldata' ->
  build_solution alldata' solution = Ok fig ->
  forallb sizes_convertible (data fig) = true ->
  exists fig',
    fst (solution_plot_repaired convert grbmap build_solution sfdp cos sin
           case None solution width height keep_obj log) = Ok fig' /\
    layout_width (layout fig') = Some width /\
    layout_height (layout fig') = Some height /\
    annotations (layout fig') = annotations (layout (restyle fig keep_obj)) /\
    Forall2 tuned (data fig) (data fig').
Proof.
  intros Hc Hg Ht Hk Hm Hb Hs.
  pose proof (get_coords_raise convert sfdp cos sin case alldata g log _
                Hc Hg Ht) as G.
  cbn [tool_failure] in G.
  set (fig1 := update_axes (update_layout width height (restyle fig keep_obj))).
  destruct (tune_all_convertible (data fig1) Hs) as (trs' & E & F).
  exists {| layout := layout fig1; data := trs' |}.
  split; [|auto].
  unfold solution_plot_repaired, bind, lift. rewrite Hc, G, Hk, Hm, Hb.
  cbn [fst].
  change (_tune_traces fig1 = Ok {| layout := layout fig1; data := trs' |}).
  unfold _tune_traces. now rewrite E.
Qed.
End Orchestrators.

(** * Further properties of the layout engine *)

Section Converter.

Context {Case Extra : Type}.
Context (convert : Case -> result (AllData Extra)).
Context (sfdp : Z -> str -> result str).
Context (cos sin : float -> result float).

(** X1.  A supplied map is returned without converting the case.  Without
    one, an exception of the converter leaves [_get_coords] as it is, and
    the tool is not started; when the exception is one of the two classes
    of the [except] clause, the circular strategy is entered first, where
    the converter raises again. *)
Theorem get_coords_converter_raises (case : Case) (e : exn)
  (log : list event) :
  (forall c,
     _get_coords convert sfdp cos sin case (Some c) log = (Ok c, log)) /\
  (convert case = Raise e ->
   _get_coords convert sfdp cos sin case None log
   = (Raise e,
      if tool_failure e
      then (log ++ [Enter_coords_from_sfdp]) ++ [Enter_coords_circle]
      else log ++ [Enter_coords_from_sfdp])).
Proof.
  split; [reflexivity|]. intros H.
  unfold _get_coords, try_except, _coords_from_sfdp, _coords_circle, bind,
    emit, lift.
  rewrite H. destruct (tool_failure e); reflexivity.
Qed.

End Converter.

(** ** Node lines that name no bus *)

Lemma parses_as_node_gives (line : str) :
  parses_as_node line = true -> exists k X Y, gives line k X Y.
Proof.
  unfold parses_as_node, gives. rewrite !andb_true_iff.
  intros [[[N I] Fx] Fy].
  destruct (Num.int_of_str _) as [k|]; [|discriminate].
  destruct (Num.float_of_str (nth 2 _ _)) as [X|]; [|discriminate].
  destruct (Num.float_of_str (nth 3 _ _)) as [Y|]; [|discriminate].
  exists k, X, Y. auto.
Qed.

Lemma dict_keys_set_In {V} (k k0 : Z) (v : V) (d : dict V) :
  In k0 (dict_keys (dict_set k v d)) <-> k0 = k \/ In k0 (dict_keys d).
Proof.
  rewrite dict_keys_set. destruct (in_dec Z.eq_dec k (dict_keys d)) as [I|I].
  - split; [auto|]. intros [->|H]; assumption.
  - rewrite in_app_iff. simpl. intuition congruence.
Qed.

(** The parse loop returns when every line is passed over or read in
    full. *)
Lemma parse_loop_reads (lines : list str) (xy : dict float * dict float) :
  forallb reads_or_skips lines = true ->
  exists xy', for_each parse_line lines xy = Ok xy'.
Proof.
  revert xy. induction lines as [|line lines IH]; intros xy H.
  - exists xy. reflexivity.
  - cbn [forallb] in H. apply andb_true_iff in H. destruct H as [H1 H2].
    cbn [for_each]. unfold reads_or_skips in H1. apply orb_true_iff in H1.
    destruct xy as [x y]. destruct H1 as [H1|H1].
    + apply negb_true_iff in H1. rewrite (parse_line_other _ _ H1).
      apply IH, H2.
    + destruct (parses_as_node_gives _ H1) as (k & X & Y & G).
      rewrite (parse_line_node x y _ _ _ _ G). apply IH, H2.
Qed.

(** The keys of [x] only grow, and every node line read adds its node. *)
Lemma parse_loop_names (lines : list str) (x y x' y' : dict float) :
  for_each parse_line lines (x, y) = Ok (x', y') ->
  (forall k, In k (dict_keys x) -> In k (dict_keys x')) /\
  (forall line k X Y, In line lines -> gives line k X Y ->
     In k (dict_keys x')).
Proof.
  revert x y. induction lines as [|line lines IH]; intros x y H.
  - cbn [for_each] in H. injection H as <- <-. split; [auto|].
    intros ? ? ? ? [].
  - cbn [for_each] in H.
    destruct (parse_line (x, y) line) as [[x1 y1]|] eqn:E; [|discriminate].
    destruct (IH _ _ H) as [Hk Hl].
    destruct (parse_line_inv _ _ _ _ _ E)
      as [(N & -> & ->)|(k0 & X0 & Y0 & G0 & -> & ->)].
    + split; [assumption|]. intros l k X Y [<-|I] G; [|eauto].
      destruct G as [G _]. congruence.
    + split.
      * intros k I. apply Hk, dict_keys_set_In. auto.
      * intros l k X Y [<-|I] G; [|eauto].
        apply Hk, dict_keys_set_In. left.
        destruct G as (_ & G & _), G0 as (_ & G0 & _). congruence.
Qed.

Lemma dict_invert_None (d : dict Z) (cnt : Z) :
  ~ In cnt (dict_values d) -> dict_get cnt (dict_invert d) = None.
Proof.
  intros H. destruct (dict_get cnt (dict_invert d)) as [bus|] eqn:E;
    [|reflexivity].
  apply dict_invert_get in E. apply In_pair_values in E. contradiction.
Qed.

(** The loop over [x.items()] does not survive an item whose count is
    unknown. *)
Lemma place_loop_unknown (c2i : dict Z) (y : dict float) (minx miny : float)
  (items : list (Z * float)) (acc : Coords) (cnt : Z) (X : float) :
  In (cnt, X) items -> dict_get cnt c2i = None ->
  for_each (place c2i y minx miny) items acc = Raise KeyError.
Proof.
  intros I N.
  destruct (for_each (place c2i y minx miny) items acc) as [coords|e] eqn:E.
  - exfalso. revert acc E. induction items as [|a items IH]; intros acc E;
      [destruct I|].
    cbn [for_each] in E.
    destruct (place c2i y minx miny acc a) as [acc'|] eqn:Ea; [|discriminate].
    destruct I as [->|I]; [|eauto].
    apply place_inv in Ea. destruct Ea as (bus & Y & G & _). congruence.
  - f_equal.
    apply (for_each_raises (fun e' => e' = KeyError) _ _ _ _
             (fun s a e' _ => place_raises _ _ _ _ s a e') E).
Qed.

Lemma coords_of_output_unknown (c2i : dict Z) (out : str) (k : Z) :
  forallb reads_or_skips (Str.splitlines out) = true ->
  names out k -> dict_get k c2i = None ->
  coords_of_output c2i out = Raise KeyError.
Proof.
  intros R (line & X & Y & I & G) N. unfold coords_of_output.
  destruct (parse_loop_reads _ ([], []) R) as ([x y] & E).
  change (parse_nodes out = Ok (x, y)) in E.
  pose proof (parse_nodes_paired out x y E) as (K & _).
  unfold parse_nodes in E.
  destruct (parse_loop_names _ _ _ _ _ E) as [_ Hn].
  fold (parse_nodes out) in E. rewrite E. cbn [rbind].
  pose proof (Hn line k X Y I G) as Ik.
  destruct (In_keys_exists _ _ Ik) as (X' & IX).
  destruct x as [|px x]; [destruct IX|].
  destruct y as [|py y]; [discriminate|].
  cbn [py_min dict_values map rbind].
  eapply place_loop_unknown; eauto.
Qed.

Section UnknownNode.

Context {Case Extra : Type}.
Context (convert : Case -> result (AllData Extra)).
Context (sfdp : Z -> str -> result str).
Context (cos sin : float -> result float).

(** X2.  When every node line of the tool's answer is read in full and
    one of them names a node that is the count of no bus, the
    force-directed strategy raises [KeyError]; [_get_coords] lets it
    through and does not enter the circular strategy. *)
Theorem unknown_node_raises (case : Case) (alldata : AllData Extra)
  (g : str) (log : list event) (out : str) (k : Z) :
  convert case = Ok alldata ->
  graph_text alldata = Ok g ->
  sfdp 1234 g = Ok out ->
  forallb reads_or_skips (Str.splitlines out) = true ->
  names out k ->
  ~ In k (dict_values (IDtoCountmap alldata)) ->
  _coords_from_sfdp convert sfdp case 1234 log
  = (Raise KeyError, after_sfdp g 1234 log) /\
  _get_coords convert sfdp cos sin case None log
  = (Raise KeyError, after_sfdp g 1234 log).
Proof.
  intros Hc Hg Hs R Hk Hn.
  pose proof (coords_of_output_unknown (dict_invert (IDtoCountmap alldata))
                out k R Hk (dict_invert_None _ _ Hn)) as E.
  split.
  - rewrite (coords_from_sfdp_unfold convert sfdp case alldata g 1234 log
               Hc Hg).
    rewrite Hs. cbn [rbind]. now rewrite E.
  - rewrite (get_coords_answer convert sfdp cos sin case alldata g log out
               Hc Hg Hs).
    now rewrite E.
Qed.

End UnknownNode.

(** ** The inverse map [CountToID] *)

Lemma NoDup_values_unique {V} (d : dict V) (k1 k2 : Z) (v : V) :
  NoDup (dict_values d) -> In (k1, v) d -> In (k2, v) d -> k1 = k2.
Proof.
  induction d as [|[k0 v0] d IH]; intros N I1 I2; [destruct I1|].
  cbn [dict_values map snd] in N. inversion N as [|? ? Hn Hd]; subst.
  destruct I1 as [E1|I1], I2 as [E2|I2].
  - congruence.
  - exfalso. apply Hn. injection E1 as _ ->. eapply In_pair_values; eauto.
  - exfalso. apply Hn. injection E2 as _ ->. eapply In_pair_values; eauto.
  - now apply IH.
Qed.

(** X3.  On a map that gives each bus one count and no count twice,
    [CountToID] undoes [IDtoCount]: the count of a bus leads back to that
    bus, and to no other. *)
Theorem count_to_id_round_trip (d : dict Z) (bus cnt : Z) :
  NoDup (dict_keys d) -> NoDup (dict_values d) ->
  (dict_get bus d = Some cnt <-> dict_get cnt (dict_invert d) = Some bus).
Proof.
  intros Nk Nv. split; intros H.
  - apply dict_get_In in H.
    destruct (dict_get cnt (dict_invert d)) as [bus'|] eqn:E.
    + f_equal. apply dict_invert_get in E.
      exact (NoDup_values_unique d bus' bus cnt Nv E H).
    + exfalso. eapply dict_invert_keys; [|exact E].
      eapply In_pair_values; eauto.
  - apply dict_invert_get in H. now apply In_dict_get.
Qed.

(** ** Which buses the force-directed strategy places *)

Lemma coords_of_output_inv (c2i : dict Z) (out : str) (coords : Coords) :
  coords_of_output c2i out = Ok coords ->
  exists x y minx miny,
    parse_nodes out = Ok (x, y) /\
    py_min (dict_values x) = Ok minx /\ py_min (dict_values y) = Ok miny /\
    for_each (place c2i y minx miny) x [] = Ok coords.
Proof.
  unfold coords_of_output.
  destruct (parse_nodes out) as [[x y]|] eqn:E; cbn [rbind]; [|discriminate].
  destruct (py_min (dict_values x)) as [minx|] eqn:Ex; cbn [rbind];
    [|discriminate].
  destruct (py_min (dict_values y)) as [miny|] eqn:Ey; cbn [rbind];
    [|discriminate].
  intros Ec. exists x, y, minx, miny. auto.
Qed.

Lemma coords_of_output_names (d : dict Z) (out : str) (coords : Coords)
  (bus cnt : Z) :
  NoDup (dict_keys d) -> NoDup (dict_values d) ->
  coords_of_output (dict_invert d) out = Ok coords ->
  dict_get bus d = Some cnt ->
  (names out cnt <-> dict_get bus coords <> None).
Proof.
  intros Nk Nv Ec Hb. split.
  - intros (line & X & Y & I & G).
    destruct (coords_of_output_inv _ _ _ Ec)
      as (x & y & minx & miny & E & _ & _ & El).
    pose proof (parse_nodes_paired out x y E) as (_ & Nx & _).
    unfold parse_nodes in E.
    destruct (parse_loop_names _ _ _ _ _ E) as [_ Hn].
    destruct (In_keys_exists _ _ (Hn line cnt X Y I G)) as (X' & IX).
    destruct (place_loop_get _ _ _ _ _ _ _ Nx
                (fun c1 c2 b => dict_invert_injective d c1 c2 b Nk) El
                cnt X' IX) as (bus' & Y' & Gc & _ & Gb).
    apply dict_invert_get in Gc. apply dict_get_In in Hb.
    rewrite (NoDup_values_unique d bus bus' cnt Nv Hb Gc), Gb. discriminate.
  - intros H. destruct (dict_get bus coords) as [[a b]|] eqn:E; [|congruence].
    apply dict_get_In in E.
    destruct (coords_of_output_swapped d out coords Ec) as (minx & miny & S).
    destruct (S bus a b E) as (cnt' & line & X & Y & Id & Il & G & _).
    apply (In_dict_get _ _ _ Nk) in Id.
    assert (cnt' = cnt) as -> by congruence.
    exists line, X, Y. auto.
Qed.

(** Under the hypotheses on the node lines, every entry of the map is
    the shift of two finite numbers by no more than themselves. *)
Lemma coords_of_output_nonneg (d : dict Z) (out : str) (coords : Coords) :
  forallb (node_ok d) (Str.splitlines out) = true ->
  coords_of_output (dict_invert d) out = Ok coords ->
  forall bus a b, In (bus, (a, b)) coords ->
    (0 <=? a)%float = true /\ (0 <=? b)%float = true.
Proof.
  intros Hok Ec bus a b Hin.
  destruct (coords_of_output_inv _ _ _ Ec)
    as (x & y & minx & miny & E & Emx & Emy & El).
  pose proof (parse_nodes_paired out x y E) as (K & Nx & P).
  assert (Ny : NoDup (dict_keys y)) by (now rewrite <- K).
  assert (Fx : forall k X Y, In (k, X) x -> In (k, Y) y ->
            is_finite X = true /\ is_finite Y = true).
  { intros k X Y IX IY.
    destruct (P k X Y (In_dict_get _ _ _ Nx IX) (In_dict_get _ _ _ Ny IY))
      as (line & Hl & G).
    rewrite forallb_forall in Hok.
    now destruct (node_ok_gives d line k X Y (Hok _ Hl) G) as (_ & ? & ?). }
  assert (Px : forall k X, In (k, X) x -> exists Y, In (k, Y) y).
  { intros k X I. apply In_keys_exists. rewrite <- K.
    eapply In_pair_keys; eauto. }
  assert (Py : forall k Y, In (k, Y) y -> exists X, In (k, X) x).
  { intros k Y I. apply In_keys_exists. rewrite K.
    eapply In_pair_keys; eauto. }
  destruct (place_loop_In _ _ _ _ _ _ _ El bus (a, b) Hin)
    as [[]|(cnt & X & Y & I & Gy & _ & [= -> ->])].
  apply dict_get_In in Gy.
  destruct (Fx cnt X Y I Gy) as [FX FY].
  destruct (py_min_finite (dict_values x)) as (mx & Emx' & Imx & Lx).
  { destruct x; [destruct I|discriminate]. }
  { intros v Hv. destruct (In_values_exists _ _ Hv) as (k & Ik).
    destruct (Px k v Ik) as (Y' & IY'). now destruct (Fx k v Y' Ik IY'). }
  destruct (py_min_finite (dict_values y)) as (my & Emy' & Imy & Ly).
  { destruct y; [destruct Gy|discriminate]. }
  { intros v Hv. destruct (In_values_exists _ _ Hv) as (k & Ik).
    destruct (Py k v Ik) as (X' & IX'). now destruct (Fx k X' v IX' Ik). }
  assert (mx = minx) as -> by congruence.
  assert (my = miny) as -> by congruence.
  assert (Fminx : is_finite minx = true).
  { destruct (In_values_exists _ _ Imx) as (k & Ik).
    destruct (Px k minx Ik) as (Y' & IY'). now destruct (Fx k minx Y' Ik IY'). }
  assert (Fminy : is_finite miny = true).
  { destruct (In_values_exists _ _ Imy) as (k & Ik).
    destruct (Py k miny Ik) as (X' & IX'). now destruct (Fx k X' miny IX' Ik). }
  split; apply B64.sub_nonneg; auto.
  - apply Ly. eapply In_pair_values; eauto.
  - apply Lx. eapply In_pair_values; eauto.
Qed.

Section Placed.

Context {Case Extra : Type}.
Context (convert : Case -> result (AllData Extra)).
Context (sfdp : Z -> str -> result str).

(** X4.  When the force-directed strategy returns a map for a network
    that gives each bus one count and no count twice, a bus has an entry
    exactly when a node line of the tool's answer names its count: a bus
    that the tool leaves out gets no position. *)
Theorem sfdp_places_named_nodes (case : Case) (alldata : AllData Extra)
  (seed : Z) (log : list event) (coords : Coords) :
  convert case = Ok alldata ->
  NoDup (dict_keys (IDtoCountmap alldata)) ->
  NoDup (dict_values (IDtoCountmap alldata)) ->
  fst (_coords_from_sfdp convert sfdp case seed log) = Ok coords ->
  exists g out,
    graph_text alldata = Ok g /\ sfdp seed g = Ok out /\
    forall bus cnt, dict_get bus (IDtoCountmap alldata) = Some cnt ->
      (names out cnt <-> dict_get bus coords <> None).
Proof.
  intros Hc Nk Nv H.
  destruct (coords_from_sfdp_inv convert sfdp case alldata seed log coords
              Hc H) as (g & out & Hg & Hs & Ec).
  exists g, out. split; [assumption|]. split; [assumption|].
  intros bus cnt Hb.
  exact (coords_of_output_names (IDtoCountmap alldata) out coords bus cnt
           Nk Nv Ec Hb).
Qed.

(** X5.  When every node line names a count of the network at a finite
    position, no coordinate of the map that the force-directed strategy
    returns is negative (or a NaN). *)
Theorem sfdp_coords_nonnegative (case : Case) (alldata : AllData Extra)
  (g : str) (seed : Z) (log : list event) (out : str) (coords : Coords) :
  convert case = Ok alldata ->
  graph_text alldata = Ok g ->
  sfdp seed g = Ok out ->
  forallb (node_ok (IDtoCountmap alldata)) (Str.splitlines out) = true ->
  fst (_coords_from_sfdp convert sfdp case seed log) = Ok coords ->
  forall bus a b, In (bus, (a, b)) coords ->
    (0 <=? a)%float = true /\ (0 <=? b)%float = true.
Proof.
  intros Hc Hg Hs Hok H.
  destruct (coords_from_sfdp_inv convert sfdp case alldata seed log coords
              Hc H) as (g' & out' & Hg' & Hs' & Ec).
  assert (g' = g) as -> by congruence.
  assert (out' = out) as -> by congruence.
  exact (coords_of_output_nonneg (IDtoCountmap alldata) out coords Hok Ec).
Qed.

End Placed.

(** ** The circular layout and the order of the buses *)

Lemma insert_sorted_comm (a b : Z) (l : list Z) :
  insert_sorted a (insert_sorted b l) = insert_sorted b (insert_sorted a l).
Proof.
  induction l as [|c l IH]; cbn [insert_sorted].
  - destruct (a <=? b) eqn:E1, (b <=? a) eqn:E2; try reflexivity.
    + apply Z.leb_le in E1, E2. now replace b with a by lia.
    + apply Z.leb_gt in E1, E2. lia.
  - destruct (b <=? c) eqn:Eb, (a <=? c) eqn:Ea; cbn [insert_sorted];
      rewrite ?Ea, ?Eb.
    + destruct (a <=? b) eqn:E1, (b <=? a) eqn:E2; try reflexivity.
      * apply Z.leb_le in E1, E2. now replace b with a by lia.
      * apply Z.leb_gt in E1, E2. lia.
    + assert (E : (a <=? b) = false) by
        (apply Z.leb_gt; apply Z.leb_le in Eb; apply Z.leb_gt in Ea; lia).
      now rewrite E.
    + assert (E : (b <=? a) = false) by
        (apply Z.leb_gt; apply Z.leb_le in Ea; apply Z.leb_gt in Eb; lia).
      now rewrite E.
    + now rewrite IH.
Qed.

(** [sorted] forgets the order of its argument. *)
Lemma sorted_of_permutation (l1 l2 : list Z) :
  Permutation l1 l2 -> sorted l1 = sorted l2.
Proof.
  induction 1 as [|a l1 l2 _ IH|a b l|l1 l2 l3 _ IH1 _ IH2].
  - reflexivity.
  - unfold sorted in *. cbn [fold_right]. now rewrite IH.
  - unfold sorted. cbn [fold_right]. apply insert_sorted_comm.
  - congruence.
Qed.

Section CircleOrder.

Context {Case Extra : Type}.
Context (convert : Case -> result (AllData Extra)).
Context (cos sin : float -> result float).

(** X6.  The circular layout depends on the bus identifiers alone: two
    cases whose networks hold the same identifiers, in whatever order and
    with whatever counts and branches, get the same result. *)
Theorem circle_layout_ignores_order (case1 case2 : Case)
  (alldata1 alldata2 : AllData Extra) (log : list event) :
  convert case1 = Ok alldata1 ->
  convert case2 = Ok alldata2 ->
  Permutation (dict_keys (IDtoCountmap alldata1))
              (dict_keys (IDtoCountmap alldata2)) ->
  _coords_circle convert cos sin case1 log
  = _coords_circle convert cos sin case2 log.
Proof.
  intros H1 H2 P.
  rewrite (coords_circle_unfold convert cos sin case1 alldata1 log H1).
  rewrite (coords_circle_unfold convert cos sin case2 alldata2 log H2).
  f_equal. unfold circle_of.
  now rewrite (sorted_of_permutation _ _ P).
Qed.

End CircleOrder.

(** * Further properties of the figure post-processor *)

(** ** What the trace-tuning pass raises *)

(** A loop raises [e0] when one of its turns raises it whatever the state,
    and no turn raises anything else. *)
Lemma for_each_some_raise {A S} (body : S -> A -> result S) (l : list A)
  (acc : S) (e0 : exn) (a : A) :
  In a l -> (forall s, body s a = Raise e0) ->
  (forall s b e, In b l -> body s b = Raise e -> e = e0) ->
  for_each body l acc = Raise e0.
Proof.
  revert acc. induction l as [|b l IH]; intros acc I Ha Hb; [destruct I|].
  cbn [for_each]. destruct (body acc b) as [s'|e] eqn:E; cbn [rbind].
  - destruct I as [->|I]; [rewrite Ha in E; discriminate|].
    apply IH; [assumption|assumption|].
    intros s c e Ic. apply Hb. now right.
  - f_equal. eapply Hb; [now left|exact E].
Qed.

Lemma float_of_int_raises (z : Z) (e : exn) :
  Num.float_of_int z = Raise e -> e = OverflowError.
Proof.
  unfold Num.float_of_int.
  destruct (binary_normalize prec emax z 0 false); congruence.
Qed.

Lemma py_float_raises (v : pyval) (e : exn) :
  py_float v = Raise e ->
  e = TypeError \/ e = ValueError \/ e = OverflowError.
Proof.
  destruct v as [ |b|z|f|s|l|l]; cbn [py_float]; intros H;
    try (injection H as <-; now auto); try discriminate.
  - right. right. eapply float_of_int_raises; eauto.
  - right. left. eapply float_of_str_raises; eauto.
Qed.

(** The values that [bump] cannot handle are the ints too large for a
    float. *)
Lemma convertible_false (v : pyval) :
  convertible v = false <->
  exists z, v = VInt z /\ Num.float_of_int z = Raise OverflowError.
Proof.
  unfold convertible. split.
  - destruct v as [ |b|z|f|s|l|l]; cbn [py_float type_or_value_error];
      try discriminate.
    + destruct (Num.float_of_int z) as [f|e] eqn:E; [discriminate|].
      intros _. exists z. split; [reflexivity|].
      now rewrite (float_of_int_raises z e E) in E.
    + destruct (Num.float_of_str s) as [f|e] eqn:E; [discriminate|].
      now rewrite (float_of_str_raises s e E).
  - intros (z & -> & E). cbn [py_float]. rewrite E. reflexivity.
Qed.

Lemma bump_raises (v : pyval) (e : exn) :
  bump v = Raise e -> e = OverflowError.
Proof.
  unfold bump. destruct (py_float v) as [f|e'] eqn:E; cbn [rbind];
    [discriminate|].
  destruct (type_or_value_error e') eqn:T; cbn [rbind]; [discriminate|].
  intros [= <-].
  destruct (py_float_raises v e' E) as [-> | [-> | ->]];
    [discriminate|discriminate|reflexivity].
Qed.

Lemma bump_not_convertible (v : pyval) :
  convertible v = false -> bump v = Raise OverflowError.
Proof.
  intros H. destruct (bump v) as [r|e] eqn:E.
  - exfalso. revert H E. unfold convertible, bump.
    destruct (py_float v) as [f|e']; [discriminate|].
    intros ->. discriminate.
  - now rewrite (bump_raises v e E).
Qed.

Lemma bump_all_not_convertible (l : list pyval) :
  forallb convertible l = false -> bump_all l = Raise OverflowError.
Proof.
  intros H.
  assert (X : exists v, In v l /\ convertible v = false).
  { induction l as [|v l IH]; [discriminate|].
    cbn [forallb] in H. apply andb_false_iff in H. destruct H as [H|H].
    - exists v. split; [now left|assumption].
    - destruct (IH H) as (v' & I & C). exists v'.
      split; [now right|assumption]. }
  destruct X as (v & I & C). unfold bump_all.
  apply (for_each_some_raise _ l [] OverflowError v I).
  - intros s. now rewrite (bump_not_convertible v C).
  - intros s b e _. destruct (bump b) as [r|e'] eqn:E; cbn [rbind];
      [discriminate|].
    intros [= <-]. eapply bump_raises; eauto.
Qed.

Lemma tune_line_marker (m : str) (tr : Trace) :
  marker (tune_line m tr) = marker tr.
Proof.
  unfold tune_line. destruct (Str.contains "lines" m); [|reflexivity].
  destruct (line tr) as [[[w|]]|]; reflexivity.
Qed.

Lemma tune_trace_not_convertible (tr : Trace) :
  sizes_convertible tr = false -> tune_trace tr = Raise OverflowError.
Proof.
  unfold sizes_convertible, tune_trace. fold (mode_of tr).
  unfold tune_marker. rewrite tune_line_marker.
  destruct (marker tr) as [[[s|]]|]; try discriminate.
  destruct (Str.contains "markers" (mode_of tr)); [|discriminate].
  unfold tune_size.
  destruct s as [ |b|z|f|t|l|l]; intros H;
    try (rewrite (bump_not_convertible _ H); reflexivity);
    rewrite (bump_all_not_convertible l H); reflexivity.
Qed.

Lemma tune_all_not_convertible (trs : list Trace) :
  forallb sizes_convertible trs = false -> tune_all trs = Raise OverflowError.
Proof.
  intros H.
  assert (X : exists tr, In tr trs /\ sizes_convertible tr = false).
  { induction trs as [|tr trs IH]; [discriminate|].
    cbn [forallb] in H. apply andb_false_iff in H. destruct H as [H|H].
    - exists tr. split; [now left|assumption].
    - destruct (IH H) as (tr' & I & C). exists tr'.
      split; [now right|assumption]. }
  destruct X as (tr & I & C). unfold tune_all.
  apply (for_each_some_raise _ trs [] OverflowError tr I).
  - intros s. now rewrite (tune_trace_not_convertible tr C).
  - intros s b e _. destruct (tune_trace b) as [r|e'] eqn:E; cbn [rbind];
      [discriminate|].
    intros [= <-].
    destruct (sizes_convertible b) eqn:Cb.
    + destruct (tune_trace_convertible b Cb) as (b' & Eb & _). congruence.
    + rewrite (tune_trace_not_convertible b Cb) in E. congruence.
Qed.

(** X7.  The trace-tuning pass returns exactly when no marker size that
    it treats is an int too large for a float, and then with the layout
    untouched and every trace tuned; otherwise it raises [OverflowError],
    the only exception it can raise. *)
Theorem tune_traces_outcome (fig : Figure) :
  (if forallb sizes_convertible (data fig)
   then exists trs',
          _tune_traces fig = Ok {| layout := layout fig; data := trs' |} /\
          Forall2 tuned (data fig) trs'
   else _tune_traces fig = Raise OverflowError) /\
  (forall v, convertible v = false <->
             exists z, v = VInt z /\ Num.float_of_int z = Raise OverflowError).
Proof.
  split; [|exact convertible_false].
  unfold _tune_traces.
  destruct (forallb sizes_convertible (data fig)) eqn:H.
  - destruct (tune_all_convertible _ H) as (trs' & E & F).
    exists trs'. rewrite E. auto.
  - now rewrite (tune_all_not_convertible _ H).
Qed.

(** ** Where the tuned widths and sizes saturate *)

Lemma clamp_cases (lo hi v : float) :
  (lo <=? hi)%float = true ->
  ((v <? lo)%float = true \/ is_nan v = true -> clamp lo hi v = lo) /\
  ((hi <? v)%float = true -> clamp lo hi v = hi) /\
  ((lo <=? v)%float = true -> (v <=? hi)%float = true ->
   (clamp lo hi v =? v)%float = true).
Proof.
  intros H. destruct (B64.leb_not_nan _ _ H) as [Nlo Nhi].
  pose proof (B64.leb_nlt _ _ H) as Hhl.
  unfold clamp, max2, min2. split; [|split].
  - intros C.
    assert (E : (lo <? v)%float = false).
    { destruct C as [C|C].
      - apply B64.leb_nlt, B64.ltb_leb, C.
      - destruct (lo <? v)%float eqn:E; [|reflexivity].
        destruct (B64.ltb_not_nan _ _ E). congruence. }
    now rewrite E, Hhl.
  - intros C. destruct (B64.ltb_not_nan _ _ C) as [_ Nv].
    assert (E : (lo <? v)%float = true).
    { destruct (lo <? v)%float eqn:E; [reflexivity|].
      pose proof (B64.nlt_leb _ _ Nlo Nv E) as L.
      pose proof (B64.ltb_leb_trans _ _ _ C L). congruence. }
    now rewrite E, C.
  - intros L U. destruct (B64.leb_not_nan _ _ L) as [_ Nv].
    destruct (lo <? v)%float eqn:E.
    + rewrite (B64.leb_nlt _ _ U).
      apply B64.leb_nlt_eqb; [now apply B64.leb_refl|apply B64.ltb_irrefl].
    + rewrite Hhl. apply B64.leb_nlt_eqb.
      * now apply B64.nlt_leb.
      * now apply B64.leb_nlt.
Qed.

(** X8.  The new width of a line is the old one scaled by 1.08 when that
    lies between 0.8 and 2.2; it is 0.8 when the scaled width is smaller or
    is a NaN, and 2.2 when it is larger.  The new size of a marker is
    the old one scaled by 1.12 and cut in the same way at 6 and 18. *)
Theorem tuning_saturates :
  (forall w,
     let s := (or_default 1 (py_float w) * 1.08)%float in
     ((s <? 0.8)%float = true \/ is_nan s = true -> tune_width w = 0.8%float) /\
     ((2.2 <? s)%float = true -> tune_width w = 2.2%float) /\
     ((0.8 <=? s)%float = true -> (s <=? 2.2)%float = true ->
      (tune_width w =? s)%float = true)) /\
  (forall v r, bump v = Ok r ->
     let s := (or_default 6 (py_float v) * 1.12)%float in
     ((s <? 6)%float = true \/ is_nan s = true -> r = 6%float) /\
     ((18 <? s)%float = true -> r = 18%float) /\
     ((6 <=? s)%float = true -> (s <=? 18)%float = true ->
      (r =? s)%float = true)).
Proof.
  split.
  - intros w s.
    assert (E : tune_width w = clamp 0.8 2.2 s).
    { unfold tune_width, s. destruct (py_float w); reflexivity. }
    rewrite E. apply clamp_cases. reflexivity.
  - intros v r Hb s.
    assert (E : r = clamp 6 18 s).
    { revert Hb. unfold bump, s.
      destruct (py_float v) as [f|e]; cbn [rbind or_default].
      - now intros [= <-].
      - destruct (type_or_value_error e); cbn [rbind]; [|discriminate].
        now intros [= <-]. }
    rewrite E. apply clamp_cases. reflexivity.
Qed.

(** ** The annotation pass on its own result *)

(** Stripping on the left leaves the end of the text in place. *)
Lemma lstrip_last (u : str) (c : N) :
  Str.is_space c = false ->
  exists w, Str.lstrip (u ++ [c])%list = (w ++ [c])%list.
Proof.
  intros H. induction u as [|a u IH].
  - exists []. cbn [List.app Str.lstrip]. now rewrite H.
  - cbn [List.app Str.lstrip]. destruct (Str.is_space a); [exact IH|].
    now exists (a :: u).
Qed.

(** [strip] keeps a first character that is no white space. *)
Lemma strip_head (c : N) (r : str) :
  Str.is_space c = false ->
  exists r', Str.strip (c :: r) = c :: r'.
Proof.
  intros H. unfold Str.strip. cbn [Str.lstrip]. rewrite H.
  unfold Str.rstrip. cbn [rev].
  destruct (lstrip_last (rev r) c H) as (w & ->).
  rewrite rev_unit. now exists (rev w).
Qed.

(** The block that [_restyle_annotations] installs starts with [<] or with
    [N], whatever the objective text. *)
Lemma block_text_head (obj_text : option str) :
  exists c r, block_text obj_text = c :: r /\
              Str.is_space c = false /\ c <> 79%N.
Proof.
  destruct obj_text as [[|c t]|].
  - exists 78%N. eexists. split; [reflexivity|].
    split; [reflexivity|discriminate].
  - exists 60%N. eexists. split; [reflexivity|].
    split; [reflexivity|discriminate].
  - exists 78%N. eexists. split; [reflexivity|].
    split; [reflexivity|discriminate].
Qed.

Lemma block_not_objective (obj_text : option str) :
  objective (block (block_text obj_text)) = false.
Proof.
  unfold objective. cbn [text block].
  destruct (block_text_head obj_text) as (c & r & -> & Hs & Hc).
  destruct (strip_head c r Hs) as (r' & ->).
  change (Str.startswith "OBJ" (c :: r'))
    with ((79 =? c)%N && Str.startswith "BJ" r').
  destruct (N.eqb_spec 79 c) as [E|E]; [now subst|reflexivity].
Qed.

(** X9.  The annotation pass does not recognise its own block: run on a
    figure that it has already treated, it leaves the fixed legend alone,
    and an objective line kept by the first run is lost. *)
Theorem restyle_twice (fig : Figure) (keep1 keep2 : bool) :
  annotations (layout (restyle (restyle fig keep1) keep2))
  = [block (Str.join "<br>" legend_lines)] /\
  data (restyle (restyle fig keep1) keep2) = data fig.
Proof.
  split; [|reflexivity].
  assert (E : annotations (layout (restyle fig keep1))
              = [block (block_text
                          (if keep1
                           then find_obj_text (annotations (layout fig))
                           else None))]) by reflexivity.
  unfold restyle at 1. rewrite E.
  rewrite (find_obj_text_none
             [block (block_text
                       (if keep1
                        then find_obj_text (annotations (layout fig))
                        else None))]).
  - destruct keep2; reflexivity.
  - constructor; [apply block_not_objective|constructor].
Qed.

(** * What the parse loop reads *)

(** Lines that are no node lines do not count. *)
Lemma parse_loop_filter (lines : list str) (xy : dict float * dict float) :
  for_each parse_line lines xy
  = for_each parse_line
      (filter (fun line => is_node_line (Str.split line)) lines) xy.
Proof.
  revert xy. induction lines as [|line lines IH]; intros xy; [reflexivity|].
  cbn [filter for_each].
  destruct (is_node_line (Str.split line)) eqn:E.
  - cbn [for_each]. destruct (parse_line xy line); cbn [rbind]; auto.
  - rewrite (parse_line_other xy line E). cbn [rbind]. apply IH.
Qed.

Lemma coords_of_output_node_lines (c2i : dict Z) (out1 out2 : str) :
  node_lines out1 = node_lines out2 ->
  coords_of_output c2i out1 = coords_of_output c2i out2.
Proof.
  intros H. unfold coords_of_output, parse_nodes.
  rewrite (parse_loop_filter (Str.splitlines out1)),
    (parse_loop_filter (Str.splitlines out2)).
  fold (node_lines out1). fold (node_lines out2). now rewrite H.
Qed.

(** After a node line for [k], and no later one, [x] and [y] hold its
    position for [k]. *)
Lemma parse_loop_last (pre post : list str) (line : str) (k : Z)
  (X Y : float) (xy : dict float * dict float) (x y : dict float) :
  gives line k X Y ->
  (forall l X' Y', In l post -> ~ gives l k X' Y') ->
  for_each parse_line (pre ++ line :: post) xy = Ok (x, y) ->
  dict_get k x = Some X /\ dict_get k y = Some Y.
Proof.
  intros G Hp. rewrite for_each_app.
  destruct (for_each parse_line pre xy) as [[x0 y0]|]; cbn [rbind];
    [|discriminate].
  cbn [for_each]. rewrite (parse_line_node x0 y0 line k X Y G). cbn [rbind].
  assert (L : forall x1 y1,
            dict_get k x1 = Some X /\ dict_get k y1 = Some Y ->
            for_each parse_line post (x1, y1) = Ok (x, y) ->
            dict_get k x = Some X /\ dict_get k y = Some Y).
  { clear x0 y0. induction post as [|l post IH]; intros x1 y1 H E.
    - cbn [for_each] in E. now injection E as <- <-.
    - cbn [for_each] in E.
      destruct (parse_line (x1, y1) l) as [[x2 y2]|] eqn:El; cbn [rbind] in E;
        [|discriminate].
      apply (IH (fun l' X' Y' I => Hp l' X' Y' (or_intror I)) x2 y2);
        [|assumption].
      destruct (parse_line_inv _ _ _ _ _ El)
        as [(_ & -> & ->)|(k' & X' & Y' & G' & -> & ->)]; [assumption|].
      assert (k <> k').
      { intros <-. apply (Hp l X' Y'); [now left|assumption]. }
      now rewrite !dict_get_set_other. }
  apply L. now rewrite !dict_get_set_same.
Qed.

Section ParseLoop.

Context {Case Extra : Type}.
Context (convert : Case -> result (AllData Extra)).

(** X10.  The force-directed strategy reads the node lines of the tool's
    answer and nothing else: two answers with the same node lines, in the
    same order, give the same result, be it a map or an exception. *)
Theorem sfdp_reads_node_lines_only (sfdp1 sfdp2 : Z -> str -> result str)
  (case : Case) (alldata : AllData Extra) (g : str) (seed : Z)
  (log : list event) (out1 out2 : str) :
  convert case = Ok alldata ->
  graph_text alldata = Ok g ->
  sfdp1 seed g = Ok out1 ->
  sfdp2 seed g = Ok out2 ->
  node_lines out1 = node_lines out2 ->
  _coords_from_sfdp convert sfdp1 case seed log
  = _coords_from_sfdp convert sfdp2 case seed log.
Proof.
  intros Hc Hg H1 H2 Hn.
  rewrite (coords_from_sfdp_unfold convert sfdp1 case alldata g seed log
             Hc Hg).
  rewrite (coords_from_sfdp_unfold convert sfdp2 case alldata g seed log
             Hc Hg).
  rewrite H1, H2. cbn [rbind].
  now rewrite (coords_of_output_node_lines _ out1 out2 Hn).
Qed.

(** X11.  When several node lines name the same node, the last one
    decides: in the map returned, the bus of that node sits at the
    position of the last line, shifted by the two minima. *)
Theorem last_node_line_wins (sfdp : Z -> str -> result str)
  (case : Case) (alldata : AllData Extra) (g : str) (seed : Z)
  (log : list event) (out : str) (coords : Coords) (pre post : list str)
  (line : str) (k : Z) (X Y : float) :
  convert case = Ok alldata ->
  NoDup (dict_keys (IDtoCountmap alldata)) ->
  graph_text alldata = Ok g ->
  sfdp seed g = Ok out ->
  fst (_coords_from_sfdp convert sfdp case seed log) = Ok coords ->
  Str.splitlines out = pre ++ line :: post ->
  gives line k X Y ->
  (forall l X' Y', In l post -> ~ gives l k X' Y') ->
  exists bus x y minx miny,
    dict_get k (dict_invert (IDtoCountmap alldata)) = Some bus /\
    parse_nodes out = Ok (x, y) /\
    py_min (dict_values x) = Ok minx /\ py_min (dict_values y) = Ok miny /\
    dict_get bus coords = Some (Y - miny, X - minx)%float.
Proof.
  intros Hc Nk Hg Hs H Hl G Hp. revert H.
  rewrite (coords_from_sfdp_unfold convert sfdp case alldata g seed log
             Hc Hg), Hs.
  cbn [fst rbind]. intros Ec.
  destruct (coords_of_output_inv _ _ _ Ec)
    as (x & y & minx & miny & E & Emx & Emy & El).
  pose proof (parse_nodes_paired out x y E) as (_ & Nx & _).
  pose proof E as E'. unfold parse_nodes in E'. rewrite Hl in E'.
  destruct (parse_loop_last pre post line k X Y _ x y G Hp E') as [Gx Gy].
  destruct (place_loop_get _ _ _ _ _ _ _ Nx
              (fun c1 c2 b => dict_invert_injective _ c1 c2 b Nk) El
              k X (dict_get_In _ _ _ Gx)) as (bus & Y' & Gc & Gy' & Gb).
  assert (Y' = Y) as -> by congruence.
  exists bus, x, y, minx, miny. auto 6.
Qed.

End ParseLoop.

(** * The first bus of the circular layout *)

(** The bus of rank 0 is at the angle 0, whatever the number of buses. *)
Lemma angle_zero (n : Z) : n < 2 ^ 63 -> angle 0 n = Ok 0%float.
Proof.
  intros Hn. unfold angle.
  destruct (B64.float_of_int_small (Z.max 1 n) ltac:(lia)) as (fn & En & Sn).
  rewrite En.
  change (Num.float_of_int 0) with (@Ok float 0%float). cbn [rbind].
  change (2 * math_pi * 0)%float with 0%float.
  f_equal. apply Prim2SF_inj. rewrite div_spec, Sn.
  change (Prim2SF 0) with (S754_zero false).
  pose proof (B64.binary_normalize_sign (Z.max 1 n) 0 ltac:(lia)) as Hs.
  pose proof (B64.binary_normalize_above (Z.max 1 n) ltac:(lia)) as Ha.
  destruct (binary_normalize prec emax (Z.max 1 n) 0 false) as [s|s| |s m e];
    cbn [has_sign above] in Hs, Ha; try contradiction; subst s; reflexivity.
Qed.

Lemma circle_loop_untouched (cos sin : float -> result float) (n : Z)
  (items : list (Z * Z)) (acc coords : Coords) (bus : Z) :
  for_each (place_on_circle cos sin n 100) items acc = Ok coords ->
  (forall k b, In (k, b) items -> b <> bus) ->
  dict_get bus coords = dict_get bus acc.
Proof.
  revert acc. induction items as [|[k b] items IH]; intros acc E H.
  - cbn [for_each] in E. now injection E as <-.
  - cbn [for_each] in E.
    destruct (place_on_circle cos sin n 100 acc (k, b)) as [acc'|] eqn:Ea;
      cbn [rbind] in E; [|discriminate].
    destruct (place_on_circle_inv _ _ _ _ _ _ _ Ea) as (p & _ & ->).
    rewrite (IH _ E) by (intros k' b' I; apply (H k' b'); now right).
    apply dict_get_set_other. intros <-.
    apply (H k bus); [now left|reflexivity].
Qed.

(** The smallest element of a list heads its sorted version. *)
Lemma sorted_head (l : list Z) (a : Z) :
  NoDup l -> In a l -> (forall b, In b l -> a <= b) ->
  exists rest, sorted l = a :: rest /\ ~ In a rest.
Proof.
  intros N I M.
  pose proof (sorted_strict l N) as S. pose proof (sorted_perm l) as P.
  destruct (sorted l) as [|h t] eqn:E.
  - apply Permutation_sym, Permutation_nil in P. subst l. destruct I.
  - inversion S as [|? ? St Hh]; subst. rewrite Forall_forall in Hh.
    assert (Ih : In h l)
      by (eapply Permutation_in; [apply Permutation_sym, P|now left]).
    pose proof (M h Ih) as Le.
    destruct (Permutation_in a P I) as [->|It].
    + exists t. split; [reflexivity|]. intros It. specialize (Hh _ It). lia.
    + specialize (Hh _ It). lia.
Qed.

Section FirstBus.

Context {Case Extra : Type}.
Context (convert : Case -> result (AllData Extra)).
Context (cos sin : float -> result float).

(** X12.  In the map of the circular strategy the bus with the smallest
    identifier sits at the angle 0: its entry is [(100 sin(0.0),
    100 cos(0.0))], whatever the number of buses. *)
Theorem smallest_bus_at_angle_zero (case : Case) (alldata : AllData Extra)
  (log : list event) (coords : Coords) (bus : Z) :
  convert case = Ok alldata ->
  NoDup (dict_keys (IDtoCountmap alldata)) ->
  Z.of_nat (List.length (dict_keys (IDtoCountmap alldata))) < 2 ^ 63 ->
  fst (_coords_circle convert cos sin case log) = Ok coords ->
  In bus (dict_keys (IDtoCountmap alldata)) ->
  (forall b, In b (dict_keys (IDtoCountmap alldata)) -> bus <= b) ->
  exists c s,
    cos 0%float = Ok c /\ sin 0%float = Ok s /\
    dict_get bus coords = Some (100 * s, 100 * c)%float.
Proof.
  intros Hc N Hl H I M. revert H.
  rewrite (coords_circle_unfold convert cos sin case alldata log Hc).
  cbn [fst]. unfold circle_of.
  destruct (sorted_head _ bus N I M) as (rest & E & Nr).
  rewrite sorted_length.
  set (n := Z.of_nat (List.length (dict_keys (IDtoCountmap alldata)))) in *.
  rewrite E.
  change (enumerate (bus :: rest))
    with ((0, bus) :: enumerate_from 1 rest).
  cbn [for_each].
  destruct (place_on_circle cos sin n 100 [] (0, bus)) as [acc|] eqn:Ea;
    cbn [rbind]; [|discriminate].
  intros El.
  destruct (place_on_circle_inv _ _ _ _ _ _ _ Ea)
    as (p & (theta & c & s & At & Ec & Es & ->) & ->).
  rewrite (angle_zero n Hl) in At. injection At as <-.
  exists c, s. split; [assumption|]. split; [assumption|].
  rewrite (circle_loop_untouched _ _ _ _ _ _ bus El).
  - apply dict_get_set_same.
  - intros k b Ik <-. apply Nr.
    now destruct (enumerate_from_range _ _ _ _ Ik).
Qed.

End FirstBus.

(** * The names of the nodes, written and read back *)

Lemma lstrip_c_id (s : str) :
  Forall (fun c => Num.is_c_space c = false) s -> Num.lstrip_c s = s.
Proof.
  intros [|c r H _]; [reflexivity|]. cbn [Num.lstrip_c]. now rewrite H.
Qed.

Lemma strip_c_id (s : str) :
  Forall (fun c => Num.is_c_space c = false) s -> Num.strip_c s = s.
Proof.
  intros H. unfold Num.strip_c. rewrite (lstrip_c_id s H).
  rewrite lstrip_c_id by now apply Forall_rev.
  apply rev_involutive.
Qed.

(** The digits that [str] writes are ASCII and hold no white space. *)
Lemma digits_of_plain (d : Decimal.uint) :
  Num.to_ascii (Str.digits_of d) = Str.digits_of d /\
  Forall (fun c => Num.is_c_space c = false) (Str.digits_of d).
Proof.
  induction d as [|d [IH1 IH2]|d [IH1 IH2]|d [IH1 IH2]|d [IH1 IH2]
                 |d [IH1 IH2]|d [IH1 IH2]|d [IH1 IH2]|d [IH1 IH2]
                 |d [IH1 IH2]|d [IH1 IH2]];
    cbn [Str.digits_of Num.to_ascii];
    [split; constructor|..];
    (split; [cbv [N.ltb N.compare Pos.compare Pos.compare_cont];
             now rewrite IH1
            |constructor; [reflexivity|assumption]]).
Qed.

(** One digit of [digitpart_aux]: the digit [n] is appended to the number
    read so far, which is the number of [a]. *)
Ltac read_digit c n next IH :=
  change (Num.digit_of c) with (Some n);
  cbv beta iota;
  lazymatch goal with
  | |- context [10 * Z.of_N (DecimalPos.Unsigned.of_lu ?a) + n] =>
      replace (10 * Z.of_N (DecimalPos.Unsigned.of_lu a) + n)
        with (Z.of_N (DecimalPos.Unsigned.of_lu (next a)))
        by (cbn [DecimalPos.Unsigned.of_lu]; lia)
  end;
  rewrite IH; do 2 f_equal; lia.

(** The digits of [d], read after [a], give the number of [a] followed by
    [d], and are all counted. *)
Lemma digitpart_aux_digits (d a : Decimal.uint) (cnt : Z) :
  Num.digitpart_aux (Str.digits_of d)
    (Z.of_N (DecimalPos.Unsigned.of_lu a)) cnt
  = Some (Z.of_N (DecimalPos.Unsigned.of_lu (Decimal.revapp d a)),
          cnt + Z.of_nat (List.length (Str.digits_of d))).
Proof.
  revert a cnt.
  induction d as [|d IH|d IH|d IH|d IH|d IH|d IH|d IH|d IH|d IH|d IH];
    intros a cnt;
    cbn [Str.digits_of Num.digitpart_aux Decimal.revapp List.length].
  - do 2 f_equal. lia.
  - read_digit 48%N 0 Decimal.D0 IH.
  - read_digit 49%N 1 Decimal.D1 IH.
  - read_digit 50%N 2 Decimal.D2 IH.
  - read_digit 51%N 3 Decimal.D3 IH.
  - read_digit 52%N 4 Decimal.D4 IH.
  - read_digit 53%N 5 Decimal.D5 IH.
  - read_digit 54%N 6 Decimal.D6 IH.
  - read_digit 55%N 7 Decimal.D7 IH.
  - read_digit 56%N 8 Decimal.D8 IH.
  - read_digit 57%N 9 Decimal.D9 IH.
Qed.

(** The digits of a positive number: no sign, and the number back. *)
Lemma digits_of_pos (p : positive) :
  Num.sign_of (Str.digits_of (Pos.to_uint p))
  = (false, Str.digits_of (Pos.to_uint p)) /\
  Num.digitpart (Str.digits_of (Pos.to_uint p))
  = Some (Zpos p, Z.of_nat (List.length (Str.digits_of (Pos.to_uint p)))).
Proof.
  pose proof (DecimalPos.Unsigned.to_uint_nonnil p) as N.
  pose proof (DecimalPos.Unsigned.of_to p) as E.
  rewrite DecimalPos.Unsigned.of_uint_alt in E.
  pose proof (digitpart_aux_digits (Pos.to_uint p) Decimal.Nil 0) as D.
  change (Decimal.revapp (Pos.to_uint p) Decimal.Nil)
    with (Decimal.rev (Pos.to_uint p)) in D.
  rewrite E in D. cbn [Z.of_N DecimalPos.Unsigned.of_lu] in D.
  rewrite Z.add_0_l in D.
  split.
  - destruct (Pos.to_uint p); [congruence|reflexivity..].
  - rewrite <- D. destruct (Pos.to_uint p); [congruence|reflexivity..].
Qed.

(** What [str] writes for an int, [int] reads back. *)
Lemma int_of_str_of_Z (z : Z) (s : str) :
  Str.of_Z z = Ok s -> Num.int_of_str s = Ok z.
Proof.
  unfold Str.of_Z, Num.int_of_str. destruct z as [|p|p].
  - intros [= <-]. reflexivity.
  - destruct (Str.max_str_digits <? _) eqn:L; [discriminate|].
    intros [= <-].
    destruct (digits_of_plain (Pos.to_uint p)) as [A F].
    rewrite A, (strip_c_id _ F).
    destruct (digits_of_pos p) as [-> ->]. now rewrite L.
  - destruct (Str.max_str_digits <? _) eqn:L; [discriminate|].
    intros [= <-].
    destruct (digits_of_plain (Pos.to_uint p)) as [A F].
    change (Num.to_ascii (45%N :: Str.digits_of (Pos.to_uint p)))
      with (45%N :: Num.to_ascii (Str.digits_of (Pos.to_uint p))).
    rewrite A, strip_c_id by (constructor; [reflexivity|assumption]).
    cbn [Num.sign_of].
    destruct (digits_of_pos p) as [_ ->]. now rewrite L.
Qed.

Lemma In_range (a b j : Z) : a <= j < b -> In j (range a b).
Proof.
  intros H. unfold range. apply in_map_iff.
  exists (Z.to_nat (j - a)). split; [lia|].
  apply in_seq. lia.
Qed.

(** A loop of [lines.append] that ends has added one line for each item,
    and kept the lines it found. *)
Lemma append_each_inv {A} (stmt : A -> result str) (items : list A)
  (lines lines' : list str) :
  append_each stmt items lines = Ok lines' ->
  (forall l, In l lines -> In l lines') /\
  (forall a, In a items -> exists s, stmt a = Ok s /\ In s lines').
Proof.
  unfold append_each. revert lines.
  induction items as [|a items IH]; intros lines H; cbn [for_each] in H.
  - injection H as <-. split; [auto|]. intros a [].
  - destruct (stmt a) as [s|] eqn:E; cbn [rbind] in H; [|discriminate].
    destruct (IH _ H) as [K N]. split.
    + intros l I. apply K, in_or_app. now left.
    + intros b [<-|I]; [|now apply N].
      exists s. split; [assumption|].
      apply K, in_or_app. right. now left.
Qed.

(** X13.  When the graph description can be written, it holds the node
    statement of every count [j] from 1 to [numbuses], and [int] reads the
    name written there back to [j]: a node line that carries the name is
    filed under the count. *)
Theorem node_names_read_back {Extra : Type} (alldata : AllData Extra)
  (lines : list str) (j : Z) :
  graph_lines alldata = Ok lines ->
  1 <= j <= numbuses alldata ->
  exists s,
    Str.of_Z j = Ok s /\
    In ("  " ++ s ++ ";")%str lines /\
    Num.int_of_str s = Ok j.
Proof.
  intros G H. unfold graph_lines in G.
  destruct (append_each node_stmt _ _) as [l1|] eqn:E1; cbn [rbind] in G;
    [|discriminate].
  destruct (append_each edge_stmt _ l1) as [l2|] eqn:E2; cbn [rbind] in G;
    [|discriminate].
  injection G as <-.
  destruct (append_each_inv _ _ _ _ E1) as [_ N1].
  destruct (append_each_inv _ _ _ _ E2) as [K2 _].
  destruct (N1 j) as (t & Et & It); [apply In_range; lia|].
  unfold node_stmt in Et.
  destruct (Str.of_Z j) as [s|] eqn:Es; cbn [rbind] in Et; [|discriminate].
  injection Et as <-. exists s. split; [reflexivity|]. split.
  - apply in_or_app. left. now apply K2.
  - now apply int_of_str_of_Z.
Qed.

(** * The theorems at the sample data *)

Lemma cos3_bounded : bounded_on_finite Sample.cos3.
Proof.
  intros t _. unfold Sample.cos3. eexists. split; [reflexivity|].
  destruct (t =? 0)%float; [reflexivity|].
  destruct (t <? 3)%float; reflexivity.
Qed.

Lemma sin3_bounded : bounded_on_finite Sample.sin3.
Proof.
  intros t _. unfold Sample.sin3. eexists. split; [reflexivity|].
  destruct (t =? 0)%float; [reflexivity|].
  destruct (t <? 3)%float; reflexivity.
Qed.

Lemma triangle_NoDup : NoDup (dict_keys (IDtoCountmap Sample.triangle)).
Proof.
  repeat constructor; simpl; intuition discriminate.
Qed.

Lemma triangle_graph_text :
  graph_text Sample.triangle = Ok Sample.triangle_graph.
Proof. vm_compute. reflexivity. Qed.

(** The triangle without the tool: the buses 10, 20, 30 at the angles 0,
    120 and 240 degrees, as [(y, x)]. *)
Example triangle_on_circle :
  _coords_circle Sample.convert Sample.cos3 Sample.sin3 Sample.triangle []
  = (Ok [(10, (0, 100)%float);
         (20, (86.60254037844388, -49.99999999999998)%float);
         (30, (-86.60254037844383, -50.00000000000004)%float)],
     [Enter_coords_circle]).
Proof. vm_compute. reflexivity. Qed.

(** The triangle laid out by the tool: shifted to the origin, [(y, x)],
    under the bus identifiers. *)
Example triangle_by_sfdp :
  fst (_coords_from_sfdp Sample.convert (Sample.sfdp_says Sample.plain_output)
         Sample.triangle 1234 [])
  = Ok [(30, (1, 0)%float); (10, (0, 1)%float); (20, (1.75, 0.5)%float)].
Proof. vm_compute. reflexivity. Qed.

(** ** The built-ins beyond ASCII

    [float] and [int] drop only the white space of the C locale among the
    ASCII characters, read the digits of every script, and [int] refuses a
    numeral of more than 4300 digits. *)
Example float_of_odd_texts :
  Num.float_of_str [28; 50; 31]%N = Raise ValueError /\
  Num.float_of_str [0xA0; 50; 0x2003]%N = Ok 2%float /\
  Num.float_of_str [0x663; 46; 0x665]%N = Ok 3.5%float /\
  Num.float_of_str " 1_0.5e1 " = Ok 105%float /\
  Num.float_of_str "-Infinity" = Ok neg_infinity /\
  Num.float_of_str "1__0" = Raise ValueError.
Proof. repeat split; vm_compute; reflexivity. Qed.

Example int_of_odd_texts :
  Num.int_of_str [0xFF11]%N = Ok 1 /\
  Num.int_of_str [28; 50]%N = Raise ValueError /\
  Num.int_of_str [0x85; 45; 55; 0xA0]%N = Ok (-7) /\
  Num.int_of_str (List.app (repeat 48%N 4299) [49%N]) = Ok 1 /\
  Num.int_of_str (List.app (repeat 48%N 4300) [49%N]) = Raise ValueError /\
  Str.of_Z (10 ^ 4300 - 1) = Ok (repeat 57%N 4300) /\
  Str.of_Z (10 ^ 4300) = Raise ValueError.
Proof. repeat split; vm_compute; reflexivity. Qed.

(** White space and line boundaries beyond ASCII: the no-break space
    around an objective text, NEL and LINE SEPARATOR between node lines, a
    node named in full-width digits. *)
Example texts_beyond_ascii :
  find_obj_text [Sample.note (VStr (0xA0%N :: lit "OBJ 5"))] = Some (lit "OBJ 5") /\
  fst (_coords_from_sfdp Sample.convert
         (Sample.sfdp_says ("node 1 0 0 " ++ [0x2028%N] ++ "node 1 -5 nan")%str)
         Sample.one_bus 1234 [])
  = Ok [(7, (nan, 0)%float)] /\
  fst (_coords_from_sfdp Sample.convert
         (Sample.sfdp_says ("abc" ++ [0x85%N] ++ "node 1 0 0")%str)
         Sample.one_bus 1234 [])
  = Ok [(7, (0, 0)%float)] /\
  fst (_coords_from_sfdp Sample.convert
         (Sample.sfdp_says ("node " ++ [0xFF11%N] ++ " 0 0")%str)
         Sample.one_bus 1234 [])
  = Ok [(7, (0, 0)%float)] /\
  fst (_coords_from_sfdp Sample.convert
         (Sample.sfdp_says
            ("node 2 1 1" ++ newline ++ "node 1 0 0 " ++ [0x2028%N]
               ++ "node 1 9 9")%str)
         Sample.triangle 1234 [])
  = Ok [(10, (0, 0)%float); (30, (8, 8)%float)].
Proof. repeat split; vm_compute; reflexivity. Qed.

Lemma circle_layout_witness :
  exists coords,
    _coords_circle Sample.convert Sample.cos3 Sample.sin3 Sample.triangle []
    = (Ok coords, [Enter_coords_circle]) /\
    dict_keys coords = [10; 20; 30]%Z /\
    Forall2 (on_circle Sample.cos3 Sample.sin3 3)
            (enumerate [10; 20; 30]%Z) coords /\
    exists p, nth_error coords 2 = Some (30, p) /\
              at_angle Sample.cos3 Sample.sin3 3 2 p.
Proof.
  destruct (circle_layout Sample.convert Sample.cos3 Sample.sin3
              Sample.triangle Sample.triangle [] eq_refl
              cos3_bounded sin3_bounded triangle_NoDup
              ltac:(discriminate) ltac:(reflexivity))
    as (coords & E & _ & _ & K & F & R & _).
  exists coords. split; [exact E|]. split; [exact K|]. split; [exact F|].
  destruct (R 2%nat 30 eq_refl) as (p & N & A & _).
  exists p. split; [exact N|exact A].
Defined.

Lemma circle_layout_empty_witness :
  _coords_circle Sample.convert Sample.cos3 Sample.sin3 Sample.no_bus []
  = (Ok [], [Enter_coords_circle]).
Proof.
  exact (proj1 (circle_layout_empty Sample.convert Sample.cos3 Sample.sin3
                  Sample.no_bus Sample.no_bus [] eq_refl eq_refl)).
Defined.


(** C4 as stated fails: the converter runs inside the [try], so when it
    does not find the case the circular strategy is entered although the
    tool, which would have answered, was never started. *)
Lemma get_coords_falls_back_without_tool :
  Sample.sfdp_says Sample.plain_output 1234 Sample.triangle_graph
  = Ok Sample.plain_output /\
  Sample.missing_case Sample.triangle = Raise FileNotFoundError /\
  _get_coords Sample.missing_case (Sample.sfdp_says Sample.plain_output)
    Sample.cos3 Sample.sin3 Sample.triangle None []
  = (Raise FileNotFoundError, [Enter_coords_from_sfdp; Enter_coords_circle]).
Proof. split; [|split]; reflexivity. Qed.

Lemma unparsed_output_raises_witness :
  _get_coords Sample.convert (Sample.sfdp_says Sample.no_node_output)
    Sample.cos3 Sample.sin3 Sample.triangle None []
  = (Raise ValueError, after_sfdp Sample.triangle_graph 1234 []).
Proof.
  refine (proj1 (proj2 (unparsed_output_raises Sample.convert
            (Sample.sfdp_says Sample.no_node_output) Sample.cos3 Sample.sin3
            Sample.triangle Sample.triangle Sample.triangle_graph []
            Sample.no_node_output eq_refl triangle_graph_text eq_refl _))).
  intros line H. vm_compute in H.
  repeat (destruct H as [<-|H]; [reflexivity|]). destruct H.
Defined.

Lemma sfdp_min_is_zero_witness :
  exists coords,
    _coords_from_sfdp Sample.convert (Sample.sfdp_says Sample.plain_output)
      Sample.triangle 1234 []
    = (Ok coords, after_sfdp Sample.triangle_graph 1234 []) /\
    min_is_zero (xs_of coords) /\ min_is_zero (ys_of coords).
Proof.
  apply (sfdp_min_is_zero Sample.convert (Sample.sfdp_says Sample.plain_output)
           Sample.triangle Sample.triangle Sample.triangle_graph 1234 []
           Sample.plain_output
           eq_refl triangle_NoDup triangle_graph_text eq_refl);
    vm_compute; reflexivity.
Defined.

(** C6 as stated fails: a node line may give an infinite position, and
    the shift of an infinite position is not a number. *)
Lemma sfdp_min_not_zero :
  parses_as_node Sample.infinite_output = true /\
  exists coords,
    fst (_coords_from_sfdp Sample.convert
           (Sample.sfdp_says Sample.infinite_output) Sample.one_bus 1234 [])
    = Ok coords /\
    ~ min_is_zero (xs_of coords).
Proof.
  split; [vm_compute; reflexivity|].
  exists [(7%Z, (0, nan)%float)]. split; [vm_compute; reflexivity|].
  intros (m & E & Z). injection E as <-. vm_compute in Z. discriminate.
Qed.

Lemma layouts_emit_y_then_x_witness :
  (exists g out minx miny,
     graph_text Sample.triangle = Ok g /\
     Sample.sfdp_says Sample.plain_output 1234 g = Ok out /\
     forall bus a b,
       In (bus, (a, b))
          [(30, (1, 0)%float); (10, (0, 1)%float); (20, (1.75, 0.5)%float)]%Z ->
       exists cnt line X Y,
         In (bus, cnt) (IDtoCountmap Sample.triangle) /\
         In line (Str.splitlines out) /\ gives line cnt X Y /\
         a = (Y - miny)%float /\ b = (X - minx)%float) /\
  (forall bus p,
     In (bus, p)
        [(10, (0, 100)%float);
         (20, (86.60254037844388, -49.99999999999998)%float);
         (30, (-86.60254037844383, -50.00000000000004)%float)]%Z ->
     exists k,
       nth_error (sorted (dict_keys (IDtoCountmap Sample.triangle))) k
       = Some bus /\
       at_angle Sample.cos3 Sample.sin3 3 (Z.of_nat k) p).
Proof.
  destruct (layouts_emit_y_then_x Sample.convert
              (Sample.sfdp_says Sample.plain_output) Sample.cos3 Sample.sin3
              Sample.triangle Sample.triangle 1234 [] eq_refl) as [A B].
  split.
  - apply A. vm_compute. reflexivity.
  - apply B. vm_compute. reflexivity.
Defined.

Lemma tune_traces_bounds_witness :
  exists trs',
    _tune_traces Sample.solved_figure
    = Ok {| layout := layout Sample.solved_figure; data := trs' |} /\
    Forall2 tuned (data Sample.solved_figure) trs'.
Proof.
  apply (tune_traces_bounds Sample.solved_figure). vm_compute. reflexivity.
Defined.

(** C3 as stated fails twice.  A trace whose mode includes [lines] and
    that has no [line] comes out of the pass without a width.  A marker size
    that is an int too large for a float makes the pass raise
    [OverflowError], which [bump] does not catch. *)
Lemma tune_traces_not_always :
  (_tune_traces (Sample.figure_of [] [Sample.bare_trace])
   = Ok (Sample.figure_of [] [Sample.bare_trace]) /\
   Str.contains "lines" (mode_of Sample.bare_trace) = true /\
   line Sample.bare_trace = None) /\
  _tune_traces (Sample.figure_of [] [Sample.huge_trace]) = Raise OverflowError.
Proof. split; [split; [|split]|]; vm_compute; reflexivity. Qed.

(** C5 as stated fails: the text kept is the stripped one, not the text
    as it was. *)
Lemma restyle_strips :
  (exists a, In a (annotations (layout Sample.solved_figure)) /\
             text a = VStr "OBJ 12.5 " /\
             Str.startswith "OBJ" "OBJ 12.5 " = true) /\
  exists txt,
    annotations (layout (restyle Sample.solved_figure true)) = [block txt] /\
    Str.startswith "<b>OBJ 12.5 </b>" txt = false /\
    Str.startswith "<b>OBJ 12.5</b><br>" txt = true.
Proof.
  split.
  - exists (Sample.note (VStr "OBJ 12.5 ")). simpl. auto.
  - eexists. split; [reflexivity|]. split; vm_compute; reflexivity.
Qed.

Lemma solution_plot_fallback_witness :
  exists fig',
    fst (solution_plot_repaired Sample.convert Sample.grbmap
           Sample.build_solution
           Sample.no_sfdp Sample.cos3 Sample.sin3
           Sample.triangle None tt default_width default_height
           default_keep_obj []) = Ok fig' /\
    layout_width (layout fig') = Some 1200%Z /\
    layout_height (layout fig') = Some 900%Z.
Proof.
  destruct (solution_plot_fallback Sample.convert Sample.grbmap
              Sample.build_solution Sample.no_sfdp Sample.cos3 Sample.sin3
              Sample.triangle tt default_width default_height
              default_keep_obj Sample.triangle
              (set_graphical Sample.triangle) Sample.triangle_graph
              [(10, (0, 100)%float);
               (20, (86.60254037844388, -49.99999999999998)%float);
               (30, (-86.60254037844383, -50.00000000000004)%float)]%Z
              Sample.solved_figure []
              eq_refl triangle_graph_text eq_refl
              ltac:(vm_compute; reflexivity)
              ltac:(vm_compute; reflexivity) eq_refl
              ltac:(vm_compute; reflexivity))
    as (fig' & E & W & H & _).
  exists fig'. auto.
Defined.

(** * The further properties at the sample data *)

Lemma triangle_counts_NoDup :
  NoDup (dict_values (IDtoCountmap Sample.triangle)).
Proof.
  repeat constructor; simpl; intuition discriminate.
Qed.

Lemma get_coords_converter_raises_witness :
  _get_coords Sample.missing_case Sample.no_sfdp Sample.cos3 Sample.sin3
    Sample.triangle None []
  = (Raise FileNotFoundError, [Enter_coords_from_sfdp; Enter_coords_circle]).
Proof.
  exact (proj2 (get_coords_converter_raises Sample.missing_case Sample.no_sfdp
                  Sample.cos3 Sample.sin3 Sample.triangle FileNotFoundError [])
               eq_refl).
Defined.

Lemma unknown_node_raises_witness :
  _get_coords Sample.convert (Sample.sfdp_says Sample.stray_output)
    Sample.cos3 Sample.sin3 Sample.triangle None []
  = (Raise KeyError, after_sfdp Sample.triangle_graph 1234 []).
Proof.
  refine (proj2 (unknown_node_raises Sample.convert
            (Sample.sfdp_says Sample.stray_output) Sample.cos3 Sample.sin3
            Sample.triangle Sample.triangle Sample.triangle_graph []
            Sample.stray_output 9
            eq_refl triangle_graph_text eq_refl _ _ _)).
  - vm_compute. reflexivity.
  - exists (lit "node 9 1.5 0.25 0 0 x solid point black lightgrey"),
      1.5%float, 0.25%float.
    split; [vm_compute; auto|].
    split; [|split; [|split]]; vm_compute; reflexivity.
  - vm_compute. intuition discriminate.
Defined.

Lemma count_to_id_round_trip_witness :
  dict_get 10 (IDtoCountmap Sample.triangle) = Some 2 <->
  dict_get 2 (dict_invert (IDtoCountmap Sample.triangle)) = Some 10.
Proof.
  exact (count_to_id_round_trip (IDtoCountmap Sample.triangle) 10 2
           triangle_NoDup triangle_counts_NoDup).
Defined.

Lemma sfdp_places_named_nodes_witness :
  exists g out,
    graph_text Sample.triangle = Ok g /\
    Sample.sfdp_says Sample.partial_output 1234 g = Ok out /\
    forall bus cnt, dict_get bus (IDtoCountmap Sample.triangle) = Some cnt ->
      (names out cnt <->
       dict_get bus [(30, (1, 0)%float); (10, (0, 1)%float)] <> None).
Proof.
  apply (sfdp_places_named_nodes Sample.convert
           (Sample.sfdp_says Sample.partial_output)
           Sample.triangle Sample.triangle 1234 []
           [(30, (1, 0)%float); (10, (0, 1)%float)]
           eq_refl triangle_NoDup triangle_counts_NoDup).
  vm_compute. reflexivity.
Defined.

Lemma sfdp_coords_nonnegative_witness :
  fst (_coords_from_sfdp Sample.convert (Sample.sfdp_says Sample.plain_output)
         Sample.triangle 1234 [])
  = Ok [(30, (1, 0)%float); (10, (0, 1)%float); (20, (1.75, 0.5)%float)] /\
  (0 <=? 1.75)%float = true /\ (0 <=? 0.5)%float = true.
Proof.
  split; [vm_compute; reflexivity|].
  apply (sfdp_coords_nonnegative Sample.convert
           (Sample.sfdp_says Sample.plain_output)
           Sample.triangle Sample.triangle Sample.triangle_graph 1234 []
           Sample.plain_output
           [(30, (1, 0)%float); (10, (0, 1)%float); (20, (1.75, 0.5)%float)]
           eq_refl triangle_graph_text eq_refl
           ltac:(vm_compute; reflexivity)
           ltac:(vm_compute; reflexivity) 20 1.75%float 0.5%float).
  right. right. left. reflexivity.
Defined.

Lemma circle_layout_ignores_order_witness :
  _coords_circle Sample.convert Sample.cos3 Sample.sin3
    Sample.shuffled_triangle []
  = _coords_circle Sample.convert Sample.cos3 Sample.sin3 Sample.triangle [].
Proof.
  apply (circle_layout_ignores_order Sample.convert Sample.cos3 Sample.sin3
           Sample.shuffled_triangle Sample.triangle
           Sample.shuffled_triangle Sample.triangle [] eq_refl eq_refl).
  exact (Permutation_cons_append [30; 10] 20).
Defined.

(** The pass on a figure whose last trace has a marker size too large for
    a float. *)
Lemma tune_traces_outcome_witness :
  _tune_traces (Sample.figure_of [] (Sample.odd_traces ++ [Sample.huge_trace]))
  = Raise OverflowError.
Proof.
  exact (proj1 (tune_traces_outcome
                  (Sample.figure_of []
                     (Sample.odd_traces ++ [Sample.huge_trace])))).
Defined.

(** Widths and sizes at and beyond the bounds. *)
Example tuning_at_the_bounds :
  tune_width (VFloat 1.5) = 1.62%float /\
  tune_width (VInt (-3)) = 0.8%float /\
  tune_width (VStr "nan") = 0.8%float /\
  tune_width (VStr "inf") = 2.2%float /\
  tune_width (VStr [28; 50; 31]%N) = 1.08%float /\
  bump (VStr [31; 49; 48]%N) = Ok 6.720000000000001%float /\
  bump (VInt 10) = Ok 11.200000000000001%float /\
  bump (VFloat (-4)) = Ok 6%float /\
  bump (VFloat 100) = Ok 18%float.
Proof. repeat split; vm_compute; reflexivity. Qed.

Lemma tuning_saturates_witness :
  tune_width (VInt (-3)) = 0.8%float /\
  tune_width (VStr "nan") = 0.8%float /\
  tune_width (VStr "inf") = 2.2%float /\
  (forall r, bump (VFloat 100) = Ok r -> r = 18%float).
Proof.
  destruct tuning_saturates as [W B].
  split; [|split; [|split]].
  - apply (proj1 (W (VInt (-3)))). left. vm_compute. reflexivity.
  - apply (proj1 (W (VStr "nan"))). right. vm_compute. reflexivity.
  - apply (proj1 (proj2 (W (VStr "inf")))). vm_compute. reflexivity.
  - intros r H. apply (proj1 (proj2 (B (VFloat 100) r H))).
    vm_compute. reflexivity.
Defined.

(** The objective line of the sample figure, kept by a first pass and
    lost by a second. *)
Example restyle_keeps_objective_once :
  Str.startswith "<b>OBJ 12.5</b>"
    (match text (hd (Sample.note VNone)
                    (annotations (layout (restyle Sample.solved_figure true))))
     with VStr s => s | _ => [] end) = true.
Proof. vm_compute. reflexivity. Qed.

Lemma restyle_twice_witness :
  annotations (layout (restyle (restyle Sample.solved_figure true) true))
  = [block (Str.join "<br>" legend_lines)].
Proof.
  exact (proj1 (restyle_twice Sample.solved_figure true true)).
Defined.

Lemma sfdp_reads_node_lines_only_witness :
  _coords_from_sfdp Sample.convert (Sample.sfdp_says Sample.plain_output)
    Sample.triangle 1234 []
  = _coords_from_sfdp Sample.convert (Sample.sfdp_says Sample.bare_output)
      Sample.triangle 1234 [].
Proof.
  apply (sfdp_reads_node_lines_only Sample.convert
           (Sample.sfdp_says Sample.plain_output)
           (Sample.sfdp_says Sample.bare_output)
           Sample.triangle Sample.triangle Sample.triangle_graph 1234 []
           Sample.plain_output Sample.bare_output
           eq_refl triangle_graph_text eq_refl eq_refl).
  vm_compute. reflexivity.
Defined.

Lemma last_node_line_wins_witness :
  exists bus x y minx miny,
    dict_get 1 (dict_invert (IDtoCountmap Sample.triangle)) = Some bus /\
    parse_nodes Sample.repeated_output = Ok (x, y) /\
    py_min (dict_values x) = Ok minx /\ py_min (dict_values y) = Ok miny /\
    dict_get bus [(30, (2, 2.5)%float); (10, (0, 0.5)%float);
                  (20, (1.75, 0)%float)]
    = Some (2.25 - miny, 3.5 - minx)%float.
Proof.
  apply (last_node_line_wins Sample.convert
           (Sample.sfdp_says Sample.repeated_output)
           Sample.triangle Sample.triangle Sample.triangle_graph 1234 []
           Sample.repeated_output
           [(30, (2, 2.5)%float); (10, (0, 0.5)%float); (20, (1.75, 0)%float)]
           [lit "node 1 0.5 1.25"; lit "node 2 1.5 0.25"]
           [lit "node 3 1.0 2.0"] (lit "node 1 3.5 2.25") 1
           3.5%float 2.25%float eq_refl triangle_NoDup triangle_graph_text
           eq_refl).
  - vm_compute. reflexivity.
  - vm_compute. reflexivity.
  - split; [|split; [|split]]; vm_compute; reflexivity.
  - intros l X' Y' [<-|[]] (_ & G & _). vm_compute in G. discriminate.
Defined.

Lemma smallest_bus_at_angle_zero_witness :
  exists c s,
    Sample.cos3 0%float = Ok c /\ Sample.sin3 0%float = Ok s /\
    dict_get 10
      [(10, (0, 100)%float);
       (20, (86.60254037844388, -49.99999999999998)%float);
       (30, (-86.60254037844383, -50.00000000000004)%float)]
    = Some (100 * s, 100 * c)%float.
Proof.
  apply (smallest_bus_at_angle_zero Sample.convert Sample.cos3 Sample.sin3
           Sample.triangle Sample.triangle [] _ 10 eq_refl triangle_NoDup).
  - vm_compute. reflexivity.
  - vm_compute. reflexivity.
  - vm_compute. auto.
  - intros b H. vm_compute in H. lia.
Defined.

Lemma node_names_read_back_witness :
  exists s,
    Str.of_Z 2 = Ok s /\
    In ("  " ++ s ++ ";")%str
       [lit "graph G {"; node_defaults;
        lit "  1;"; lit "  2;"; lit "  3;";
        lit "  1 -- 2;"; lit "  2 -- 3;"; lit "  3 -- 1;";
        lit "}"] /\
    Num.int_of_str s = Ok 2.
Proof.
  apply (node_names_read_back Sample.triangle _ 2).
  - vm_compute. reflexivity.
  - vm_compute. split; discriminate.
Defined.
